(** * LLMcomparison: action extraction and Playwright plan compilation

    A shallow embedding of
      - [tools/extract-actions.mjs]   (method segmenter, locator normalizer,
                                       action recognizer),
      - [tools/validate-syntax.mjs]   (brace / string / comment scan),
      - [scripts/playwright-bridge.mjs] (plan compiler),
      - [index.mjs]                   (the [extract_actions] tool handler),
      - [scripts/extract-outputs.mjs] (file names and Java blocks of the
                                       saved outputs),
      - [validation/validate-output.mjs] (sections, Java code and rule
                                       checks of a model output),
    with the properties of the specification stated over it.

    JavaScript strings are modelled as [string]: sequences of 8-bit
    characters, that is the Latin-1 range of UTF-16 code units.  JavaScript
    numbers are modelled as [Q] where the source uses a fraction (the [seq]
    field, which briefly holds 0.1 and 0.2) and as [nat] for indices. *)

From Stdlib Require Import String Ascii List ZArith QArith Lia Bool Sorted.
From stdpp Require Import base gmap strings list pretty.


(** ** JavaScript string primitives *)

Module Js.

(** The double quote character, as a one-character string. *)
Definition dq_char : ascii := "034"%char.
Definition DQ : string := String dq_char EmptyString.

(** The line feed, as a one-character string. *)
Definition LF : string := String "010"%char EmptyString.

(** [s.startsWith(p)] *)
Fixpoint startsWith (s p : string) {struct p} : bool :=
  match p with
  | EmptyString => true
  | String a p' =>
      match s with
      | EmptyString => false
      | String b s' => if Ascii.eqb a b then startsWith s' p' else false
      end
  end.

(** [s.slice(n)] for a non-negative [n] *)
Fixpoint slice (n : nat) (s : string) : string :=
  match n with
  | O => s
  | S n' => match s with EmptyString => EmptyString | String _ s' => slice n' s' end
  end.

(** [s.slice(0, n)] for a non-negative [n] *)
Fixpoint take (n : nat) (s : string) : string :=
  match n with
  | O => EmptyString
  | S n' => match s with EmptyString => EmptyString | String a s' => String a (take n' s') end
  end.

(** [s.slice(a, b)] for [0 <= a], [0 <= b] *)
Definition slice2 (a b : nat) (s : string) : string := take (b - a) (slice a s).

(** White space and line terminators of ECMAScript in the 8-bit range:
    TAB, LF, VT, FF, CR, SPACE and NBSP.  This is the class [\s] and the
    set that [trim] strips. *)
Definition is_space (a : ascii) : bool :=
  let n := nat_of_ascii a in
  ((9 <=? n) && (n <=? 13)) || (n =? 32) || (n =? 160).

Fixpoint trimStart (s : string) : string :=
  match s with
  | EmptyString => EmptyString
  | String a s' => if is_space a then trimStart s' else s
  end.

(** [trimEnd], by one pass from the right: a character is kept as soon as
    something after it is kept. *)
Fixpoint trimEnd (s : string) : string :=
  match s with
  | EmptyString => EmptyString
  | String a s' =>
      match trimEnd s' with
      | EmptyString => if is_space a then EmptyString else String a EmptyString
      | t => String a t
      end
  end.

Definition trim (s : string) : string := trimEnd (trimStart s).

(** A template literal prints [undefined] for a missing property. *)
Definition tpl (o : option string) : string := default "undefined" o.

(** [hay.includes(needle)] *)
Fixpoint includes (hay needle : string) : bool :=
  startsWith hay needle
  || match hay with
     | EmptyString => false
     | String _ hay' => includes hay' needle
     end.

(** [hay.includes(needle)], as a proposition. *)
Definition contains (hay needle : string) : Prop :=
  exists pre post, hay = pre +:+ needle +:+ post.

End Js.

(** ** A backtracking matcher for the regular expressions of the source

    The patterns of the source only repeat single-character classes, so
    repetition takes a class and the matcher is structural: on the pattern,
    and inside a repetition on the text.  Matching is by continuation, which
    gives the leftmost-first backtracking order of ECMAScript: a greedy
    repetition tries the longest run first, a lazy one the shortest. *)

Module Regex.

Inductive re : Type :=
| Lit (l : string)                       (* a literal run of characters *)
| Rep (greedy plus : bool) (p : ascii -> bool)
                                         (* [c*] [c+] [c*?] [c+?] on a class *)
| Opt (r : re)                           (* [(?:r)?] *)
| Cap (n : nat) (r : re)                 (* capture group number [n] *)
| Seq (r1 r2 : re)
| Bol                                    (* [^] without the m flag *)
| Eol.                                   (* [$] without the m flag *)

(** Captures, most recent first. *)
Definition caps : Type := list (nat * string).

(** A continuation receives the index reached, the rest of the text and
    the captures, and answers with the end index and captures of a match. *)
Definition kont : Type := nat -> string -> caps -> option (nat * caps).

(** Strip the literal [l] from the front of [s]. *)
Fixpoint lit (l s : string) {struct l} : option string :=
  match l with
  | EmptyString => Some s
  | String a l' =>
      match s with
      | EmptyString => None
      | String b s' => if Ascii.eqb a b then lit l' s' else None
      end
  end.

Fixpoint rep_greedy (p : ascii -> bool) (s : string) (i : nat) (c : caps) (k : kont)
  : option (nat * caps) :=
  match s with
  | EmptyString => k i s c
  | String a s' =>
      if p a then
        match rep_greedy p s' (S i) c k with
        | Some r => Some r
        | None => k i s c
        end
      else k i s c
  end.

Fixpoint rep_lazy (p : ascii -> bool) (s : string) (i : nat) (c : caps) (k : kont)
  : option (nat * caps) :=
  match k i s c with
  | Some r => Some r
  | None =>
      match s with
      | EmptyString => None
      | String a s' => if p a then rep_lazy p s' (S i) c k else None
      end
  end.

Definition rep (greedy : bool) : (ascii -> bool) -> string -> nat -> caps -> kont -> option (nat * caps) :=
  if greedy then rep_greedy else rep_lazy.

Fixpoint mrun (r : re) (i : nat) (s : string) (c : caps) (k : kont) : option (nat * caps) :=
  match r with
  | Lit l =>
      match lit l s with
      | Some s' => k (i + String.length l) s' c
      | None => None
      end
  | Rep g false p => rep g p s i c k
  | Rep g true p =>
      match s with
      | EmptyString => None
      | String a s' => if p a then rep g p s' (S i) c k else None
      end
  | Opt r1 =>
      match mrun r1 i s c k with
      | Some x => Some x
      | None => k i s c
      end
  | Cap n r1 => mrun r1 i s c (fun i' s' c' => k i' s' ((n, Js.take (i' - i) s) :: c'))
  | Seq r1 r2 => mrun r1 i s c (fun i' s' c' => mrun r2 i' s' c' k)
  | Bol => if Nat.eqb i 0 then k i s c else None
  | Eol => match s with EmptyString => k i s c | String _ _ => None end
  end.

(** The match object: [index], [m[0]] and the numbered groups. *)
Record match_result : Type := MatchResult {
  index : nat;
  m0 : string;
  groups : caps }.

(** [m[n]] for a group that took part in the match. *)
Fixpoint lookup_group (n : nat) (c : caps) : option string :=
  match c with
  | [] => None
  | (j, w) :: c' => if Nat.eqb n j then Some w else lookup_group n c'
  end.

Definition group (n : nat) (mr : match_result) : string :=
  default EmptyString (lookup_group n (groups mr)).

(** Try the pattern at index [i], where [s] is the text from [i] on; on
    failure move one character to the right. *)
Fixpoint search (r : re) (i : nat) (s : string) : option match_result :=
  match mrun r i s [] (fun i' _ c => Some (i', c)) with
  | Some (e, c) => Some {| index := i; m0 := Js.take (e - i) s; groups := c |}
  | None =>
      match s with
      | EmptyString => None
      | String _ s' => search r (S i) s'
      end
  end.

(** [re.exec(inp)] with [re.lastIndex = lastIndex]. *)
Definition exec (r : re) (inp : string) (lastIndex : nat) : option match_result :=
  if lastIndex <=? String.length inp then search r lastIndex (Js.slice lastIndex inp) else None.

(** [inp.match(re)] for a pattern without the g flag. *)
Definition match_ (r : re) (inp : string) : option match_result := exec r inp 0.

(** Where the next search of a global pattern starts: after the match, and
    one further when the match is empty. *)
Definition advance (mr : match_result) : nat :=
  let e := index mr + String.length (m0 mr) in
  match m0 mr with EmptyString => S e | String _ _ => e end.

(** [inp.matchAll(re)] for a pattern with the g flag.  Each round moves
    [lastIndex] to the right, and [exec] fails beyond the end of the text, so
    [length inp + 2] rounds are enough ([matchAll_loop_fuel] below). *)
Fixpoint matchAll_loop (fuel : nat) (r : re) (inp : string) (lastIndex : nat) : list match_result :=
  match fuel with
  | O => []
  | S fuel' =>
      match exec r inp lastIndex with
      | None => []
      | Some mr => mr :: matchAll_loop fuel' r inp (advance mr)
      end
  end.

Definition matchAll (r : re) (inp : string) : list match_result :=
  matchAll_loop (String.length inp + 2) r inp 0.

(** Character classes of the source patterns. *)
Definition any (a : ascii) : bool := true.                       (* [\s\S] *)
Definition space (a : ascii) : bool := Js.is_space a.            (* \s *)
Definition dot (a : ascii) : bool :=                             (* . *)
  negb (Ascii.eqb a "010"%char || Ascii.eqb a "013"%char).
Definition word (a : ascii) : bool :=                            (* \w *)
  let n := nat_of_ascii a in
  ((48 <=? n) && (n <=? 57)) || ((65 <=? n) && (n <=? 90))
  || ((97 <=? n) && (n <=? 122)) || (n =? 95).
Definition not_char (x : ascii) (a : ascii) : bool := negb (Ascii.eqb a x).

Definition star (p : ascii -> bool) : re := Rep true false p.
Definition plus (p : ascii -> bool) : re := Rep true true p.
Definition lazy_star (p : ascii -> bool) : re := Rep false false p.
Definition ws : re := star space.                                (* \s* *)

(** Every character of [s] is in the class [p]. *)
Fixpoint all_chars (p : ascii -> bool) (s : string) : bool :=
  match s with
  | EmptyString => true
  | String a s' => p a && all_chars p s'
  end.

(** What a match of [r] looks like: at index [i] the pattern takes the
    text [w] in front of [rest] and turns the captures [c] into [c']. *)
Fixpoint lang (r : re) (i : nat) (w rest : string) (c c' : caps) : Prop :=
  match r with
  | Lit l => w = l /\ c' = c
  | Rep _ pl p =>
      all_chars p w = true /\ (pl = true -> w <> EmptyString) /\ c' = c
  | Opt r1 => (w = EmptyString /\ c' = c) \/ lang r1 i w rest c c'
  | Cap n r1 => exists c1, lang r1 i w rest c c1 /\ c' = (n, w) :: c1
  | Seq r1 r2 =>
      exists w1 w2 c1,
        w = w1 +:+ w2
        /\ lang r1 i w1 (w2 +:+ rest) c c1
        /\ lang r2 (i + String.length w1) w2 rest c1 c'
  | Bol => w = EmptyString /\ i = 0 /\ c' = c
  | Eol => w = EmptyString /\ rest = EmptyString /\ c' = c
  end.

Fixpoint seq_of (rs : list re) : re :=
  match rs with
  | [] => Lit EmptyString
  | [r] => r
  | r :: rs' => Seq r (seq_of rs')
  end.

End Regex.

(** ** The intermediate representation shared by extraction and compilation *)

Module Ir.

(** A semantic action: a JSON object with a [type] and the properties that
    its type needs; a property that is absent reads as [undefined]. *)
Record action : Type := Action {
  type : string;
  url : option string;
  selector : option string;
  value : option string;
  expected : option string;
  expression : option string }.

(** The shapes of action that the recognizer emits. *)
Definition navigate (u : string) : action :=
  {| type := "navigate"; url := Some u; selector := None; value := None;
     expected := None; expression := None |}.

Definition fill (sel v : string) : action :=
  {| type := "fill"; url := None; selector := Some sel; value := Some v;
     expected := None; expression := None |}.

(** clear, click, get_text, wait and count_elements: [{ type, selector }] *)
Definition on_selector (ty sel : string) : action :=
  {| type := ty; url := None; selector := Some sel; value := None;
     expected := None; expression := None |}.

Definition assert_text (sel exp : string) : action :=
  {| type := "assert_text"; url := None; selector := Some sel; value := None;
     expected := Some exp; expression := None |}.

(** assert_true and assert_false: [{ type, expression }] *)
Definition on_expression (ty expr : string) : action :=
  {| type := ty; url := None; selector := None; value := None;
     expected := None; expression := Some expr |}.

Record test_method : Type := TestMethod {
  name : string;
  actions : list action }.

End Ir.

(** ** tools/extract-actions.mjs *)

Module Extract.
Import Js Regex Ir.

Definition not_dq : ascii -> bool := not_char dq_char.          (* [^\x22] *)
Definition not_rparen : ascii -> bool := not_char ")"%char.     (* [^)] *)
Definition not_semi : ascii -> bool := not_char ";"%char.       (* [^;] *)

(** [/By\.<name>\s*\(\s*\x22([^\x22]+)\x22\s*\)/] *)
Definition by_re (name : string) : re :=
  seq_of [Lit ("By." +:+ name); ws; Lit "("; ws;
          Lit DQ; Cap 1 (plus not_dq); Lit DQ; ws; Lit ")"].

Definition byToSelector (byExpr : string) : string :=
  match match_ (by_re "id") byExpr with
  | Some mr => "#" +:+ group 1 mr
  | None =>
  match match_ (by_re "name") byExpr with
  | Some mr => "[name=" +:+ DQ +:+ group 1 mr +:+ DQ +:+ "]"
  | None =>
  match match_ (by_re "cssSelector") byExpr with
  | Some mr => group 1 mr
  | None =>
  match match_ (by_re "xpath") byExpr with
  | Some mr => "xpath=" +:+ group 1 mr
  | None =>
  match match_ (by_re "className") byExpr with
  | Some mr => "." +:+ group 1 mr
  | None =>
  match match_ (by_re "tagName") byExpr with
  | Some mr => group 1 mr
  | None =>
  match match_ (by_re "linkText") byExpr with
  | Some mr => "text=" +:+ DQ +:+ group 1 mr +:+ DQ
  | None => byExpr
  end end end end end end end.

(** A segmented method: [{ name, body }]. *)
Module Seg.
Record t : Type := Make { name : string; body : string }.
End Seg.

(** [/@Test[\s\S]*?(?:public\s+)?void\s+(\w+)\s*\([^)]*\)\s*\{/g] *)
Definition testMethodRe : re :=
  seq_of [Lit "@Test"; lazy_star any; Opt (Seq (Lit "public") (plus space));
          Lit "void"; plus space; Cap 1 (plus word); ws;
          Lit "("; star not_rparen; Lit ")"; ws; Lit "{"].

(** The inner [while (i < code.length && depth > 0)] loop; [rest] is the
    text from index [i] on.  The result is the final [i]. *)
Fixpoint matchBrace (rest : string) (depth : Z) (i : nat) : nat :=
  match rest with
  | EmptyString => i
  | String ch rest' =>
      if (0 <? depth)%Z then
        let depth := if Ascii.eqb ch "{"%char then (depth + 1)%Z else depth in
        let depth := if Ascii.eqb ch "}"%char then (depth - 1)%Z else depth in
        matchBrace rest' depth (S i)
      else i
  end.

(** The outer [while ((match = testMethodRe.exec(code)) !== null)] loop;
    [lastIndex] is the state of the global pattern.  The next search starts
    right after the opening brace, not after the body. *)
Fixpoint split_loop (fuel : nat) (code : string) (lastIndex : nat) : list Seg.t :=
  match fuel with
  | O => []
  | S fuel' =>
      match exec testMethodRe code lastIndex with
      | None => []
      | Some mt =>
          let name := group 1 mt in
          let startBrace := index mt + String.length (m0 mt) - 1 in
          let i := matchBrace (slice (startBrace + 1) code) 1 (startBrace + 1) in
          Seg.Make name (slice2 startBrace i code)
            :: split_loop fuel' code (index mt + String.length (m0 mt))
      end
  end.

Definition splitTestMethods (code : string) : list Seg.t :=
  split_loop (String.length code + 2) code 0.

(** [findElement\s*\(\s*(By\.[^)]+\))\s*\)] followed by [tail]. *)
Definition findElement_re (tail : list re) : re :=
  seq_of ([Lit "findElement"; ws; Lit "("; ws;
           Cap 1 (seq_of [Lit "By."; plus not_rparen; Lit ")"]); ws; Lit ")"] ++ tail).

(** [/driver\.get\s*\(\s*([^)]+)\s*\)/g] *)
Definition navigateRe : re :=
  seq_of [Lit "driver.get"; ws; Lit "("; ws; Cap 1 (plus not_rparen); ws; Lit ")"].
(** [/findElement\s*\(\s*(By\.[^)]+\))\s*\)\.sendKeys\s*\(\s*([^)]+)\s*\)/g] *)
Definition fillRe : re :=
  findElement_re [Lit ".sendKeys"; ws; Lit "("; ws; Cap 2 (plus not_rparen); ws; Lit ")"].
(** [/findElement\s*\(\s*(By\.[^)]+\))\s*\)\.clear\s*\(\s*\)/g] *)
Definition clearRe : re := findElement_re [Lit ".clear"; ws; Lit "("; ws; Lit ")"].
(** [/findElement\s*\(\s*(By\.[^)]+\))\s*\)\.click\s*\(\s*\)/g] *)
Definition clickRe : re := findElement_re [Lit ".click"; ws; Lit "("; ws; Lit ")"].
(** [/findElement\s*\(\s*(By\.[^)]+\))\s*\)\.getText\s*\(\s*\)/g] *)
Definition getTextRe : re := findElement_re [Lit ".getText"; ws; Lit "("; ws; Lit ")"].
(** [/assertEquals\s*\(\s*\x22([^\x22]+)\x22\s*,\s*.*?findElement\s*\(\s*(By\.[^)]+\))\s*\)\.getText/g] *)
Definition assertEqualsRe : re :=
  seq_of [Lit "assertEquals"; ws; Lit "("; ws; Lit DQ; Cap 1 (plus not_dq); Lit DQ;
          ws; Lit ","; ws; lazy_star dot;
          Lit "findElement"; ws; Lit "("; ws;
          Cap 2 (seq_of [Lit "By."; plus not_rparen; Lit ")"]); ws; Lit ")"; Lit ".getText"].
(** [/assertTrue\s*\(([^;]+)\)/g] and [/assertFalse\s*\(([^;]+)\)/g] *)
Definition assertTrueRe : re :=
  seq_of [Lit "assertTrue"; ws; Lit "("; Cap 1 (plus not_semi); Lit ")"].
Definition assertFalseRe : re :=
  seq_of [Lit "assertFalse"; ws; Lit "("; Cap 1 (plus not_semi); Lit ")"].
(** [/ExpectedConditions\.\w+\s*\(\s*(By\.[^)]+\))\s*\)/g] *)
Definition waitRe : re :=
  seq_of [Lit "ExpectedConditions."; plus word; ws; Lit "("; ws;
          Cap 1 (seq_of [Lit "By."; plus not_rparen; Lit ")"]); ws; Lit ")"].
(** [/findElements\s*\(\s*(By\.[^)]+\))\s*\)\.size\s*\(\s*\)/g] *)
Definition countRe : re :=
  seq_of [Lit "findElements"; ws; Lit "("; ws;
          Cap 1 (seq_of [Lit "By."; plus not_rparen; Lit ")"]); ws; Lit ")";
          Lit ".size"; ws; Lit "("; ws; Lit ")"].

(** [/^\x22([^\x22]+)\x22$/], and the same with a star in place of the
    plus for the value of [sendKeys]. *)
Definition urlLiteralRe : re := seq_of [Bol; Lit DQ; Cap 1 (plus not_dq); Lit DQ; Eol].
Definition valueLiteralRe : re := seq_of [Bol; Lit DQ; Cap 1 (star not_dq); Lit DQ; Eol].

(** A literal is copied, any other expression is wrapped in [{{ }}]. *)
Definition literal_or_deferred (litRe : re) (expr : string) : string :=
  match match_ litRe expr with
  | Some lt => group 1 lt
  | None => "{{ " +:+ expr +:+ " }}"
  end.

(** The action built from one match, construct by construct. *)
Definition navigate_of (mr : match_result) : action :=
  let urlExpr := trim (group 1 mr) in
  navigate (literal_or_deferred urlLiteralRe urlExpr).

Definition fill_of (mr : match_result) : action :=
  let selector := byToSelector (group 1 mr) in
  let valueExpr := trim (group 2 mr) in
  fill selector (literal_or_deferred valueLiteralRe valueExpr).

Definition with_selector (ty : string) (mr : match_result) : action :=
  on_selector ty (byToSelector (group 1 mr)).

Definition assert_text_of (mr : match_result) : action :=
  assert_text (byToSelector (group 2 mr)) (group 1 mr).

(** [assertTrue(true)] is matched and then left out. *)
Definition assert_true_of (mr : match_result) : list action :=
  let expr := trim (group 1 mr) in
  if String.eqb expr "true" then [] else [on_expression "assert_true" expr].

Definition assert_false_of (mr : match_result) : action :=
  on_expression "assert_false" (trim (group 1 mr)).

(** The ten [for (const m of body.matchAll(...))] loops, in source order. *)
Definition extractActionsFromBody (body : string) : list action :=
  map navigate_of (matchAll navigateRe body)
  ++ map fill_of (matchAll fillRe body)
  ++ map (with_selector "clear") (matchAll clearRe body)
  ++ map (with_selector "click") (matchAll clickRe body)
  ++ map (with_selector "get_text") (matchAll getTextRe body)
  ++ map assert_text_of (matchAll assertEqualsRe body)
  ++ flat_map assert_true_of (matchAll assertTrueRe body)
  ++ map assert_false_of (matchAll assertFalseRe body)
  ++ map (with_selector "wait") (matchAll waitRe body)
  ++ map (with_selector "count_elements") (matchAll countRe body).

Definition extractActions (javaCode : string) : list test_method :=
  map (fun mb => {| name := Seg.name mb; actions := extractActionsFromBody (Seg.body mb) |})
      (splitTestMethods javaCode).

(** ** Predicates in which the properties of the extraction are stated *)

(** The constructs of the recognizer in the order of the source: the kind,
    the pattern, and the actions built from one match. *)
Definition constructs : list (string * re * (match_result -> list action)) :=
  [ ("navigate", navigateRe, fun mr => [navigate_of mr]);
    ("fill", fillRe, fun mr => [fill_of mr]);
    ("clear", clearRe, fun mr => [with_selector "clear" mr]);
    ("click", clickRe, fun mr => [with_selector "click" mr]);
    ("get_text", getTextRe, fun mr => [with_selector "get_text" mr]);
    ("assert_text", assertEqualsRe, fun mr => [assert_text_of mr]);
    ("assert_true", assertTrueRe, assert_true_of);
    ("assert_false", assertFalseRe, fun mr => [assert_false_of mr]);
    ("wait", waitRe, fun mr => [with_selector "wait" mr]);
    ("count_elements", countRe, fun mr => [with_selector "count_elements" mr]) ].

(** The actions of one construct: those built from its matches, in the
    order in which [matchAll] finds them. *)
Definition recognized (body : string)
    (c : string * re * (match_result -> list action)) : list action :=
  flat_map c.2 (matchAll c.1.2 body).

(** The locators of the round trip of the normalizer. *)
Inductive locator_kind : Type := ById | ByName | ByClassName | ByTagName.

Definition by_method (k : locator_kind) : string :=
  match k with
  | ById => "id"
  | ByName => "name"
  | ByClassName => "className"
  | ByTagName => "tagName"
  end.

(** The locator expression [By.<method>(\x22v\x22)]. *)
Definition by_expr (k : locator_kind) (v : string) : string :=
  "By." +:+ by_method k +:+ "(" +:+ DQ +:+ v +:+ DQ +:+ ")".

Definition quote_free (v : string) : Prop := all_chars not_dq v = true.

(** The number of double quotes in [s]. *)
Fixpoint count_dq (s : string) : nat :=
  match s with
  | EmptyString => 0
  | String a s' => (if Ascii.eqb a dq_char then 1 else 0) + count_dq s'
  end.

(** The value begins like a selector that the description generator
    takes apart. *)
Definition reads_as_prefixed (v : string) : bool :=
  startsWith v "#" || startsWith v "." || startsWith v "text=" || startsWith v "xpath=".

End Extract.

(** ** tools/validate-syntax.mjs: the brace balance scan *)

Module Validate.
Import Js.

Record scan_state : Type := ScanState {
  depth : Z;
  inString : bool;
  inLineComment : bool;
  inBlockComment : bool }.

Definition init : scan_state :=
  {| depth := 0; inString := false; inLineComment := false; inBlockComment := false |}.

Definition is_char (x : ascii) (o : option ascii) : bool :=
  match o with Some a => Ascii.eqb a x | None => false end.

(** One round of the [for] loop, at the character [ch] with
    [next = code[i + 1]] ([None] past the end).  The boolean tells whether
    the round did an [i++] of its own, which skips the next character. *)
Definition scan_step (st : scan_state) (ch : ascii) (next : option ascii) : scan_state * bool :=
  if inLineComment st then
    (if Ascii.eqb ch "010"%char
     then {| depth := depth st; inString := inString st;
             inLineComment := false; inBlockComment := inBlockComment st |}
     else st, false)
  else if inBlockComment st then
    if Ascii.eqb ch "*"%char && is_char "/"%char next
    then ({| depth := depth st; inString := inString st;
             inLineComment := inLineComment st; inBlockComment := false |}, true)
    else (st, false)
  else if inString st then
    if Ascii.eqb ch "092"%char then (st, true)
    else if Ascii.eqb ch dq_char
    then ({| depth := depth st; inString := false;
             inLineComment := inLineComment st; inBlockComment := inBlockComment st |}, false)
    else (st, false)
  else if Ascii.eqb ch "/"%char && is_char "/"%char next then
    ({| depth := depth st; inString := inString st;
        inLineComment := true; inBlockComment := inBlockComment st |}, false)
  else if Ascii.eqb ch "/"%char && is_char "*"%char next then
    ({| depth := depth st; inString := inString st;
        inLineComment := inLineComment st; inBlockComment := true |}, false)
  else if Ascii.eqb ch dq_char then
    ({| depth := depth st; inString := true;
        inLineComment := inLineComment st; inBlockComment := inBlockComment st |}, false)
  else
    let d := depth st in
    let d := if Ascii.eqb ch "{"%char then (d + 1)%Z else d in
    let d := if Ascii.eqb ch "}"%char then (d - 1)%Z else d in
    ({| depth := d; inString := inString st;
        inLineComment := inLineComment st; inBlockComment := inBlockComment st |}, false).

(** The [for (let i = 0; i < code.length; i++)] loop over the text from
    [i] on. *)
Fixpoint scan (st : scan_state) (s : string) : scan_state :=
  match s with
  | EmptyString => st
  | String ch rest =>
      let next := match rest with EmptyString => None | String n _ => Some n end in
      let (st', skip) := scan_step st ch next in
      if skip then
        match rest with
        | EmptyString => st'
        | String _ rest' => scan st' rest'
        end
      else scan st' rest
  end.

(** The [depth] after the loop; check 1 pushes the error
    [Unbalanced braces] when it is not zero. *)
Definition braceDepth (code : string) : Z := depth (scan init code).

Definition unbalanced (code : string) : bool := negb (braceDepth code =? 0)%Z.

(** For the scan that skips literals and comments, the brace that matches
    the opening brace at the start of [body] is the last character of
    [body]: the depth is zero at the end and at no earlier point. *)
Definition closes_at_end (body : string) : bool :=
  (braceDepth body =? 0)%Z
  && forallb (fun n => negb (braceDepth (take n body) =? 0)%Z)
             (List.seq 1 (String.length body - 1)).

End Validate.

(** ** scripts/playwright-bridge.mjs *)

Module Bridge.
Import Js Regex Ir.

(** The [args] object of a step. *)
Inductive step_args : Type :=
| ArgsUrl (url : string)                 (* { url } *)
| ArgsEmpty                              (* {} *)
| ArgsTime (time : Z)                    (* { time: 2000 } *)
| ArgsText (text : option string)        (* { text: action.expected } *)
| ArgsFunction (fn : string).            (* { function: ... } *)

(** The [args_template] object of a step. *)
Record field : Type := Field {
  element : string;
  ref : string;
  fvalue : option string }.

Inductive step_template : Type :=
| TplFields (fields : list field)        (* { fields: [ ... ] } *)
| TplElement (element ref : string).     (* { element, ref } *)

(** A plan step.  A property that the source leaves out is [None]
    ([false] for the two flags). *)
Record step : Type := Step {
  seq : Q;
  mcp_tool : string;
  args : option step_args;
  args_template : option step_template;
  note : string;
  selector_hint : option string;
  original_action : option action;
  locator_status : option string;
  _snapshot_marker : bool;
  skipped : bool }.

Definition ref_placeholder : string := "{{ resolve ref from latest snapshot }}".

(** [/\[name=\x22([^\x22]+)\x22\]/] *)
Definition nameAttrRe : re :=
  seq_of [Lit ("[name=" +:+ DQ); Cap 1 (plus (not_char dq_char)); Lit (DQ +:+ "]")].

Definition selectorToDescription (selector : string) : string :=
  if startsWith selector "#" then
    "element with id=" +:+ DQ +:+ slice 1 selector +:+ DQ
  else if startsWith selector "." then
    "element with class=" +:+ DQ +:+ slice 1 selector +:+ DQ
  else if startsWith selector "[name=" then
    let name := match match_ nameAttrRe selector with
                | Some mr => group 1 mr
                | None => selector
                end in
    "input with name=" +:+ DQ +:+ name +:+ DQ
  else if startsWith selector "text=" then
    "element with text " +:+ DQ +:+ slice 5 selector +:+ DQ
  else if startsWith selector "xpath=" then
    "element at xpath " +:+ slice 6 selector
  else selector.

(** A snapshot step, which differs from place to place by its note. *)
Definition snapshot_step (seq : Q) (note : string) : step :=
  {| seq := seq; mcp_tool := "browser_snapshot"; args := Some ArgsEmpty;
     args_template := None; note := note; selector_hint := None;
     original_action := None; locator_status := None;
     _snapshot_marker := true; skipped := false |}.

(** What [actionToSteps] returns, with the set [snapshotted] that it
    updates in place. *)
Record lowered : Type := Lowered {
  steps : list step;
  nextSeq : Q;
  currentUrl : string;
  snapshotted : gset string }.

(** The guard [if (!snapshotted.has(currentUrl)) { ... }] that opens the
    cases fill, click, clear and get_text: the steps pushed, the next [seq]
    and the set. *)
Definition ensure_snapshot (why : string) (seq : Q) (snapshotted : gset string)
    (currentUrl : string) : list step * Q * gset string :=
  if decide (currentUrl ∈ snapshotted) then ([], seq, snapshotted)
  else ([snapshot_step seq why], (seq + 1)%Q, {[currentUrl]} ∪ snapshotted).

Section WithBaseUrl.
Variable baseUrl : string.

(** [actionToSteps(action, seq, snapshotted, currentUrl)].  [None] is the
    [TypeError] of calling [startsWith] on a property that is missing.  The
    dash in the note of get_text lies outside the 8-bit range and stands
    here as the bytes of its UTF-8 encoding. *)
Definition actionToSteps (a : action) (seq : Q) (snapshotted : gset string)
    (currentUrl : string) : option lowered :=
  if String.eqb (type a) "navigate" then
    aurl ← url a;
    let url := if startsWith aurl "{{" then baseUrl else aurl in
    Some {| steps :=
              [ {| seq := seq; mcp_tool := "browser_navigate"; args := Some (ArgsUrl url);
                   args_template := None; note := "Navigate to " +:+ url;
                   selector_hint := None; original_action := None;
                   locator_status := None; _snapshot_marker := false; skipped := false |};
                snapshot_step (seq + 1)%Q
                  "Capture accessibility snapshot to resolve element refs" ];
            nextSeq := (seq + 1 + 1)%Q;
            currentUrl := url;
            snapshotted := {[url]} ∪ snapshotted |}
  else if String.eqb (type a) "fill" then
    let '(pre, seq, snapshotted) :=
      ensure_snapshot "Snapshot before fill (auto-inserted)" seq snapshotted currentUrl in
    sel ← selector a;
    Some {| steps := pre ++
              [ {| seq := seq; mcp_tool := "browser_fill_form"; args := None;
                   args_template := Some (TplFields
                     [ {| element := selectorToDescription sel;
                          ref := ref_placeholder;
                          fvalue := value a |} ]);
                   note := "Fill " +:+ DQ +:+ tpl (selector a) +:+ DQ +:+ " with "
                           +:+ DQ +:+ tpl (value a) +:+ DQ;
                   selector_hint := selector a; original_action := Some a;
                   locator_status := Some "pending";
                   _snapshot_marker := false; skipped := false |} ];
            nextSeq := (seq + 1)%Q;
            currentUrl := currentUrl;
            snapshotted := snapshotted |}
  else if String.eqb (type a) "click" then
    let '(pre, seq, snapshotted) :=
      ensure_snapshot "Snapshot before click (auto-inserted)" seq snapshotted currentUrl in
    sel ← selector a;
    Some {| steps := pre ++
              [ {| seq := seq; mcp_tool := "browser_click"; args := None;
                   args_template := Some (TplElement (selectorToDescription sel) ref_placeholder);
                   note := "Click " +:+ DQ +:+ tpl (selector a) +:+ DQ;
                   selector_hint := selector a; original_action := Some a;
                   locator_status := Some "pending";
                   _snapshot_marker := false; skipped := false |} ];
            nextSeq := (seq + 1)%Q;
            currentUrl := currentUrl;
            snapshotted := snapshotted ∖ {[currentUrl]} |}
  else if String.eqb (type a) "clear" then
    let '(pre, seq, snapshotted) :=
      ensure_snapshot "Snapshot before clear (auto-inserted)" seq snapshotted currentUrl in
    sel ← selector a;
    Some {| steps := pre ++
              [ {| seq := seq; mcp_tool := "browser_fill_form"; args := None;
                   args_template := Some (TplFields
                     [ {| element := selectorToDescription sel;
                          ref := ref_placeholder;
                          fvalue := Some EmptyString |} ]);
                   note := "Clear " +:+ DQ +:+ tpl (selector a) +:+ DQ;
                   selector_hint := selector a; original_action := Some a;
                   locator_status := Some "pending";
                   _snapshot_marker := false; skipped := false |} ];
            nextSeq := (seq + 1)%Q;
            currentUrl := currentUrl;
            snapshotted := snapshotted |}
  else if String.eqb (type a) "wait" then
    Some {| steps :=
              [ {| seq := seq; mcp_tool := "browser_wait_for"; args := Some (ArgsTime 2000);
                   args_template := None;
                   note := "Wait for " +:+ DQ +:+ tpl (selector a) +:+ DQ +:+ " to appear";
                   selector_hint := selector a; original_action := Some a;
                   locator_status := None; _snapshot_marker := false; skipped := false |} ];
            nextSeq := (seq + 1)%Q;
            currentUrl := currentUrl;
            snapshotted := snapshotted ∖ {[currentUrl]} |}
  else if String.eqb (type a) "assert_text" then
    Some {| steps :=
              [ {| seq := seq; mcp_tool := "browser_verify_text_visible";
                   args := Some (ArgsText (expected a)); args_template := None;
                   note := "Assert text visible: " +:+ DQ +:+ tpl (expected a) +:+ DQ;
                   selector_hint := None; original_action := Some a;
                   locator_status := Some "pending";
                   _snapshot_marker := false; skipped := false |} ];
            nextSeq := (seq + 1)%Q;
            currentUrl := currentUrl;
            snapshotted := snapshotted |}
  else if String.eqb (type a) "get_text" then
    let '(pre, seq, snapshotted) :=
      ensure_snapshot "Snapshot to read text content (auto-inserted)" seq snapshotted currentUrl in
    Some {| steps := pre ++
              [ {| seq := seq; mcp_tool := "browser_snapshot"; args := Some ArgsEmpty;
                   args_template := None;
                   note := "Read text from " +:+ DQ +:+ tpl (selector a) +:+ DQ
                           +:+ " — verify in snapshot output";
                   selector_hint := selector a; original_action := Some a;
                   locator_status := None; _snapshot_marker := false; skipped := false |} ];
            nextSeq := (seq + 1)%Q;
            currentUrl := currentUrl;
            snapshotted := snapshotted |}
  else if String.eqb (type a) "assert_true" || String.eqb (type a) "assert_false" then
    Some {| steps :=
              [ {| seq := seq; mcp_tool := "browser_evaluate";
                   args := Some (ArgsFunction ("() => !!(" +:+ tpl (expression a) +:+ ")"));
                   args_template := None;
                   note := type a +:+ ": " +:+ tpl (expression a);
                   selector_hint := None; original_action := Some a;
                   locator_status := None; _snapshot_marker := false; skipped := false |} ];
            nextSeq := (seq + 1)%Q;
            currentUrl := currentUrl;
            snapshotted := snapshotted |}
  else if String.eqb (type a) "count_elements" then
    Some {| steps :=
              [ {| seq := seq; mcp_tool := "browser_evaluate";
                   args := Some (ArgsFunction ("() => document.querySelectorAll('"
                                               +:+ tpl (selector a) +:+ "').length"));
                   args_template := None;
                   note := "Count elements matching " +:+ DQ +:+ tpl (selector a) +:+ DQ;
                   selector_hint := selector a; original_action := Some a;
                   locator_status := None; _snapshot_marker := false; skipped := false |} ];
            nextSeq := (seq + 1)%Q;
            currentUrl := currentUrl;
            snapshotted := snapshotted |}
  else
    Some {| steps :=
              [ {| seq := seq; mcp_tool := "/* unknown */"; args := None;
                   args_template := None;
                   note := "Unhandled action type: " +:+ type a;
                   selector_hint := None; original_action := Some a;
                   locator_status := None; _snapshot_marker := false; skipped := true |} ];
            nextSeq := (seq + 1)%Q;
            currentUrl := currentUrl;
            snapshotted := snapshotted |}.

(** The [for (const action of method.actions)] loop; the state is
    [playwrightSteps], [seq], [currentUrl] and [snapshotted]. *)
Fixpoint compile_loop (acts : list action) (st : lowered) : option lowered :=
  match acts with
  | [] => Some st
  | a :: acts' =>
      r ← actionToSteps a (nextSeq st) (snapshotted st) (currentUrl st);
      compile_loop acts'
        {| steps := steps st ++ steps r; nextSeq := nextSeq r;
           currentUrl := currentUrl r; snapshotted := snapshotted r |}
  end.

Definition start : lowered :=
  {| steps := []; nextSeq := 1; currentUrl := EmptyString; snapshotted := ∅ |}.

Definition set_seq (q : Q) (s : step) : step :=
  {| seq := q; mcp_tool := mcp_tool s; args := args s; args_template := args_template s;
     note := note s; selector_hint := selector_hint s;
     original_action := original_action s; locator_status := locator_status s;
     _snapshot_marker := _snapshot_marker s; skipped := skipped s |}.

(** The two steps of [playwrightSteps.unshift(...)]. *)
Definition auto_navigate : step :=
  {| seq := 0.1; mcp_tool := "browser_navigate"; args := Some (ArgsUrl baseUrl);
     args_template := None;
     note := "Auto-inserted: Navigate to base URL (no explicit navigate in Selenium code)";
     selector_hint := None; original_action := None; locator_status := None;
     _snapshot_marker := false; skipped := false |}.

Definition auto_snapshot : step := snapshot_step 0.2 "Auto-inserted: Initial snapshot".

(** [playwrightSteps.forEach((s, i) => (s.seq = i + 1))] *)
Definition renumber (l : list step) : list step :=
  imap (fun i s => set_seq (inject_Z (Z.of_nat i) + 1)%Q s) l.

Definition hasNavigate (acts : list action) : bool :=
  existsb (fun a => String.eqb (type a) "navigate") acts.

(** The post-pass after the loop. *)
Definition post_pass (acts : list action) (playwrightSteps : list step) : list step :=
  if negb (hasNavigate acts) && (0 <? length acts)
  then renumber (auto_navigate :: auto_snapshot :: playwrightSteps)
  else playwrightSteps.

(** One entry of [test_methods]. *)
Record method_plan : Type := MethodPlan {
  mp_name : string;
  total_steps : nat;
  playwright_steps : list step }.

Definition compile_method (method : test_method) : option method_plan :=
  st ← compile_loop (actions method) start;
  let playwrightSteps := post_pass (actions method) (steps st) in
  Some {| mp_name := name method;
          total_steps := length playwrightSteps;
          playwright_steps := playwrightSteps |}.

(** [testMethods.map(...)]: an exception in one method ends the script.
    The script leaves before this point when [testMethods] is not a
    non-empty array. *)
Definition test_methods (testMethods : list test_method) : option (list method_plan) :=
  mapM compile_method testMethods.

End WithBaseUrl.

(** ** Predicates in which the properties of the plan compiler are stated *)

Abbreviation nat_seq n := (inject_Z (Z.of_nat n)).

(** The [seq] values of [l] are [k], [k + 1], ... *)
Definition dense_from (k : nat) (l : list step) : Prop :=
  map seq l = map (fun i => nat_seq i) (List.seq k (length l)).

(** An action is well formed when the properties on which its lowering
    calls a string method are present. *)
Definition wf_action (a : action) : Prop :=
  (type a = "navigate" -> is_Some (url a))
  /\ (type a ∈ ["fill"; "click"; "clear"] -> is_Some (selector a)).

(** A step carries the description of the selector and the placeholder
    for the reference that the host resolves from the latest snapshot. *)
Definition carries_target (sel : string) (s : step) : Prop :=
  args_template s = Some (TplElement (selectorToDescription sel) ref_placeholder)
  \/ exists v, args_template s
       = Some (TplFields [ {| element := selectorToDescription sel;
                              ref := ref_placeholder; fvalue := v |} ]).

(** The action list has no navigate action. *)
Definition no_navigate (acts : list action) : Prop :=
  Forall (fun a => type a <> "navigate") acts.

(** The [args_template] of the step holds the placeholder for the
    reference. *)
Definition has_ref_placeholder (s : step) : Prop :=
  match args_template s with
  | Some (TplElement _ r) => r = ref_placeholder
  | Some (TplFields fs) => Exists (fun f => ref f = ref_placeholder) fs
  | None => False
  end.

(** The step comes from a fill, clear or click action of [acts], has the
    selector of that action as its hint, and is pending. *)
Definition pending_target_of (acts : list action) (s : step) : Prop :=
  exists a sel,
    a ∈ acts /\ original_action s = Some a
    /\ type a ∈ ["fill"; "clear"; "click"]
    /\ selector a = Some sel /\ selector_hint s = Some sel
    /\ locator_status s = Some "pending".

(** The round trip of the locator normalizer: describing the normalized
    locator gives a phrase that contains the raw value. *)
Definition round_trip (k : Extract.locator_kind) (v : string) : Prop :=
  contains (selectorToDescription (Extract.byToSelector (Extract.by_expr k v))) v.

Section WithBaseUrlSpec.
Variable baseUrl : string.

(** The lowering of [a] ends in a primary step with the description of the
    selector, the placeholder, the action itself and the pending marker. *)
Definition lowers_to_pending_primary (a : action) (q : Q) (snap : gset string)
    (cur : string) : Prop :=
  exists r pre primary sel,
    actionToSteps baseUrl a q snap cur = Some r
    /\ steps r = pre ++ [primary]
    /\ selector a = Some sel
    /\ carries_target sel primary
    /\ original_action primary = Some a
    /\ locator_status primary = Some "pending".

(** The URL that a navigate action goes to. *)
Definition resolved (u : string) : string := if startsWith u "{{" then baseUrl else u.

End WithBaseUrlSpec.

End Bridge.

(** ** index.mjs: the handler of the tool extract_actions *)

Module Server.
Import Ir.

Inductive tool_result : Type :=
| Error (msg : string)                           (* { error } *)
| Methods (testMethods : list test_method).      (* { testMethods } *)

(** [handleTool(\x22extract_actions\x22, { java_path, test_name })] over a
    file system [fs] from paths to contents.  [test_name] is [None] when the
    argument is left out; an empty string is falsy like [undefined]. *)
Definition truthy (o : option string) : bool :=
  match o with
  | None => false
  | Some s => negb (String.eqb s EmptyString)
  end.

Definition extract_actions (fs : gmap string string) (java_path : string)
    (test_name : option string) : tool_result :=
  match fs !! java_path with
  | None => Error ("File not found: " +:+ java_path)
  | Some code =>
      let result := Extract.extractActions code in
      if truthy test_name then
        Methods (filter (fun m => Some (name m) = test_name) result)
      else Methods result
  end.

(** The handler returns exactly the extracted methods named [test_name]. *)
Definition returns_named (fs : gmap string string) (java_path test_name : string) : Prop :=
  exists code ms,
    fs !! java_path = Some code
    /\ extract_actions fs java_path (Some test_name) = Methods ms
    /\ forall m, m ∈ ms <-> m ∈ Extract.extractActions code /\ name m = test_name.

End Server.

(** ** Sample inputs *)

Module Samples.
Import Js Ir.

Definition base : string := "http://localhost:8080".

(** A test method with a closing brace inside a string literal. *)
Definition brace_in_string : string :=
  "@Test void t() { String s = " +:+ DQ +:+ "}" +:+ DQ +:+ "; driver.get(u); }".

(** The body of that method, from its opening brace to the matching one. *)
Definition brace_in_string_body : string :=
  "{ String s = " +:+ DQ +:+ "}" +:+ DQ +:+ "; driver.get(u); }".

(** A test method with a closing brace inside a line comment. *)
Definition brace_in_line_comment : string :=
  "@Test void t() { // }" +:+ LF +:+ " driver.get(u); }".

(** A test method with a closing brace inside a block comment. *)
Definition brace_in_comment : string :=
  "@Test void t() { /* } */ driver.get(u); }".

(** A click that comes before a fill in the text. *)
Definition click_then_fill : string :=
  "{ driver.findElement(By.id(" +:+ DQ +:+ "a" +:+ DQ +:+ ")).click(); "
  +:+ "driver.findElement(By.id(" +:+ DQ +:+ "b" +:+ DQ +:+ ")).sendKeys("
  +:+ DQ +:+ "x" +:+ DQ +:+ "); }".

Definition single_click : test_method :=
  {| name := "t"; actions := [on_selector "click" "#go"] |}.

Definition login : test_method :=
  {| name := "login";
     actions := [navigate "{{ baseUrl }}"; fill "#user" "bob";
                 on_selector "click" "#go"; on_selector "get_text" "#msg"] |}.

(** A file system with one file, which holds one test method. *)
Definition one_file : gmap string string :=
  {[ "T.java" := "@Test void t() { }" ]}.

End Samples.

(** ** Predicates in which further properties of the plan are stated *)

Module PlanProps.
Import Js Ir Bridge.

(** The [args_template] of the step holds the placeholder, as a test. *)
Definition uses_ref (s : step) : bool :=
  match args_template s with
  | Some (TplElement _ r) => String.eqb r ref_placeholder
  | Some (TplFields fs) => existsb (fun f => String.eqb (ref f) ref_placeholder) fs
  | None => false
  end.

(** The steps after which the page may have changed. *)
Definition disturbs (s : step) : bool :=
  String.eqb (mcp_tool s) "browser_navigate"
  || String.eqb (mcp_tool s) "browser_click"
  || String.eqb (mcp_tool s) "browser_wait_for".

(** Whether the latest snapshot is still valid after the step, given
    whether it was before. *)
Definition fresh_after_step (fresh : bool) (s : step) : bool :=
  if _snapshot_marker s then true else fresh && negb (disturbs s).

(** A walk through the plan: every step that holds the placeholder comes
    at a point where a snapshot has been taken since the last navigate,
    click or wait step. *)
Fixpoint refs_resolvable (fresh : bool) (l : list step) : bool :=
  match l with
  | [] => true
  | s :: l' =>
      (if uses_ref s then fresh else true)
      && refs_resolvable (fresh_after_step fresh s) l'
  end.

(** Whether the latest snapshot is still valid at the end of the walk. *)
Fixpoint fresh_after (fresh : bool) (l : list step) : bool :=
  match l with
  | [] => fresh
  | s :: l' => fresh_after (fresh_after_step fresh s) l'
  end.

(** The types that the [switch] of [actionToSteps] has a case for. *)
Definition known_types : list string :=
  ["navigate"; "fill"; "click"; "clear"; "wait"; "assert_text"; "get_text";
   "assert_true"; "assert_false"; "count_elements"].

(** The action of a step that is flagged as skipped. *)
Definition skipped_action (s : step) : option action :=
  if skipped s then original_action s else None.

(** The URL of a navigate step. *)
Definition navigates_to (s : step) : option string :=
  match args s with
  | Some (ArgsUrl u) => Some u
  | _ => None
  end.

End PlanProps.

(** ** The script around the plan compiler *)

Module Script.
Import Ir Bridge.

(** How a run of [playwright-bridge.mjs] ends once its input is parsed:
    with an exit status, with the exception of a lowering, or with the plan
    written. *)
Inductive outcome : Type :=
| Exit (status : nat)
| Thrown
| Written (plans : list method_plan).

(** The guard [if (!Array.isArray(testMethods) || testMethods.length === 0)]
    with its [process.exit(1)], then the [test_methods] of the plan. *)
Definition bridge (baseUrl : string) (testMethods : list test_method) : outcome :=
  match testMethods with
  | [] => Exit 1
  | _ :: _ =>
      match test_methods baseUrl testMethods with
      | Some plans => Written plans
      | None => Thrown
      end
  end.

End Script.

(** ** Predicates in which further properties of the extraction are stated *)

Module ExtractProps.
Import Js Regex Ir Extract.

(** The locator expression [By.<method>(\x22v\x22)] for any method. *)
Definition locator (method v : string) : string :=
  ("By." +:+ method) +:+ "(" +:+ DQ +:+ v +:+ DQ +:+ ")".

(** Opening braces minus closing braces, every one counted. *)
Fixpoint raw_depth (s : string) : Z :=
  match s with
  | EmptyString => 0
  | String ch s' =>
      ((if Ascii.eqb ch "{"%char then 1 else 0)
       - (if Ascii.eqb ch "}"%char then 1 else 0) + raw_depth s')%Z
  end.

(** The shapes of the actions of the recognizer. *)
Definition recognizer_shape (a : action) : Prop :=
  (exists u, a = navigate u)
  \/ (exists sel v, a = fill sel v)
  \/ (exists ty sel,
        a = on_selector ty sel
        /\ ty ∈ ["clear"; "click"; "get_text"; "wait"; "count_elements"])
  \/ (exists sel exp, a = assert_text sel exp)
  \/ (exists expr, a = on_expression "assert_true" expr /\ expr <> "true")
  \/ (exists expr, a = on_expression "assert_false" expr).

End ExtractProps.

(** ** tools/validate-syntax.mjs: the whole check *)

Module Syntax.
Import Js Regex Validate.

(** [{ valid, testCount, errors, warnings }] *)
Record result : Type := Result {
  valid : bool;
  testCount : nat;
  errors : list string;
  warnings : list string }.

(** [/\bpublic\s+class\s+\w+/] without the boundary. *)
Definition classRe : re :=
  seq_of [Lit "public"; plus space; Lit "class"; plus space; plus word].

Definition matches_at (r : re) (i : nat) (s : string) : bool :=
  match mrun r i s [] (fun i' _ c => Some (i', c)) with
  | Some _ => true
  | None => false
  end.

(** [re.test(code)] for a pattern that opens with [\b] before a word
    character: the pattern is tried at every index whose previous character
    is not a word character, the start of the text included.  [prev] is the
    character before [s]. *)
Fixpoint test_after_boundary (r : re) (prev : option ascii) (i : nat) (s : string) : bool :=
  (match prev with None => true | Some a => negb (word a) end && matches_at r i s)
  || match s with
     | EmptyString => false
     | String a s' => test_after_boundary r (Some a) (S i) s'
     end.

(** The character at index [i] of [code] is not a word character, or
    there is none: the boundary of [\b] after a word character. *)
Definition boundary_at (code : string) (i : nat) : bool :=
  match slice i code with
  | EmptyString => true
  | String a _ => negb (word a)
  end.

(** [(code.match(/@Test\b/g) || []).length].  The occurrences of [@Test]
    cannot overlap, so the matches of the pattern are the occurrences of the
    literal that end at a boundary. *)
Definition countTests (code : string) : nat :=
  length (filter (fun mr => Is_true (boundary_at code (index mr + 5)))
                 (matchAll (Lit "@Test") code)).

(** [/@Test\s+\n?\s*(public\s+)?void\s+\w+\([^)]*\)\s*\{\s*\}/g] *)
Definition emptyMethodRe : re :=
  seq_of [Lit "@Test"; plus space; Opt (Lit LF); ws;
          Opt (Cap 1 (Seq (Lit "public") (plus space)));
          Lit "void"; plus space; plus word; Lit "("; star Extract.not_rparen;
          Lit ")"; ws; Lit "{"; ws; Lit "}"].

Definition when (b : bool) (msg : string) : list string := if b then [msg] else [].

(** [validateSyntax(code)]: the messages in the order in which they are
    pushed.  The dash of one warning lies outside the 8-bit range and stands
    as the bytes of its UTF-8 encoding. *)
Definition validateSyntax (code : string) : result :=
  let depth := braceDepth code in
  let testCount := countTests code in
  let emptyMethods := length (matchAll emptyMethodRe code) in
  let errors :=
    when (negb (depth =? 0)%Z)
         ("Unbalanced braces: depth=" +:+ pretty depth +:+ " at end of file")
    ++ when (negb (test_after_boundary classRe None 0 code))
            "Missing: public class declaration"
    ++ when (negb (includes code "org.junit.jupiter.api.Test"))
            "Missing import: org.junit.jupiter.api.Test"
    ++ when (testCount =? 0) "No @Test methods found"
    ++ when (negb (includes code "@BeforeEach"))
            "Missing @BeforeEach (WebDriver initialization)"
    ++ when (negb (includes code "@AfterEach"))
            "Missing @AfterEach (WebDriver teardown)"
    ++ when (negb (includes code "WebDriver"))
            "Missing: WebDriver (Selenium not used)" in
  let warnings :=
    when (negb (testCount =? 0) && (testCount <? 3))
         ("@Test count is " +:+ pretty testCount +:+ " (expected >= 3)")
    ++ when (negb (includes code "WebDriverWait"))
            "WebDriverWait not found — fixed sleep dependency suspected"
    ++ when (includes code "Thread.sleep")
            "Thread.sleep detected — use WebDriverWait instead"
    ++ when (includes code "assertTrue(true)")
            "assertTrue(true) found — possible dummy test"
    ++ when (0 <? emptyMethods)
            (pretty emptyMethods +:+ " empty @Test method(s) found") in
  {| valid := length errors =? 0;
     testCount := testCount;
     errors := errors;
     warnings := warnings |}.

(** The state outside of literals and comments, at depth [d]. *)
Definition neutral (d : Z) : scan_state :=
  {| depth := d; inString := false; inLineComment := false; inBlockComment := false |}.

Definition in_string (d : Z) : scan_state :=
  {| depth := d; inString := true; inLineComment := false; inBlockComment := false |}.

Definition in_line (d : Z) : scan_state :=
  {| depth := d; inString := false; inLineComment := true; inBlockComment := false |}.

Definition in_block (d : Z) : scan_state :=
  {| depth := d; inString := false; inLineComment := false; inBlockComment := true |}.

Definition not_lf (a : ascii) : bool := negb (Ascii.eqb a "010"%char).

(** The inside of a string literal: characters other than the double
    quote and the backslash, and pairs of a backslash and any character. *)
Inductive literal_body : string -> Prop :=
| lb_end : literal_body EmptyString
| lb_char a w :
    a <> dq_char -> a <> "092"%char -> literal_body w -> literal_body (String a w)
| lb_escape a w : literal_body w -> literal_body (String "092"%char (String a w)).

(** A text without double quote and without slash. *)
Definition plain (s : string) : Prop :=
  all_chars (fun a => negb (Ascii.eqb a dq_char) && negb (Ascii.eqb a "/"%char)) s = true.

End Syntax.

(** ** Saving the model outputs ([scripts/extract-outputs.mjs]) *)

Module Outputs.
Import Js Regex.

(** [s.replace(re, EmptyString)] for a pattern without the g flag: the
    first match is cut out. *)
Definition remove_first (r : re) (s : string) : string :=
  match match_ r s with
  | None => s
  | Some mr => take (index mr) s +:+ slice (index mr + String.length (m0 mr)) s
  end.

(** [s.replace(/[class]/g, "_")] *)
Fixpoint replace_class (p : ascii -> bool) (s : string) : string :=
  match s with
  | EmptyString => EmptyString
  | String a s' => String (if p a then "_"%char else a) (replace_class p s')
  end.

(** [s.replace(/[class]+/g, "_")]: every maximal run of the class becomes
    one underscore.  [in_run] tells that the character before [s] was in the
    class. *)
Fixpoint replace_runs (p : ascii -> bool) (in_run : bool) (s : string) : string :=
  match s with
  | EmptyString => EmptyString
  | String a s' =>
      if p a then
        if in_run then replace_runs p true s' else String "_"%char (replace_runs p true s')
      else String a (replace_runs p false s')
  end.

(** The class of the characters that no file name may hold: the angle
    brackets, the colon, the double quote, both slashes, the bar, the
    question mark and the star. *)
Definition forbidden (a : ascii) : bool :=
  existsb (Ascii.eqb a)
          ["<"; ">"; ":"; dq_char; "/"; "092"; "|"; "?"; "*"]%char.

(** [\x00-\x1f] *)
Definition control (a : ascii) : bool := nat_of_ascii a <=? 31.

Definition not_slash : ascii -> bool := not_char "/"%char.

(** [toModelDirName(providerId)] *)
Definition toModelDirName (providerId : string) : string :=
  replace_class forbidden
    (remove_first (seq_of [Bol; star dot; Lit "/"])
       (remove_first (seq_of [Lit ":"; plus not_slash; Eol])
          (remove_first (seq_of [Bol; Lit "openrouter:"]) providerId))).

(** [toSafeFilename(description)] *)
Definition toSafeFilename (description : string) : string :=
  take 100
    (replace_runs is_space false
       (replace_class (fun a => forbidden a || control a) description)).

(** The fence of a code block. *)
Definition fence : string := "```".

(** The pattern of a fenced Java block: the fence and the word java, white
    space, the block as group 1 taken lazily, white space, the fence. *)
Definition javaBlockRe : re :=
  seq_of [Lit "```java"; ws; Cap 1 (lazy_star any); ws; Lit fence].

(** What the pattern does after group 1: white space, then the fence.
    [closes i s c] runs this tail at index [i] on the rest [s] of the text. *)
Definition fence_kont : kont :=
  fun i s c => mrun (Lit fence) i s c (fun i' _ c' => Some (i', c')).

Definition closes (i : nat) (s : string) (c : caps) : option (nat * caps) :=
  rep_greedy space s i c fence_kont.

(** [l.join(sep)] *)
Fixpoint join (sep : string) (l : list string) : string :=
  match l with
  | [] => EmptyString
  | [x] => x
  | x :: l' => x +:+ sep +:+ join sep l'
  end.

Definition javaBlocks (text : string) : list string :=
  map (group 1) (matchAll javaBlockRe text).

(** [extractJavaBlocks(text)]; [None] is [null]. *)
Definition extractJavaBlocks (text : string) : option string :=
  match javaBlocks text with
  | [] => None
  | blocks => Some (join (LF +:+ LF) blocks)
  end.

(** A file name holds none of the characters that the two helpers
    replace. *)
Definition clean (s : string) : Prop := all_chars (fun a => negb (forbidden a)) s = true.

Definition safe (s : string) : Prop :=
  all_chars (fun a => negb (forbidden a) && negb (control a) && negb (is_space a)) s = true.

End Outputs.

(** ** Checking a model output ([validation/validate-output.mjs]) *)

Module CheckOutput.
Import Js Regex Syntax Outputs.

(** [hay.indexOf(needle)]; [None] is [-1]. *)
Fixpoint indexOf (hay needle : string) : option nat :=
  if startsWith hay needle then Some 0
  else match hay with
       | EmptyString => None
       | String _ hay' => S <$> indexOf hay' needle
       end.

(** [{ A, B, C }] *)
Record section_texts : Type := Sections { A : string; B : string; C : string }.

(** [extractSections(text)]; [None] is the thrown error. *)
Definition extractSections (text : string) : option section_texts :=
  match indexOf text "(A)", indexOf text "(B)" with
  | Some aIdx, Some bIdx =>
      let cIdx := indexOf text "(C)" in
      Some {| A := trim (slice2 aIdx bIdx text);
              B := match cIdx with
                   | None => trim (slice bIdx text)
                   | Some c => trim (slice2 bIdx c text)
                   end;
              C := match cIdx with
                   | None => EmptyString
                   | Some c => trim (slice c text)
                   end |}
  | _, _ => None
  end.

(** [{ code, testCount }] *)
Record java_code : Type := JavaCode { code : string; testCount : nat }.

(** [extractJavaCode(sectionB)]: the first fenced block and the number of
    its test annotations; [None] is the thrown error. *)
Definition extractJavaCode (sectionB : string) : option java_code :=
  match match_ javaBlockRe sectionB with
  | None => None
  | Some m => Some {| code := group 1 m; testCount := countTests (group 1 m) |}
  end.

(** A parsed test case; [category] and [priority] are [undefined] when
    their line is missing. *)
Record test_case : Type := TestCase {
  id : string;
  category : option string;
  priority : option string;
  preconditions : string;
  steps : list string;
  expected : string;
  evidence : string }.

(** [{ sections, java, cases }] *)
Record parsed : Type := Parsed {
  sections : section_texts;
  java : java_code;
  cases : list test_case }.

(** The four categories of the prompt.  Their names lie outside the 8-bit
    range and stand as the bytes of their UTF-8 encoding; the code compares
    them for equality and prints them, nothing else. *)
Definition categories : list string :=
  ["正常系"; "異常系"; "境界値"; "セキュリティ"].

Definition requiredSnippets : list string :=
  ["org.junit.jupiter"; "WebDriver"; "WebDriverWait"; "@BeforeEach";
   "@AfterEach"; "@Test"].

(** [cases.reduce((m, c) => { m[c.category] = (m[c.category] || 0) + 1;
    return m; }, {})]: a missing category counts under the key
    [undefined]. *)
Definition countByCat (cs : list test_case) : gmap string nat :=
  foldl (fun m c =>
           let k := tpl (category c) in
           <[k := default 0 (m !! k) + 1]> m)
        ∅ cs.

(** [countByCat[cat] || 0] *)
Definition count_of (m : gmap string nat) (cat : string) : nat := default 0 (m !! cat).

(** [ids.indexOf(v)] *)
Fixpoint list_indexOf (l : list string) (v : string) : option nat :=
  match l with
  | [] => None
  | x :: l' => if decide (x = v) then Some 0 else S <$> list_indexOf l' v
  end.

(** [ids.find((v, i) => ids.indexOf(v) !== i)], from index [i] on. *)
Fixpoint find_dup (ids : list string) (i : nat) (l : list string) : option string :=
  match l with
  | [] => None
  | v :: l' =>
      if decide (list_indexOf ids v = Some i) then find_dup ids (S i) l' else Some v
  end.

Definition first_duplicate (ids : list string) : option string := find_dup ids 0 ids.

(** [ruleChecks(parsed)]: the message of the error that is thrown, [None]
    when the function returns. *)
Definition ruleChecks (p : parsed) : option string :=
  let n := length (cases p) in
  if n <? 15 then
    Some ("Test case count too low: " +:+ pretty n +:+ " (expected >= 15)")
  else
    let counts := countByCat (cases p) in
    match List.find (fun cat => count_of counts cat <? 3) categories with
    | Some cat =>
        Some ("Category " +:+ DQ +:+ cat +:+ DQ +:+ " too few: "
              +:+ pretty (count_of counts cat) +:+ " (expected >= 3)")
    | None =>
        let ids := map id (cases p) in
        match first_duplicate ids with
        | Some (String a dup) =>
            Some ("Duplicate test case id found: " +:+ String a dup)
        | _ =>
            let missing :=
              List.filter (fun s => negb (includes (code (java p)) s)) requiredSnippets in
            match missing with
            | _ :: _ =>
                Some ("Missing required Java snippets: " +:+ join ", " missing)
            | [] =>
                if testCount (java p) <? 3 then
                  Some ("Too few @Test methods: " +:+ pretty (testCount (java p))
                        +:+ " (expected >= 3)")
                else None
            end
        end
    end.

(** The number of cases of a category. *)
Definition in_category (cat : string) (cs : list test_case) : nat :=
  length (List.filter (fun c => bool_decide (category c = Some cat)) cs).

End CheckOutput.

(** ** More sample inputs *)

Module MoreSamples.
Import Js Ir.

(** A method with an action of a type that the compiler does not know. *)
Definition with_hover : test_method :=
  {| name := "hover";
     actions := [navigate "http://localhost:8080/"; on_selector "hover" "#menu"] |}.


(** A text without a test method. *)
Definition no_method : string := "class A { }".

(** A file with one empty test method. *)
Definition one_method : string := "@Test void t() { }".

(** The provider id of the source's own example. *)
Definition provider : string := "openrouter:meta-llama/llama-4-scout:free".

(** An output with one fenced Java block. *)
Definition answer : string :=
  "Here:" +:+ LF +:+ "```java" +:+ LF +:+ "class A {}" +:+ LF +:+ "```".

(** An output with the sections in order. *)
Definition two_sections : string := "(A) cases (B) code".

Definition case_of (i : nat) (cat : string) : CheckOutput.test_case :=
  {| CheckOutput.id := "TC-1" +:+ pretty (10 + i);
     CheckOutput.category := Some cat;
     CheckOutput.priority := None;
     CheckOutput.preconditions := EmptyString;
     CheckOutput.steps := [];
     CheckOutput.expected := EmptyString;
     CheckOutput.evidence := EmptyString |}.

(** Sixteen cases, four of each category, with three tests in the code. *)
Definition good_output : CheckOutput.parsed :=
  {| CheckOutput.sections := CheckOutput.Sections EmptyString EmptyString EmptyString;
     CheckOutput.java :=
       {| CheckOutput.code :=
            "org.junit.jupiter WebDriver WebDriverWait @BeforeEach @AfterEach @Test";
          CheckOutput.testCount := 3 |};
     CheckOutput.cases :=
       imap case_of (CheckOutput.categories ++ CheckOutput.categories
                     ++ CheckOutput.categories ++ CheckOutput.categories) |}.

End MoreSamples.

(** * Facts about strings *)

#[local] Arguments String.append !s1 s2 : simpl nomatch.

Section StringFacts.
Import Js.

Lemma append_nil_r s : s +:+ "" = s.
Proof. induction s as [|a s IH]; simpl; [done | by rewrite IH]. Qed.

Lemma append_assoc a b c : (a +:+ b) +:+ c = a +:+ (b +:+ c).
Proof. induction a as [|x a IH]; simpl; [done | by rewrite IH]. Qed.

Lemma length_append a b :
  String.length (a +:+ b) = String.length a + String.length b.
Proof. induction a as [|x a IH]; simpl; [done | by rewrite IH]. Qed.

Lemma take_app w s : take (String.length w) (w +:+ s) = w.
Proof. induction w as [|x w IH]; simpl; [done | by rewrite IH]. Qed.

Lemma slice_app w s : slice (String.length w) (w +:+ s) = s.
Proof. induction w as [|x w IH]; simpl; [done | exact IH]. Qed.

Lemma take_slice n s : take n s +:+ slice n s = s.
Proof.
  revert s. induction n as [|n IH]; intros s; simpl; [done|].
  destruct s as [|a s]; simpl; [done | by rewrite IH].
Qed.

Lemma length_take n s : n <= String.length s -> String.length (take n s) = n.
Proof.
  revert s. induction n as [|n IH]; intros s; simpl; [done|].
  destruct s as [|a s]; simpl; [lia|]. intros H. rewrite IH; lia.
Qed.

Lemma startsWith_app p s : startsWith (p +:+ s) p = true.
Proof. induction p as [|a p IH]; simpl; [done|]. by rewrite Ascii.eqb_refl. Qed.

Lemma startsWith_inv s p : startsWith s p = true -> exists t, s = p +:+ t.
Proof.
  revert s. induction p as [|a p IH]; intros s; simpl; [by exists s|].
  destruct s as [|b s]; [done|].
  destruct (Ascii.eqb_spec a b) as [->|]; [|done].
  intros [t ->]%IH. by exists t.
Qed.

Lemma includes_complete hay needle : contains hay needle -> includes hay needle = true.
Proof.
  intros (pre & post & ->). induction pre as [|a pre IH]; simpl.
  - destruct needle as [|b needle]; simpl; [by destruct post|].
    by rewrite Ascii.eqb_refl, startsWith_app.
  - rewrite IH. apply orb_true_r.
Qed.

Lemma contains_middle pre v post : contains (pre +:+ v +:+ post) v.
Proof. by exists pre, post. Qed.

Lemma contains_refl v : contains v v.
Proof. exists "", "". simpl. by rewrite append_nil_r. Qed.

End StringFacts.

(** * Facts about the matcher *)

Section RegexFacts.
Import Js Regex.

Lemma lit_sound l s s' : lit l s = Some s' -> s = l +:+ s'.
Proof.
  revert s. induction l as [|a l IH]; intros s; simpl.
  - by intros [= ->].
  - destruct s as [|b s]; [done|].
    destruct (Ascii.eqb_spec a b) as [->|]; [|done].
    intros H%IH. by rewrite H.
Qed.

Lemma lit_app l s : lit l (l +:+ s) = Some s.
Proof. induction l as [|a l IH]; simpl; [done|]. by rewrite Ascii.eqb_refl. Qed.

Lemma rep_greedy_sound p s i c k res :
  rep_greedy p s i c k = Some res ->
  exists w rest, s = w +:+ rest /\ all_chars p w = true
                 /\ k (i + String.length w) rest c = Some res.
Proof.
  revert i. induction s as [|a s IH]; intros i; simpl.
  - intros H. exists "", "". by rewrite Nat.add_0_r.
  - destruct (p a) eqn:Hp.
    + destruct (rep_greedy p s (S i) c k) as [r|] eqn:E.
      * intros [= ->]. apply IH in E as (w & rest & -> & Hw & Hk).
        exists (String a w), rest. simpl. rewrite Hp, Hw.
        by rewrite Nat.add_succ_r.
      * intros H. exists "", (String a s). by rewrite Nat.add_0_r.
    + intros H. exists "", (String a s). by rewrite Nat.add_0_r.
Qed.

Lemma rep_lazy_sound p s i c k res :
  rep_lazy p s i c k = Some res ->
  exists w rest, s = w +:+ rest /\ all_chars p w = true
                 /\ k (i + String.length w) rest c = Some res.
Proof.
  revert i. induction s as [|a s IH]; intros i; simpl.
  - destruct (k i "" c) eqn:E; [|done].
    intros [= ->]. exists "", "". by rewrite Nat.add_0_r.
  - destruct (k i (String a s) c) eqn:E.
    + intros [= ->]. exists "", (String a s). by rewrite Nat.add_0_r.
    + destruct (p a) eqn:Hp; [|done].
      intros (w & rest & -> & Hw & Hk)%IH.
      exists (String a w), rest. simpl. rewrite Hp, Hw.
      by rewrite Nat.add_succ_r.
Qed.

Lemma rep_sound g p s i c k res :
  rep g p s i c k = Some res ->
  exists w rest, s = w +:+ rest /\ all_chars p w = true
                 /\ k (i + String.length w) rest c = Some res.
Proof. destruct g; [apply rep_greedy_sound | apply rep_lazy_sound]. Qed.

(** Soundness of the matcher: a successful run has taken some text [w] of
    the language of the pattern and gone on with the continuation. *)
Lemma mrun_sound r : forall i s c k res,
  mrun r i s c k = Some res ->
  exists w rest c', s = w +:+ rest /\ lang r i w rest c c'
                    /\ k (i + String.length w) rest c' = Some res.
Proof.
  induction r as [l|g pl p|r1 IH|n r1 IH|r1 IH1 r2 IH2| |]; intros i s c k res; simpl.
  - destruct (lit l s) as [s'|] eqn:E; [|done].
    apply lit_sound in E as ->. intros H. by exists l, s', c.
  - destruct pl.
    + destruct s as [|a s]; [done|]. destruct (p a) eqn:Hp; [|done].
      intros (w & rest & -> & Hw & Hk)%rep_sound.
      exists (String a w), rest, c. simpl. rewrite Hp, Hw.
      by rewrite Nat.add_succ_r.
    + intros (w & rest & -> & Hw & Hk)%rep_sound.
      exists w, rest, c. done.
  - destruct (mrun r1 i s c k) as [x|] eqn:E.
    + intros [= ->]. apply IH in E as (w & rest & c' & -> & Hl & Hk).
      exists w, rest, c'. eauto.
    + intros H. exists "", s, c. rewrite Nat.add_0_r. eauto.
  - intros (w & rest & c' & -> & Hl & Hk)%IH.
    replace (i + String.length w - i) with (String.length w) in Hk by lia.
    rewrite take_app in Hk. exists w, rest, ((n, w) :: c'). eauto.
  - intros (w1 & rest1 & c1 & -> & Hl1 & Hk1)%IH1.
    apply IH2 in Hk1 as (w2 & rest & c' & -> & Hl2 & Hk).
    exists (w1 +:+ w2), rest, c'. rewrite append_assoc, length_append, Nat.add_assoc.
    split; [done|]. split; [|done]. by exists w1, w2, c1.
  - destruct (Nat.eqb_spec i 0) as [->|]; [|done].
    intros H. by exists "", s, c.
  - destruct s; [|done]. intros H. exists "", "", c. by rewrite Nat.add_0_r.
Qed.

(** A match found by [search]: the text is [pre], then the match [m0],
    then [rest], and the match begins [length pre] after [i]. *)
Lemma search_sound r i s mr :
  search r i s = Some mr ->
  exists pre rest,
    s = pre +:+ m0 mr +:+ rest /\ index mr = i + String.length pre
    /\ lang r (index mr) (m0 mr) rest [] (groups mr).
Proof.
  revert i. induction s as [|a s IH]; intros i; simpl.
  - destruct (mrun r i "" [] _) as [[e c]|] eqn:E; [|done].
    intros [= <-]. simpl.
    apply mrun_sound in E as (w & rest & c' & Hs & Hl & [= <- <-]).
    replace (i + String.length w - i) with (String.length w) by lia.
    rewrite Hs, take_app. exists "", rest. by rewrite Nat.add_0_r.
  - destruct (mrun r i (String a s) [] _) as [[e c]|] eqn:E.
    + intros [= <-]. simpl.
      apply mrun_sound in E as (w & rest & c' & Hs & Hl & [= <- <-]).
      replace (i + String.length w - i) with (String.length w) by lia.
      rewrite Hs, take_app. exists "", rest. by rewrite Nat.add_0_r.
    + intros (pre & rest & -> & Hi & Hl)%IH.
      exists (String a pre), rest. simpl. split; [done|]. split; [lia | done].
Qed.

Lemma exec_sound r inp lastIndex mr :
  exec r inp lastIndex = Some mr ->
  exists pre rest,
    inp = pre +:+ m0 mr +:+ rest /\ index mr = String.length pre
    /\ lastIndex <= index mr <= String.length inp
    /\ lang r (index mr) (m0 mr) rest [] (groups mr).
Proof.
  unfold exec. destruct (Nat.leb_spec lastIndex (String.length inp)) as [Hle|]; [|done].
  intros (pre & rest & Hs & Hi & Hl)%search_sound.
  assert (Hinp : inp = (take lastIndex inp +:+ pre) +:+ m0 mr +:+ rest).
  { by rewrite append_assoc, <- Hs, take_slice. }
  assert (Hlen : String.length (take lastIndex inp +:+ pre) = index mr).
  { rewrite length_append, length_take by done. lia. }
  exists (take lastIndex inp +:+ pre), rest. repeat split; try done; try lia.
  rewrite Hinp, length_append, Hlen. lia.
Qed.

Lemma advance_gt mr : index mr < advance mr.
Proof. unfold advance. destruct (m0 mr); simpl; lia. Qed.

(** Enough fuel: the result of the loop does not depend on the fuel once
    it covers the rest of the text. *)
Lemma matchAll_loop_fuel r inp : forall fuel fuel' lastIndex,
  String.length inp + 2 <= fuel + lastIndex ->
  String.length inp + 2 <= fuel' + lastIndex ->
  matchAll_loop fuel r inp lastIndex = matchAll_loop fuel' r inp lastIndex.
Proof.
  assert (Hend : forall lastIndex, String.length inp < lastIndex ->
                                   exec r inp lastIndex = None).
  { intros j Hj. unfold exec. destruct (Nat.leb_spec j (String.length inp)); [lia|done]. }
  induction fuel as [|fuel IH]; intros fuel' j H1 H2; simpl.
  - destruct fuel'; simpl; [done|]. by rewrite Hend by lia.
  - destruct (exec r inp j) as [mr|] eqn:E.
    + destruct fuel'; simpl; [rewrite Hend in E by lia; done|].
      rewrite E. f_equal.
      apply exec_sound in E as (_ & _ & _ & _ & [Hj _] & _).
      pose proof (advance_gt mr). apply IH; lia.
    + destruct fuel'; simpl; [done|]. by rewrite E.
Qed.

(** The matches of [matchAll] come in the order of the text: their
    indices increase strictly. *)
Lemma matchAll_loop_increasing r inp : forall fuel lastIndex,
  Forall (fun mr => lastIndex <= index mr) (matchAll_loop fuel r inp lastIndex)
  /\ StronglySorted lt (map index (matchAll_loop fuel r inp lastIndex)).
Proof.
  induction fuel as [|fuel IH]; intros j; simpl; [by split; constructor|].
  destruct (exec r inp j) as [mr|] eqn:E; [|by split; constructor].
  apply exec_sound in E as (_ & _ & _ & _ & [Hj _] & _).
  destruct (IH (advance mr)) as [IH1 IH2]. pose proof (advance_gt mr) as Hadv.
  split.
  - constructor; [done|]. eapply Forall_impl; [exact IH1|]. simpl. lia.
  - simpl. constructor; [done|]. apply Forall_map.
    eapply Forall_impl; [exact IH1|]. simpl. lia.
Qed.

Lemma matchAll_increasing r inp : StronglySorted lt (map index (matchAll r inp)).
Proof. apply matchAll_loop_increasing. Qed.

Lemma search_hit r i s e c :
  mrun r i s [] (fun i' _ c' => Some (i', c')) = Some (e, c) ->
  search r i s = Some {| index := i; m0 := take (e - i) s; groups := c |}.
Proof. intros H. destruct s; simpl; by rewrite H. Qed.

(** A greedy repetition that meets the end of its class takes the whole
    run when the continuation accepts there. *)
Lemma rep_greedy_run p v a rest i c k res :
  all_chars p v = true -> p a = false ->
  k (i + String.length v) (String a rest) c = Some res ->
  rep_greedy p (v +:+ String a rest) i c k = Some res.
Proof.
  revert i. induction v as [|x v IH]; intros i; simpl.
  - intros _ -> H. by rewrite Nat.add_0_r in H.
  - intros [Hx Hv]%andb_prop Ha H. rewrite Hx.
    rewrite (IH (S i)); [done | done | done |].
    by rewrite Nat.add_succ_r in H.
Qed.

End RegexFacts.

(** * Properties of the plan compiler *)

Section BridgeProofs.
Import Js Ir Bridge.
Variable baseUrl : string.

Lemma Qplus_inject_Z_1 (z : Z) : (inject_Z z + 1)%Q = inject_Z (z + 1).
Proof. unfold Qplus, inject_Z; simpl. f_equal. lia. Qed.

Lemma nat_seq_succ (n : nat) : (nat_seq n + 1)%Q = nat_seq (S n).
Proof. rewrite Qplus_inject_Z_1. f_equal. lia. Qed.

Lemma dense_from_app k l1 l2 :
  dense_from k l1 -> dense_from (k + length l1) l2 -> dense_from k (l1 ++ l2).
Proof.
  unfold dense_from. intros H1 H2.
  rewrite map_app, length_app, seq_app, map_app. by rewrite H1, H2.
Qed.

Lemma ensure_snapshot_dense why k snap cur pre q snap' :
  ensure_snapshot why (nat_seq k) snap cur = (pre, q, snap') ->
  dense_from k pre /\ q = nat_seq (k + length pre).
Proof.
  unfold ensure_snapshot. case_decide; intros [= <- <- <-]; simpl.
  - split; [done | by rewrite Nat.add_0_r].
  - split; [done | rewrite nat_seq_succ; f_equal; lia].
Qed.

(** Case analysis along the [switch] of [actionToSteps]. *)
Ltac switch_on_type :=
  unfold actionToSteps;
  repeat match goal with
  | |- context [if ?b then _ else _] =>
      lazymatch b with
      | String.eqb _ _ => destruct b eqn:?
      | orb _ _ => destruct b eqn:?
      end
  end.

Lemma actionToSteps_dense a k snap cur r :
  actionToSteps baseUrl a (nat_seq k) snap cur = Some r ->
  dense_from k (steps r) /\ nextSeq r = nat_seq (k + length (steps r)).
Proof.
  switch_on_type.
  all: try (destruct (ensure_snapshot _ _ _ _) as [[pre q] snap'] eqn:E;
            apply ensure_snapshot_dense in E as [E1 ->]).
  all: try (destruct (url a); simpl; [|done]).
  all: try (destruct (selector a); simpl; [|done]).
  all: intros [= <-]; simpl.
  all: rewrite ?length_app; simpl.
  all: try (split; [apply dense_from_app; [done|] |]).
  all: unfold dense_from; simpl; rewrite ?nat_seq_succ.
  all: try split; try done; repeat f_equal; lia.
Qed.

Lemma compile_loop_dense acts st st' :
  compile_loop baseUrl acts st = Some st' ->
  dense_from 1 (steps st) -> nextSeq st = nat_seq (1 + length (steps st)) ->
  dense_from 1 (steps st') /\ nextSeq st' = nat_seq (1 + length (steps st')).
Proof.
  revert st. induction acts as [|a acts IH]; intros st; simpl.
  - by intros [= <-].
  - intros H Hd Hn. rewrite Hn in H.
    destruct (actionToSteps _ _ _ _ _) as [r|] eqn:E; simpl in H; [|done].
    apply actionToSteps_dense in E as [E1 E2].
    eapply IH; [exact H | by apply dense_from_app |]; simpl.
    rewrite E2, length_app. f_equal; lia.
Qed.

Lemma wf_navigate u : wf_action (navigate u).
Proof.
  split; [intros _; by eexists|]. simpl. intros H. exfalso.
  repeat (apply elem_of_cons in H as [H|H]; [discriminate H|]).
  by apply elem_of_nil in H.
Qed.

Lemma wf_fill sel v : wf_action (fill sel v).
Proof. split; [done | intros _; by eexists]. Qed.

Lemma wf_on_selector ty sel : ty <> "navigate" -> wf_action (on_selector ty sel).
Proof. intros H. split; [done | intros _; by eexists]. Qed.

Lemma wf_assert_text sel exp : wf_action (assert_text sel exp).
Proof. split; [done | intros _; by eexists]. Qed.

Lemma wf_on_expression ty expr :
  ty ∉ ["navigate"; "fill"; "click"; "clear"] -> wf_action (on_expression ty expr).
Proof.
  intros H. split; simpl; intros H'; exfalso; apply H.
  - rewrite H'. apply list_elem_of_here.
  - by apply list_elem_of_further.
Qed.

Lemma actionToSteps_total a q snap cur :
  wf_action a -> is_Some (actionToSteps baseUrl a q snap cur).
Proof.
  intros [Hu Hs]. switch_on_type.
  all: repeat match goal with H : String.eqb _ _ = true |- _ => apply String.eqb_eq in H end.
  all: try (destruct (ensure_snapshot _ _ _ _) as [[pre q'] snap']).
  all: try (destruct Hu as [? ->]; [done|]).
  all: try (destruct Hs as [? ->]; [set_solver|]).
  all: by simpl.
Qed.

Lemma compile_loop_total acts st :
  Forall wf_action acts -> is_Some (compile_loop baseUrl acts st).
Proof.
  intros H. revert st. induction H as [|a acts Ha _ IH]; intros st; simpl; [done|].
  destruct (actionToSteps_total a (nextSeq st) (snapshotted st) (currentUrl st) Ha) as [r ->].
  simpl. apply IH.
Qed.

Lemma seq_imap_set_seq (g : nat -> Q) (l : list step) :
  map seq (imap (fun i s => set_seq (g i) s) l) = map g (List.seq 0 (length l)).
Proof.
  revert g. induction l as [|s l IH]; intros g; simpl; [done|].
  f_equal. rewrite <- seq_shift, map_map. apply (IH (g ∘ S)).
Qed.

Lemma renumber_dense l : dense_from 1 (renumber l).
Proof.
  unfold dense_from, renumber. rewrite seq_imap_set_seq, length_imap.
  rewrite <- seq_shift, map_map. apply map_ext. intros i. apply nat_seq_succ.
Qed.

Lemma post_pass_dense acts l : dense_from 1 l -> dense_from 1 (post_pass baseUrl acts l).
Proof. unfold post_pass. intros H. case_match; [apply renumber_dense | done]. Qed.

Lemma ensure_snapshot_fresh why q (snap : gset string) cur :
  cur ∈ snap -> ensure_snapshot why q snap cur = ([], q, snap).
Proof. intros H. unfold ensure_snapshot. by rewrite decide_True. Qed.

Lemma ensure_snapshot_stale why q (snap : gset string) cur :
  cur ∉ snap ->
  ensure_snapshot why q snap cur = ([snapshot_step q why], (q + 1)%Q, {[cur]} ∪ snap).
Proof. intros H. unfold ensure_snapshot. by rewrite decide_False. Qed.

(** C3, as amended: click, fill and clear end in a primary step that
    carries the description of the selector, the placeholder for the
    reference, the action and the pending marker; get_text ends in a
    browser_snapshot step that carries the selector hint and the action, but
    no description, no placeholder and no marker.  In the four cases a
    snapshot step comes right before the primary step exactly when the
    current URL is not fresh, and the URL is then marked fresh; click takes
    the mark away again after its step. *)
Theorem element_action_lowering (a : action) (sel : string) (q : Q)
    (snap : gset string) (cur : string) :
  selector a = Some sel ->
  type a ∈ ["click"; "fill"; "clear"; "get_text"] ->
  exists pre primary,
    actionToSteps baseUrl a q snap cur
      = Some {| steps := pre ++ [primary];
                nextSeq := (seq primary + 1)%Q;
                currentUrl := cur;
                snapshotted := if String.eqb (type a) "click"
                               then ({[cur]} ∪ snap) ∖ {[cur]}
                               else {[cur]} ∪ snap |}
    /\ (cur ∈ snap -> pre = [] /\ seq primary = q)
    /\ (cur ∉ snap ->
        (exists why, pre = [snapshot_step q why]) /\ seq primary = (q + 1)%Q)
    /\ original_action primary = Some a
    /\ selector_hint primary = Some sel
    /\ (type a <> "get_text" ->
        carries_target sel primary /\ locator_status primary = Some "pending")
    /\ (type a = "get_text" ->
        mcp_tool primary = "browser_snapshot" /\ args_template primary = None
        /\ locator_status primary = None).
Proof.
  intros Hsel Hty. rewrite !elem_of_cons, elem_of_nil in Hty.
  unfold actionToSteps, carries_target.
  destruct (decide (cur ∈ snap)) as [Hin|Hin].
  - assert (Hs : {[cur]} ∪ snap = snap) by set_solver.
    destruct Hty as [E|[E|[E|[E|[]]]]]; rewrite E; simpl;
      rewrite (ensure_snapshot_fresh _ _ _ _ Hin), Hsel; simpl;
      eexists [], (Step _ _ _ _ _ _ _ _ _ _); (split; [rewrite ?Hs; reflexivity|]); simpl;
      repeat split; try done; rewrite ?Hsel; eauto.
    all: try (intros _; split; [eauto | done]).
    all: try (intros _; split; [left; done | done]).
  - destruct Hty as [E|[E|[E|[E|[]]]]]; rewrite E; simpl;
      rewrite (ensure_snapshot_stale _ _ _ _ Hin), Hsel; simpl;
      eexists [_], (Step _ _ _ _ _ _ _ _ _ _); (split; [reflexivity|]); simpl;
      repeat split; try done; rewrite ?Hsel; eauto.
    all: try (intros _; split; [eauto | done]).
    all: try (intros _; split; [left; done | done]).
Qed.

(** C4: navigate, fill, click compile to four steps, numbered 1 to 4: a
    navigate step, a snapshot step, the fill step and the click step, with
    no further snapshot; after the click the URL is not fresh any more. *)
Theorem navigate_fill_click_plan (n u selX v selY : string) :
  let acts := [navigate u; fill selX v; on_selector "click" selY] in
  exists st s1 s2 s3 s4,
    compile_loop baseUrl acts start = Some st
    /\ compile_method baseUrl {| name := n; actions := acts |}
       = Some {| mp_name := n; total_steps := 4; playwright_steps := [s1; s2; s3; s4] |}
    /\ steps st = [s1; s2; s3; s4]
    /\ map seq [s1; s2; s3; s4] = [1; 2; 3; 4]%Q
    /\ map mcp_tool [s1; s2; s3; s4]
       = ["browser_navigate"; "browser_snapshot"; "browser_fill_form"; "browser_click"]
    /\ args s1 = Some (ArgsUrl (resolved baseUrl u))
    /\ _snapshot_marker s2 = true
    /\ original_action s3 = Some (fill selX v)
    /\ original_action s4 = Some (on_selector "click" selY)
    /\ currentUrl st = resolved baseUrl u
    /\ resolved baseUrl u ∉ snapshotted st.
Proof.
  intros acts. unfold compile_method, acts. simpl.
  fold (resolved baseUrl u).
  assert (Hin : resolved baseUrl u ∈ ({[resolved baseUrl u]} ∪ (∅ : gset string))) by set_solver.
  unfold actionToSteps; simpl.
  repeat (rewrite ensure_snapshot_fresh by exact Hin; simpl).
  do 5 eexists. split; [reflexivity|]. split; [reflexivity|]. simpl.
  repeat split; try reflexivity. set_solver.
Qed.

Lemma hasNavigate_false acts : no_navigate acts -> hasNavigate acts = false.
Proof.
  induction 1 as [|a acts Ha _ IH]; simpl; [done|].
  rewrite IH, orb_false_r. by apply String.eqb_neq.
Qed.

Lemma hasNavigate_true acts : hasNavigate acts = true -> ~ no_navigate acts.
Proof. intros H Hn. apply hasNavigate_false in Hn. congruence. Qed.

(** C5: for a method with actions and no navigate action among them, the
    plan that the compiler returns opens with the synthetic navigation,
    whose argument is the base URL, and the synthetic snapshot, numbered 1
    and 2, and goes on with the steps of the actions, renumbered from 3 on;
    a method with a single click compiles to four steps, numbered 1 to 4,
    the first of which navigates to the base URL. *)
Theorem bootstrap_navigation (m : test_method) :
  actions m <> [] ->
  no_navigate (actions m) ->
  (forall p, compile_method baseUrl m = Some p ->
     exists st,
       compile_loop baseUrl (actions m) start = Some st
       /\ playwright_steps p
          = {| seq := 1; mcp_tool := "browser_navigate";
               args := Some (ArgsUrl baseUrl); args_template := None;
               note := "Auto-inserted: Navigate to base URL (no explicit navigate in Selenium code)";
               selector_hint := None; original_action := None;
               locator_status := None; _snapshot_marker := false;
               skipped := false |}
            :: {| seq := 2; mcp_tool := "browser_snapshot";
                  args := Some ArgsEmpty; args_template := None;
                  note := "Auto-inserted: Initial snapshot";
                  selector_hint := None; original_action := None;
                  locator_status := None; _snapshot_marker := true;
                  skipped := false |}
            :: imap (fun i s => set_seq (nat_seq (3 + i)) s) (steps st)
       /\ mp_name p = name m
       /\ total_steps p = 2 + length (steps st)
       /\ dense_from 1 (playwright_steps p))
  /\ (forall sel, actions m = [on_selector "click" sel] ->
      exists p, compile_method baseUrl m = Some p
        /\ total_steps p = 4
        /\ map seq (playwright_steps p) = [1; 2; 3; 4]%Q
        /\ map mcp_tool (playwright_steps p)
           = ["browser_navigate"; "browser_snapshot"; "browser_snapshot"; "browser_click"]
        /\ map args (playwright_steps p)
           = [Some (ArgsUrl baseUrl); Some ArgsEmpty; Some ArgsEmpty; None]).
Proof.
  intros Hne Hnn. split.
  - intros p Hp. unfold compile_method in Hp.
    destruct (compile_loop baseUrl (actions m) start) as [st|] eqn:Hst; [|done].
    simpl in Hp. injection Hp as <-. exists st. split; [done|]. cbn [playwright_steps mp_name total_steps].
    assert (E : post_pass baseUrl (actions m) (steps st)
                = set_seq 1 (auto_navigate baseUrl) :: set_seq 2 auto_snapshot
                  :: imap (fun i s => set_seq (nat_seq (3 + i)) s) (steps st)).
    { unfold post_pass. rewrite (hasNavigate_false _ Hnn).
      destruct (actions m); [done|]. simpl. unfold renumber. simpl.
      do 2 f_equal. apply imap_ext. intros i s _. simpl.
      by rewrite nat_seq_succ. }
    split; [by rewrite E|]. split; [done|]. split.
    + rewrite E. simpl. by rewrite length_imap.
    + apply post_pass_dense.
      eapply compile_loop_dense; [exact Hst | done | done].
  - intros sel E. unfold compile_method. rewrite E. simpl.
    unfold actionToSteps. simpl.
    rewrite ensure_snapshot_stale by set_solver. simpl.
    eexists. split; [reflexivity|]. done.
Qed.

Lemma test_methods_total (testMethods : list test_method) :
  Forall (fun m => Forall wf_action (actions m)) testMethods ->
  is_Some (test_methods baseUrl testMethods).
Proof.
  intros Hwf. unfold test_methods.
  induction Hwf as [|m ms Hm _ IH]; [done|].
  destruct IH as [ps IH].
  destruct (compile_loop_total (actions m) start Hm) as [st Hst].
  change (mapM (compile_method baseUrl) (m :: ms))
    with (y ← compile_method baseUrl m; k ← mapM (compile_method baseUrl) ms; mret (y :: k)).
  rewrite IH. unfold compile_method. rewrite Hst. done.
Qed.

(** C6: in the plan of every method the [seq] values are 1, 2, ..., n, with
    and without the bootstrap steps; the compilation goes through whenever
    every action has the properties that its lowering reads; and a method
    without actions compiles to the empty step list. *)
Theorem seq_dense_per_method (testMethods : list test_method) :
  (Forall (fun m => Forall wf_action (actions m)) testMethods ->
   is_Some (test_methods baseUrl testMethods))
  /\ (forall plans, test_methods baseUrl testMethods = Some plans ->
      Forall (fun p => map seq (playwright_steps p)
                       = map (fun i => nat_seq i) (List.seq 1 (length (playwright_steps p)))
                       /\ total_steps p = length (playwright_steps p)) plans)
  /\ (forall n, compile_method baseUrl {| name := n; actions := [] |}
                = Some {| mp_name := n; total_steps := 0; playwright_steps := [] |}).
Proof.
  split; [|split].
  - apply test_methods_total.
  - intros plans H. unfold test_methods in H. apply mapM_Some in H.
    induction H as [|m p ms ps Hp _ IH]; constructor; [|done].
    unfold compile_method in Hp.
    destruct (compile_loop _ _ _) as [st|] eqn:Hst; simpl in Hp; [|done].
    injection Hp as <-. simpl. split; [|done].
    apply post_pass_dense. eapply compile_loop_dense; [exact Hst | done | done].
  - done.
Qed.

Lemma pending_target_of_mono acts acts' s :
  acts ⊆ acts' -> pending_target_of acts s -> pending_target_of acts' s.
Proof. intros Hsub (a & sel & Ha & H). exists a, sel. split; [by apply Hsub | done]. Qed.

Lemma has_ref_placeholder_set_seq q s :
  has_ref_placeholder (set_seq q s) <-> has_ref_placeholder s.
Proof. done. Qed.

Lemma pending_target_of_set_seq acts q s :
  pending_target_of acts s -> pending_target_of acts (set_seq q s).
Proof. done. Qed.

Lemma ensure_snapshot_no_placeholder why q snap cur pre q' snap' s :
  ensure_snapshot why q snap cur = (pre, q', snap') ->
  s ∈ pre -> ~ has_ref_placeholder s.
Proof.
  unfold ensure_snapshot. case_decide; intros [= <- <- <-] Hs.
  - by apply elem_of_nil in Hs.
  - apply list_elem_of_singleton in Hs as ->. by intros [].
Qed.

Lemma actionToSteps_placeholder a q snap cur r s :
  actionToSteps baseUrl a q snap cur = Some r ->
  s ∈ steps r -> has_ref_placeholder s -> pending_target_of [a] s.
Proof.
  switch_on_type.
  all: repeat match goal with H : String.eqb _ _ = true |- _ => apply String.eqb_eq in H end.
  all: try (destruct (ensure_snapshot _ _ _ _) as [[pre q'] snap'] eqn:E).
  all: try (destruct (url a); simpl; [|done]).
  all: try (destruct (selector a) as [sel|] eqn:Hsel; simpl; [|done]).
  all: intros [= <-]; simpl; intros Hs Hp.
  all: try (apply elem_of_app in Hs as [Hs|Hs];
            [by destruct (ensure_snapshot_no_placeholder _ _ _ _ _ _ _ _ E Hs)|]).
  all: repeat (apply elem_of_cons in Hs as [->|Hs]; [try by destruct Hp|]).
  all: try by apply elem_of_nil in Hs.
  all: exists a, sel; repeat split; try done; set_solver.
Qed.

Lemma compile_loop_placeholder acts0 acts st st' :
  compile_loop baseUrl acts st = Some st' ->
  acts ⊆ acts0 ->
  (forall s, s ∈ steps st -> has_ref_placeholder s -> pending_target_of acts0 s) ->
  forall s, s ∈ steps st' -> has_ref_placeholder s -> pending_target_of acts0 s.
Proof.
  revert st. induction acts as [|a acts IH]; intros st; simpl.
  - by intros [= <-].
  - intros H Hsub Hst.
    destruct (actionToSteps _ _ _ _ _) as [r|] eqn:E; simpl in H; [|done].
    eapply IH; [exact H | set_solver |]. simpl.
    intros s [Hs|Hs]%elem_of_app Hp; [by apply Hst|].
    eapply pending_target_of_mono; [|by eapply actionToSteps_placeholder].
    set_solver.
Qed.

Lemma post_pass_placeholder acts0 acts l :
  (forall s, s ∈ l -> has_ref_placeholder s -> pending_target_of acts0 s) ->
  forall s, s ∈ post_pass baseUrl acts l -> has_ref_placeholder s -> pending_target_of acts0 s.
Proof.
  intros Hl s. unfold post_pass. case_match; [|by apply Hl].
  unfold renumber. intros (i & s' & -> & Hi)%elem_of_lookup_imap Hp.
  apply pending_target_of_set_seq.
  destruct i as [|[|i]]; simpl in Hi.
  - injection Hi as <-. by destruct Hp.
  - injection Hi as <-. by destruct Hp.
  - apply Hl; [by eapply list_elem_of_lookup_2 | done].
Qed.

(** C9: in a compiled plan, a step whose [args_template] holds the
    placeholder for the reference comes from a fill, clear or click action of
    its method, has the selector of that action as [selector_hint], and has
    [locator_status] pending. *)
Theorem placeholder_steps_pending (testMethods : list test_method)
    (plans : list method_plan) :
  test_methods baseUrl testMethods = Some plans ->
  Forall2 (fun m p =>
             forall s, s ∈ playwright_steps p -> has_ref_placeholder s ->
                       pending_target_of (actions m) s)
          testMethods plans.
Proof.
  intros H. unfold test_methods in H. apply mapM_Some in H.
  induction H as [|m p ms ps Hp _ IH]; constructor; [|done].
  unfold compile_method in Hp.
  destruct (compile_loop _ _ _) as [st|] eqn:Hst; simpl in Hp; [|done].
  injection Hp as <-. simpl.
  apply post_pass_placeholder.
  eapply compile_loop_placeholder; [exact Hst | done |].
  intros s Hs. by apply elem_of_nil in Hs.
Qed.

End BridgeProofs.

(** * Properties of the extraction *)

Section ExtractProofs.
Import Js Regex Ir Extract.

Lemma flat_map_singleton {A B} (f : A -> B) (l : list A) :
  flat_map (fun x => [f x]) l = map f l.
Proof. induction l as [|x l IH]; simpl; [done | by rewrite IH]. Qed.

Lemma map_type_constant (kind : string) (l : list action) :
  Forall (fun a => type a = kind) l -> map type l = replicate (length l) kind.
Proof. induction 1 as [|a l Ha _ IH]; simpl; [done | by rewrite Ha, IH]. Qed.

Lemma Forall_flat_map {A B} (P : B -> Prop) (f : A -> list B) (l : list A) :
  (forall x, Forall P (f x)) -> Forall P (flat_map f l).
Proof.
  intros H. induction l as [|x l IH]; simpl; [constructor|].
  apply Forall_app. split; [apply H | apply IH].
Qed.

Lemma count_dq_app a b : count_dq (a +:+ b) = count_dq a + count_dq b.
Proof. induction a as [|x a IH]; simpl; [done | rewrite IH; lia]. Qed.

Lemma quote_free_count v : quote_free v <-> count_dq v = 0.
Proof.
  unfold quote_free, not_dq, not_char.
  induction v as [|x v IH]; simpl; [done|].
  destruct (Ascii.eqb x dq_char); simpl; [split; [done | lia] | done].
Qed.

Lemma spaces_count w : all_chars space w = true -> count_dq w = 0.
Proof.
  induction w as [|x w IH]; simpl; [done|].
  intros [Hx Hw]%andb_prop. rewrite (IH Hw).
  destruct (Ascii.eqb_spec x dq_char) as [->|]; [done | done].
Qed.

(** The text before the first double quote is determined. *)
Lemma first_quote_unique a b a' b' :
  a +:+ DQ +:+ b = a' +:+ DQ +:+ b' ->
  count_dq a = 0 -> count_dq a' = 0 -> a = a' /\ b = b'.
Proof.
  revert a'. induction a as [|x a IH]; intros [|x' a']; simpl.
  - by intros [= ->].
  - intros [= <- _] _. by rewrite Ascii.eqb_refl.
  - intros [= -> _]. by rewrite Ascii.eqb_refl.
  - intros [= -> H]. destruct (Ascii.eqb x' dq_char); [done|]. simpl.
    intros Ha Ha'. by destruct (IH a' H Ha Ha') as [-> ->].
Qed.

(** A match of a locator pattern, taken apart. *)
Lemma by_re_lang n i w rest c c' :
  lang (by_re n) i w rest c c' ->
  exists ws1 ws2 cap ws3,
    w = ("By." +:+ n) +:+ ws1 +:+ "(" +:+ ws2 +:+ DQ +:+ cap +:+ DQ +:+ ws3 +:+ ")"
    /\ all_chars space ws1 = true /\ all_chars space ws2 = true
    /\ quote_free cap /\ cap <> "" /\ c' = (1, cap) :: c.
Proof.
  unfold by_re. simpl.
  intros (w1 & r1 & c1 & -> & [-> ->] & (w2 & r2 & c2 & -> & (Hw2 & _ & ->)
    & (w3 & r3 & c3 & -> & [-> ->] & (w4 & r4 & c4 & -> & (Hw4 & _ & ->)
    & (w5 & r5 & c5 & -> & [-> ->] & (w6 & r6 & c6 & -> & (c7 & (Hw6 & Hne & ->) & ->)
    & (w7 & r7 & c8 & -> & [-> ->] & (w8 & r8 & c9 & -> & (Hw8 & _ & ->) & [-> ->])))))))).
  exists w2, w4, w6, w8. repeat split; try done. by apply Hne.
Qed.

Lemma match_by_re_inv n s mr :
  match_ (by_re n) s = Some mr ->
  exists pre ws1 ws2 cap ws3 rest,
    s = pre +:+ ("By." +:+ n) +:+ ws1 +:+ "(" +:+ ws2 +:+ DQ +:+ cap +:+ DQ
        +:+ ws3 +:+ ")" +:+ rest
    /\ all_chars space ws1 = true /\ all_chars space ws2 = true
    /\ quote_free cap /\ cap <> "" /\ group 1 mr = cap.
Proof.
  intros (pre & rest & -> & _ & _ & Hl)%exec_sound.
  apply by_re_lang in Hl as (ws1 & ws2 & cap & ws3 & -> & H1 & H2 & Hq & Hne & Hg).
  exists pre, ws1, ws2, cap, ws3, rest. unfold group. rewrite Hg.
  repeat split; try done. rewrite !append_assoc. done.
Qed.

(** A locator pattern does not match an expression of another method:
    [P] stands for the text up to the first double quote. *)
Lemma by_re_other n P v :
  count_dq P = 0 -> quote_free v -> includes P ("By." +:+ n) = false ->
  match_ (by_re n) (P +:+ DQ +:+ v +:+ DQ +:+ ")") = None.
Proof.
  intros HP Hv Hinc. destruct (match_ _ _) as [mr|] eqn:E; [|done].
  apply match_by_re_inv in E
    as (pre & ws1 & ws2 & cap & ws3 & rest & Hs & H1 & H2 & Hq & _ & _).
  assert (Hc : count_dq (pre +:+ ("By." +:+ n) +:+ ws1 +:+ "(" +:+ ws2) = 0).
  { apply (f_equal count_dq) in Hs. rewrite !count_dq_app in Hs.
    rewrite !count_dq_app.
    apply quote_free_count in Hv, Hq. rewrite HP, Hv, Hq in Hs.
    change (count_dq DQ) with 1 in Hs. change (count_dq ")") with 0 in Hs. lia. }
  assert (Hs' : P +:+ DQ +:+ (v +:+ DQ +:+ ")")
                = (pre +:+ ("By." +:+ n) +:+ ws1 +:+ "(" +:+ ws2) +:+ DQ
                  +:+ (cap +:+ DQ +:+ ws3 +:+ ")" +:+ rest)).
  { rewrite Hs. by rewrite !append_assoc. }
  apply first_quote_unique in Hs' as [-> _]; [|done|done].
  rewrite includes_complete in Hinc; [done|].
  exists pre, (ws1 +:+ "(" +:+ ws2). by rewrite !append_assoc.
Qed.

(** A locator pattern matches the expression of its own method and
    captures the value. *)
Lemma by_re_match n v :
  v <> "" -> quote_free v ->
  exists mr, match_ (by_re n) (("By." +:+ n) +:+ "(" +:+ DQ +:+ v +:+ DQ +:+ ")") = Some mr
             /\ group 1 mr = v.
Proof.
  intros Hne Hq.
  assert (exists e, mrun (by_re n) 0 (("By." +:+ n) +:+ "(" +:+ DQ +:+ v +:+ DQ +:+ ")")
                      [] (fun i' _ c' => Some (i', c')) = Some (e, [(1, v)])) as [e He].
  { destruct v as [|x v]; [done|]. apply andb_prop in Hq as [Hx Hv].
    eexists. unfold by_re. simpl. rewrite lit_app. simpl. rewrite Hx.
    apply rep_greedy_run; [exact Hv | reflexivity |]. simpl.
    apply f_equal, f_equal2; [reflexivity|]. do 2 f_equal.
    match goal with |- take ?k _ = _ =>
      replace k with (S (String.length v)) by lia end.
    simpl. by rewrite take_app. }
  eexists. split.
  - unfold match_, exec. simpl Nat.leb. cbv iota. unfold slice.
    apply search_hit, He.
  - reflexivity.
Qed.

(** What the normalizer makes of the four locators. *)
Lemma byToSelector_by_expr k v :
  v <> "" -> quote_free v ->
  byToSelector (by_expr k v)
  = match k with
    | ById => "#" +:+ v
    | ByName => "[name=" +:+ DQ +:+ v +:+ DQ +:+ "]"
    | ByClassName => "." +:+ v
    | ByTagName => v
    end.
Proof.
  intros Hne Hq.
  assert (Hother : forall n P, count_dq P = 0 -> includes P ("By." +:+ n) = false ->
                               match_ (by_re n) (P +:+ DQ +:+ v +:+ DQ +:+ ")") = None).
  { intros n P HP Hi. by apply by_re_other. }
  destruct k; unfold byToSelector.
  - destruct (by_re_match "id" v Hne Hq) as (mr & E & G).
    change (match_ (by_re "id") (by_expr ById v) = Some mr) in E.
    by rewrite E, G.
  - pose proof (Hother "id" "By.name(" eq_refl eq_refl) as E1.
    change (match_ (by_re "id") (by_expr ByName v) = None) in E1.
    destruct (by_re_match "name" v Hne Hq) as (mr & E & G).
    change (match_ (by_re "name") (by_expr ByName v) = Some mr) in E.
    by rewrite E1, E, G.
  - pose proof (Hother "id" "By.className(" eq_refl eq_refl) as E1.
    pose proof (Hother "name" "By.className(" eq_refl eq_refl) as E2.
    pose proof (Hother "cssSelector" "By.className(" eq_refl eq_refl) as E3.
    pose proof (Hother "xpath" "By.className(" eq_refl eq_refl) as E4.
    change (match_ (by_re "id") (by_expr ByClassName v) = None) in E1.
    change (match_ (by_re "name") (by_expr ByClassName v) = None) in E2.
    change (match_ (by_re "cssSelector") (by_expr ByClassName v) = None) in E3.
    change (match_ (by_re "xpath") (by_expr ByClassName v) = None) in E4.
    destruct (by_re_match "className" v Hne Hq) as (mr & E & G).
    change (match_ (by_re "className") (by_expr ByClassName v) = Some mr) in E.
    by rewrite E1, E2, E3, E4, E, G.
  - pose proof (Hother "id" "By.tagName(" eq_refl eq_refl) as E1.
    pose proof (Hother "name" "By.tagName(" eq_refl eq_refl) as E2.
    pose proof (Hother "cssSelector" "By.tagName(" eq_refl eq_refl) as E3.
    pose proof (Hother "xpath" "By.tagName(" eq_refl eq_refl) as E4.
    pose proof (Hother "className" "By.tagName(" eq_refl eq_refl) as E5.
    change (match_ (by_re "id") (by_expr ByTagName v) = None) in E1.
    change (match_ (by_re "name") (by_expr ByTagName v) = None) in E2.
    change (match_ (by_re "cssSelector") (by_expr ByTagName v) = None) in E3.
    change (match_ (by_re "xpath") (by_expr ByTagName v) = None) in E4.
    change (match_ (by_re "className") (by_expr ByTagName v) = None) in E5.
    destruct (by_re_match "tagName" v Hne Hq) as (mr & E & G).
    change (match_ (by_re "tagName") (by_expr ByTagName v) = Some mr) in E.
    by rewrite E1, E2, E3, E4, E5, E, G.
Qed.

Lemma testMethodRe_nonempty code j mt :
  exec testMethodRe code j = Some mt -> 0 < String.length (m0 mt).
Proof.
  intros (pre & rest & _ & _ & _ & Hl)%exec_sound.
  unfold testMethodRe in Hl. simpl in Hl.
  destruct Hl as (w1 & w2 & c1 & Hw & [Hw1 _] & _).
  rewrite Hw, Hw1. simpl. lia.
Qed.

(** Enough fuel for the segmenter: every match of the method pattern is
    at least as long as [@Test], so [lastIndex] moves to the right. *)
Lemma split_loop_fuel code : forall fuel fuel' lastIndex,
  String.length code + 2 <= fuel + lastIndex ->
  String.length code + 2 <= fuel' + lastIndex ->
  split_loop fuel code lastIndex = split_loop fuel' code lastIndex.
Proof.
  assert (Hend : forall j, String.length code < j -> exec testMethodRe code j = None).
  { intros j Hj. unfold exec. destruct (Nat.leb_spec j (String.length code)); [lia|done]. }
  induction fuel as [|fuel IH]; intros fuel' j H1 H2; simpl.
  - destruct fuel'; simpl; [done|]. by rewrite Hend by lia.
  - destruct (exec testMethodRe code j) as [mt|] eqn:E.
    + destruct fuel'; simpl; [rewrite Hend in E by lia; done|].
      rewrite E. f_equal.
      pose proof (testMethodRe_nonempty _ _ _ E).
      apply exec_sound in E as (_ & _ & _ & _ & [Hj _] & _).
      apply IH; lia.
    + destruct fuel'; simpl; [done|]. by rewrite E.
Qed.

(** Every action of a construct has the kind of the construct. *)
Lemma recognized_kind body c :
  c ∈ constructs -> Forall (fun a => type a = c.1.1) (recognized body c).
Proof.
  intros Hc. unfold recognized. apply Forall_flat_map. intros mr.
  unfold constructs in Hc. rewrite !elem_of_cons, elem_of_nil in Hc.
  destruct Hc as [->|[->|[->|[->|[->|[->|[->|[->|[->|[->|[]]]]]]]]]]]; simpl;
    repeat constructor.
  unfold assert_true_of. case_match; repeat constructor.
Qed.

Lemma recognized_none body cs :
  Forall (fun c => matchAll c.1.2 body = []) cs -> flat_map (recognized body) cs = [].
Proof.
  induction 1 as [|c cs Hc _ IH]; simpl; [done|].
  unfold recognized at 1. by rewrite Hc, IH.
Qed.

(** C7: the recognizer emits the actions construct by construct, in the
    fixed order navigate, fill, clear, click, get_text, assert_text,
    assert_true, assert_false, wait, count_elements; the actions of one
    construct come in the order of the text, that is by increasing index of
    their match; and a body without any match gives the empty list. *)
Theorem actions_grouped_by_kind (body : string) :
  extractActionsFromBody body = flat_map (recognized body) constructs
  /\ map type (extractActionsFromBody body)
     = flat_map (fun c => replicate (length (recognized body c)) c.1.1) constructs
  /\ map (fun c => c.1.1) constructs
     = ["navigate"; "fill"; "clear"; "click"; "get_text"; "assert_text";
        "assert_true"; "assert_false"; "wait"; "count_elements"]
  /\ Forall (fun c => StronglySorted lt (map index (matchAll c.1.2 body))) constructs
  /\ (Forall (fun c => matchAll c.1.2 body = []) constructs ->
      extractActionsFromBody body = []).
Proof.
  assert (H1 : extractActionsFromBody body = flat_map (recognized body) constructs).
  { unfold extractActionsFromBody, constructs, recognized. simpl.
    by rewrite !flat_map_singleton, app_nil_r. }
  split; [done|]. split; [|split; [done|split]].
  - rewrite H1.
    assert (Hk : Forall (fun c => Forall (fun a => type a = c.1.1) (recognized body c))
                        constructs).
    { apply Forall_forall. intros c Hc. by apply recognized_kind. }
    clear H1. induction Hk as [|c cs Hc _ IH]; simpl; [done|].
    by rewrite map_app, (map_type_constant _ _ Hc), IH.
  - apply Forall_forall. intros c _. apply matchAll_increasing.
  - rewrite H1. apply recognized_none.
Qed.

End ExtractProofs.

(** * Properties of the tool handler *)

Section ServerProofs.
Import Ir Extract Server.

Lemma filter_by_name (tn : string) (l : list test_method) :
  filter (fun m => Some (name m) = Some tn) l = filter (fun m => name m = tn) l.
Proof.
  induction l as [|m l IH]; [done|].
  rewrite !filter_cons, IH.
  destruct (decide (Some (name m) = Some tn)) as [[= E]|E];
    destruct (decide (name m = tn)) as [E'|E']; try done.
  destruct E. by rewrite E'.
Qed.

Lemma filter_name_none (tn : string) (l : list test_method) :
  (forall m, m ∈ l -> name m <> tn) -> filter (fun m => name m = tn) l = [].
Proof.
  induction l as [|m l IH]; intros Hnone; [done|].
  rewrite filter_cons. destruct (decide (name m = tn)) as [Hm|Hm].
  - by destruct (Hnone m (list_elem_of_here _ _) Hm).
  - apply IH. intros m' Hm'. apply Hnone. by apply list_elem_of_further.
Qed.

(** C10, as amended: for a file that exists and a [test_name] that is not
    the empty string, the handler returns exactly the extracted methods whose
    name is [test_name], and the empty list, not an error, when there is
    none. *)
Theorem extract_actions_by_name (fs : gmap string string)
    (java_path code test_name : string) :
  fs !! java_path = Some code ->
  test_name <> "" ->
  extract_actions fs java_path (Some test_name)
    = Methods (filter (fun m => name m = test_name) (extractActions code))
  /\ (forall m, m ∈ filter (fun m => name m = test_name) (extractActions code)
                <-> m ∈ extractActions code /\ name m = test_name)
  /\ ((forall m, m ∈ extractActions code -> name m <> test_name) ->
      extract_actions fs java_path (Some test_name) = Methods []).
Proof.
  intros Hfs Hne.
  assert (E : extract_actions fs java_path (Some test_name)
              = Methods (filter (fun m => name m = test_name) (extractActions code))).
  { unfold extract_actions. rewrite Hfs. simpl.
    apply String.eqb_neq in Hne. rewrite Hne. simpl. by rewrite filter_by_name. }
  split; [done|]. split.
  - intros m. rewrite list_elem_of_filter. tauto.
  - intros Hnone. rewrite E. f_equal. by apply filter_name_none.
Qed.

End ServerProofs.

(** * The round trip of the locator normalizer *)

Section RoundTrip.
Import Js Regex Ir Extract Bridge.

Lemma nameAttrRe_match v :
  v <> "" -> quote_free v ->
  exists mr, match_ nameAttrRe ("[name=" +:+ DQ +:+ v +:+ DQ +:+ "]") = Some mr
             /\ group 1 mr = v.
Proof.
  intros Hne Hq.
  assert (exists e, mrun nameAttrRe 0 ("[name=" +:+ DQ +:+ v +:+ DQ +:+ "]")
                      [] (fun i' _ c' => Some (i', c')) = Some (e, [(1, v)])) as [e He].
  { destruct v as [|x v]; [done|]. apply andb_prop in Hq as [Hx Hv].
    eexists. unfold nameAttrRe. simpl. fold not_dq. rewrite Hx.
    apply rep_greedy_run; [exact Hv | reflexivity |]. simpl.
    apply f_equal, f_equal2; [reflexivity|]. do 2 f_equal.
    by rewrite take_app. }
  eexists. split.
  - unfold match_, exec. simpl Nat.leb. cbv iota. unfold slice.
    apply search_hit, He.
  - reflexivity.
Qed.

Lemma nameAttrRe_none v : quote_free v -> match_ nameAttrRe v = None.
Proof.
  intros Hq. destruct (match_ _ _) as [mr|] eqn:E; [|done].
  apply exec_sound in E as (pre & rest & Hs & _ & _ & Hl).
  unfold nameAttrRe in Hl. simpl in Hl.
  destruct Hl as (w1 & r1 & c1 & Hw & [-> ->] & _).
  apply quote_free_count in Hq. rewrite Hs, Hw, !count_dq_app in Hq.
  simpl in Hq. lia.
Qed.

Lemma contains_empty hay : contains hay "".
Proof. by exists "", hay. Qed.

(** C8, as amended: for an id, name or class locator whose raw value [v]
    has no double quote, and for a tag locator whose value moreover does not
    begin with [#], [.], [text=] or [xpath=], normalizing and then describing
    gives a phrase that contains [v]. *)
Theorem normalize_describe_round_trip (k : locator_kind) (v : string) :
  quote_free v ->
  (k = ByTagName -> reads_as_prefixed v = false) ->
  round_trip k v.
Proof.
  intros Hq Htag. unfold round_trip.
  destruct (decide (v = "")) as [->|Hne]; [apply contains_empty|].
  rewrite byToSelector_by_expr by done.
  destruct k.
  - by exists ("element with id=" +:+ DQ), DQ.
  - unfold selectorToDescription. simpl startsWith. cbv iota.
    destruct (nameAttrRe_match v Hne Hq) as (mr & -> & ->).
    by exists ("input with name=" +:+ DQ), DQ.
  - by exists ("element with class=" +:+ DQ), DQ.
  - specialize (Htag eq_refl). unfold reads_as_prefixed in Htag.
    apply orb_false_elim in Htag as [Htag Hx].
    apply orb_false_elim in Htag as [Htag Ht].
    apply orb_false_elim in Htag as [Hh Hd].
    unfold selectorToDescription. rewrite Hh, Hd, Ht, Hx.
    destruct (startsWith v "[name=").
    + rewrite nameAttrRe_none by done.
      by exists ("input with name=" +:+ DQ), DQ.
    + apply contains_refl.
Qed.

End RoundTrip.

(** * From extraction to compilation *)

Section Pipeline.
Import Js Regex Ir Extract Bridge.

(** Every action that the recognizer emits has the properties that its
    lowering reads. *)
Lemma recognized_wf body c : c ∈ constructs -> Forall wf_action (recognized body c).
Proof.
  intros Hc. unfold recognized. apply Forall_flat_map. intros mr.
  unfold constructs in Hc. rewrite !elem_of_cons, elem_of_nil in Hc.
  destruct Hc as [->|[->|[->|[->|[->|[->|[->|[->|[->|[->|[]]]]]]]]]]]; simpl.
  all: try (constructor; [|constructor]).
  all: try apply wf_navigate; try apply wf_fill; try apply wf_assert_text.
  all: try (by apply wf_on_selector).
  - unfold assert_true_of. case_match; constructor; [|constructor].
    apply wf_on_expression. intros Hin.
    repeat (apply elem_of_cons in Hin as [Hin|Hin]; [discriminate Hin|]).
    by apply elem_of_nil in Hin.
  - apply wf_on_expression. intros Hin.
    repeat (apply elem_of_cons in Hin as [Hin|Hin]; [discriminate Hin|]).
    by apply elem_of_nil in Hin.
Qed.

Lemma extracted_actions_wf body : Forall wf_action (extractActionsFromBody body).
Proof.
  assert (E : extractActionsFromBody body = flat_map (recognized body) constructs).
  { unfold extractActionsFromBody, constructs, recognized. simpl.
    by rewrite !flat_map_singleton, app_nil_r. }
  rewrite E. apply Forall_forall. intros a Ha.
  apply list_elem_of_In, in_flat_map in Ha as (c & Hc & Ha).
  apply list_elem_of_In in Hc, Ha.
  pose proof (recognized_wf body c Hc) as Hwf.
  rewrite Forall_forall in Hwf. by apply Hwf.
Qed.

(** The plan compiler goes through on everything that the extraction
    returns. *)
Lemma extracted_methods_compile baseUrl code :
  is_Some (test_methods baseUrl (extractActions code)).
Proof.
  apply test_methods_total. unfold extractActions.
  apply Forall_forall. intros m (mb & -> & _)%list_elem_of_fmap. simpl.
  apply extracted_actions_wf.
Qed.

End Pipeline.

(** * The brace matching of the segmenter and of the checker *)

Section BraceScan.
Import Js Regex Ir Extract Samples.

(** C1: on a method whose body has a closing brace inside a string
    literal, the segmenter ends the body at that brace: the extracted body
    stops inside the literal, and the navigation that follows the literal is
    not extracted.  For the scan of the checker, which skips literals, the
    matching brace is the last character of the whole body.  A closing brace
    inside a line comment ends the body in the same way. *)
Theorem segmenter_counts_brace_in_string :
  splitTestMethods brace_in_string = [Seg.Make "t" (take 15 brace_in_string_body)]
  /\ take 15 brace_in_string_body = "{ String s = " +:+ DQ +:+ "}"
  /\ extractActions brace_in_string = [ {| name := "t"; actions := [] |} ]
  /\ Validate.closes_at_end brace_in_string_body = true
  /\ extractActionsFromBody brace_in_string_body = [navigate "{{ u }}"]
  /\ splitTestMethods brace_in_line_comment = [Seg.Make "t" "{ // }"].
Proof. repeat split; vm_compute; reflexivity. Qed.

(** C2: on a method whose body has a closing brace inside a block
    comment, the checker skips that brace and finds the braces balanced,
    while the segmenter takes it for the end of the body; the body that the
    segmenter returns is not balanced for the checker. *)
Theorem checker_and_segmenter_diverge :
  Validate.unbalanced brace_in_comment = false
  /\ splitTestMethods brace_in_comment = [Seg.Make "t" "{ /* }"]
  /\ Validate.unbalanced "{ /* }" = true.
Proof. repeat split; vm_compute; reflexivity. Qed.

End BraceScan.

(** * Instances *)

Section Instances.
Import Js Regex Ir Extract Bridge Server Samples.

(** C3 as stated fails for get_text: its primary step has no selector
    description, no placeholder and no pending marker. *)
Lemma get_text_primary_not_pending :
  ~ lowers_to_pending_primary base (on_selector "get_text" "#msg") 1 ∅ "".
Proof.
  intros (r & pre & primary & sel & H & Hs & _ & _ & _ & Hp).
  vm_compute in H. injection H as <-. simpl in Hs.
  destruct pre as [|s1 [|s2 [|s3 pre]]]; simplify_eq/=.
Qed.

Lemma element_action_lowering_witness :
  selector (on_selector "click" "#go") = Some "#go"
  /\ type (on_selector "click" "#go") ∈ ["click"; "fill"; "clear"; "get_text"]
  /\ exists pre primary,
       actionToSteps base (on_selector "click" "#go") 1 ∅ ""
       = Some {| steps := pre ++ [primary];
                 nextSeq := (seq primary + 1)%Q;
                 currentUrl := "";
                 snapshotted := ({[""]} ∪ ∅) ∖ {[""]} |}
       /\ locator_status primary = Some "pending".
Proof.
  split; [reflexivity|]. split; [apply list_elem_of_here|].
  destruct (element_action_lowering base (on_selector "click" "#go") "#go" 1 ∅ ""
              eq_refl (list_elem_of_here _ _))
    as (pre & primary & E & _ & _ & _ & _ & Hp & _).
  exists pre, primary. split; [exact E|]. by apply Hp.
Defined.

Lemma bootstrap_navigation_witness :
  actions single_click <> []
  /\ no_navigate (actions single_click)
  /\ exists p, compile_method base single_click = Some p
       /\ total_steps p = 4
       /\ map seq (playwright_steps p) = [1; 2; 3; 4]%Q
       /\ (exists l, playwright_steps p
              = {| seq := 1; mcp_tool := "browser_navigate";
                   args := Some (ArgsUrl base); args_template := None;
                   note := "Auto-inserted: Navigate to base URL (no explicit navigate in Selenium code)";
                   selector_hint := None; original_action := None;
                   locator_status := None; _snapshot_marker := false;
                   skipped := false |} :: l).
Proof.
  assert (H1 : actions single_click <> []) by done.
  assert (H2 : no_navigate (actions single_click)) by (repeat constructor; done).
  split; [done|]. split; [done|].
  destruct (bootstrap_navigation base single_click H1 H2) as [Hall H].
  destruct (H "#go" eq_refl) as (p & Hp & Ht & Hs & _).
  destruct (Hall p Hp) as (st & _ & Hsteps & _).
  exists p. split; [done|]. split; [done|]. split; [done|]. by eexists.
Defined.

Lemma seq_dense_per_method_witness :
  Forall (fun m => Forall wf_action (actions m)) [login; single_click]
  /\ exists plans, test_methods base [login; single_click] = Some plans
       /\ Forall (fun p => map seq (playwright_steps p)
                           = map (fun i => nat_seq i)
                                 (List.seq 1 (length (playwright_steps p)))
                           /\ total_steps p = length (playwright_steps p)) plans.
Proof.
  assert (H : Forall (fun m => Forall wf_action (actions m)) [login; single_click]).
  { constructor; [|constructor; [|constructor]].
    - constructor; [apply wf_navigate|]. constructor; [apply wf_fill|].
      constructor; [by apply wf_on_selector|].
      constructor; [by apply wf_on_selector | constructor].
    - constructor; [by apply wf_on_selector | constructor]. }
  split; [done|].
  destruct (seq_dense_per_method base [login; single_click]) as (Htot & Hd & _).
  destruct (Htot H) as [plans Hp]. exists plans. split; [done | by apply Hd].
Defined.

Lemma placeholder_steps_pending_witness :
  exists plans, test_methods base [login; single_click] = Some plans
    /\ Forall2 (fun m p =>
                  forall s, s ∈ playwright_steps p -> has_ref_placeholder s ->
                            pending_target_of (actions m) s)
               [login; single_click] plans.
Proof.
  destruct (test_methods base [login; single_click]) as [plans|] eqn:E.
  - exists plans. split; [done|]. by apply (placeholder_steps_pending base).
  - vm_compute in E. discriminate E.
Defined.

(** The click comes first in the text and second in the actions. *)
Lemma actions_grouped_by_kind_witness :
  Forall (fun c => matchAll c.1.2 "{ }" = []) constructs
  /\ extractActionsFromBody "{ }" = []
  /\ extractActionsFromBody click_then_fill = flat_map (recognized click_then_fill) constructs
  /\ extractActionsFromBody click_then_fill = [fill "#b" "x"; on_selector "click" "#a"].
Proof.
  assert (H : Forall (fun c => matchAll c.1.2 "{ }" = []) constructs).
  { repeat constructor. }
  split; [done|]. split.
  - by apply (actions_grouped_by_kind "{ }").
  - split; [apply (actions_grouped_by_kind click_then_fill)|].
    vm_compute. reflexivity.
Defined.

(** C8 as stated fails for a tag locator whose value begins like an id
    selector. *)
Lemma tag_value_read_as_id : ~ round_trip ByTagName "#a".
Proof. intros H%includes_complete. vm_compute in H. discriminate H. Qed.

Lemma normalize_describe_round_trip_witness :
  quote_free "input"
  /\ (ByTagName = ByTagName -> reads_as_prefixed "input" = false)
  /\ round_trip ByTagName "input".
Proof.
  assert (H2 : quote_free "input") by reflexivity.
  assert (H3 : ByTagName = ByTagName -> reads_as_prefixed "input" = false)
    by (intros _; reflexivity).
  split; [exact H2|]. split; [exact H3|].
  exact (normalize_describe_round_trip ByTagName "input" H2 H3).
Defined.

(** C10 as stated fails for an empty [test_name]: the handler returns
    every method, and none of them is named by the empty string. *)
Lemma empty_test_name_returns_all : ~ returns_named one_file "T.java" "".
Proof.
  intros (code & ms & Hc & He & Hiff).
  vm_compute in Hc. injection Hc as <-.
  vm_compute in He. injection He as <-.
  destruct (Hiff {| name := "t"; actions := [] |}) as [H _].
  destruct H as [_ H]; [apply list_elem_of_here | discriminate H].
Qed.

Lemma extract_actions_by_name_witness :
  one_file !! "T.java" = Some "@Test void t() { }"
  /\ "t" <> ""
  /\ extract_actions one_file "T.java" (Some "t")
     = Methods (filter (fun m => name m = "t") (extractActions "@Test void t() { }")).
Proof.
  assert (H1 : one_file !! "T.java" = Some "@Test void t() { }") by reflexivity.
  assert (H2 : "t" <> "") by done.
  split; [done|]. split; [done|].
  apply (extract_actions_by_name one_file "T.java" _ "t" H1 H2).
Defined.

End Instances.

(** * Further properties of the plan compiler *)

Section PlanFacts.
Import Js Ir Bridge PlanProps.
Variable baseUrl : string.

#[local] Arguments startsWith : simpl never.

(** Case analysis along the [switch] of [actionToSteps], with the guard
    and the properties read resolved. *)
Ltac lower_cases :=
  unfold actionToSteps;
  repeat match goal with
  | |- context [if ?b then _ else _] =>
      lazymatch b with
      | String.eqb _ _ => destruct b eqn:?
      | orb _ _ => destruct b eqn:?
      end
  end;
  repeat match goal with
  | H : String.eqb _ _ = true |- _ => apply String.eqb_eq in H
  | H : String.eqb _ _ = false |- _ => apply String.eqb_neq in H
  end;
  unfold ensure_snapshot;
  try case_decide;
  try (destruct (url _) as [?u|] eqn:?; simpl; [|done]);
  try (destruct (selector _) as [?sel|] eqn:?; simpl; [|done]).

Lemma refs_resolvable_app b l1 l2 :
  refs_resolvable b (l1 ++ l2)
  = refs_resolvable b l1 && refs_resolvable (fresh_after b l1) l2.
Proof.
  revert b. induction l1 as [|s l1 IH]; intros b; simpl; [done|].
  by rewrite IH, andb_assoc.
Qed.

Lemma fresh_after_app b l1 l2 :
  fresh_after b (l1 ++ l2) = fresh_after (fresh_after b l1) l2.
Proof. revert b. induction l1 as [|s l1 IH]; intros b; simpl; [done | apply IH]. Qed.

Lemma refs_resolvable_mono l : forall b1 b2,
  (b1 = true -> b2 = true) ->
  refs_resolvable b1 l = true -> refs_resolvable b2 l = true.
Proof.
  induction l as [|s l IH]; intros b1 b2 Hb; simpl; [done|].
  intros [H1 H2]%andb_prop. apply andb_true_intro. split.
  - destruct (uses_ref s); [by apply Hb | done].
  - eapply IH; [|exact H2]. unfold fresh_after_step.
    destruct (_snapshot_marker s); [done|].
    intros [E1 E2]%andb_prop. by rewrite (Hb E1), E2.
Qed.

Lemma actionToSteps_fresh a q snap cur r b :
  actionToSteps baseUrl a q snap cur = Some r ->
  (cur ∈ snap -> b = true) ->
  refs_resolvable b (steps r) = true
  /\ (currentUrl r ∈ snapshotted r -> fresh_after b (steps r) = true).
Proof.
  lower_cases; intros [= <-] Hb; simpl.
  all: unfold fresh_after_step, uses_ref, disturbs; simpl.
  all: rewrite ?String.eqb_refl; simpl.
  all: try (rewrite Hb by done).
  all: split; try done.
  all: try (intros Hin; try rewrite Hb by done; try done; set_solver).
Qed.

Lemma compile_loop_fresh acts st st' :
  compile_loop baseUrl acts st = Some st' ->
  refs_resolvable false (steps st) = true ->
  (currentUrl st ∈ snapshotted st -> fresh_after false (steps st) = true) ->
  refs_resolvable false (steps st') = true
  /\ (currentUrl st' ∈ snapshotted st' -> fresh_after false (steps st') = true).
Proof.
  revert st. induction acts as [|a acts IH]; intros st; simpl.
  - by intros [= <-].
  - intros H H1 H2.
    destruct (actionToSteps _ _ _ _ _) as [r|] eqn:E; simpl in H; [|done].
    destruct (actionToSteps_fresh _ _ _ _ _ _ E H2) as [E1 E2].
    eapply IH; [exact H | |]; simpl.
    + by rewrite refs_resolvable_app, H1, E1.
    + rewrite fresh_after_app. exact E2.
Qed.

Lemma refs_resolvable_imap b (g : nat -> Q) l :
  refs_resolvable b (imap (fun i s => set_seq (g i) s) l) = refs_resolvable b l.
Proof.
  revert b g. induction l as [|s l IH]; intros b g; simpl; [done|].
  f_equal. apply (IH _ (g ∘ S)).
Qed.

(** X1: in the plan of a method, every step that holds the placeholder
    for a reference comes after a snapshot step with no navigate, click or
    wait step in between. *)
Theorem refs_follow_a_snapshot (m : test_method) (p : method_plan) :
  compile_method baseUrl m = Some p ->
  refs_resolvable false (playwright_steps p) = true.
Proof.
  unfold compile_method. intros H.
  destruct (compile_loop _ _ _) as [st|] eqn:Hst; simpl in H; [|done].
  injection H as <-. simpl.
  destruct (compile_loop_fresh _ _ _ Hst eq_refl) as [H1 _]; [by intros ?%elem_of_empty|].
  unfold post_pass. case_match; [|done].
  unfold renumber. rewrite refs_resolvable_imap. simpl.
  by apply (refs_resolvable_mono _ false true).
Qed.

Lemma omap_imap_set_seq {A} (f : step -> option A) (g : nat -> Q) l :
  (forall q s, f (set_seq q s) = f s) ->
  omap f (imap (fun i s => set_seq (g i) s) l) = omap f l.
Proof.
  intros Hf. revert g. induction l as [|s l IH]; intros g; simpl; [done|].
  rewrite Hf. destruct (f s); [f_equal|]; apply (IH (g ∘ S)).
Qed.

Lemma actionToSteps_original a q snap cur r :
  actionToSteps baseUrl a q snap cur = Some r ->
  omap original_action (steps r) = filter (fun a => type a <> "navigate") [a].
Proof.
  rewrite filter_cons, filter_nil.
  lower_cases; intros [= <-]; simpl.
  all: destruct (decide (type a <> "navigate")) as [Hd|Hd]; try done.
  all: by destruct Hd.
Qed.

Lemma compile_loop_original acts st st' :
  compile_loop baseUrl acts st = Some st' ->
  omap original_action (steps st')
  = omap original_action (steps st) ++ filter (fun a => type a <> "navigate") acts.
Proof.
  revert st. induction acts as [|a acts IH]; intros st; simpl.
  - intros [= <-]. by rewrite app_nil_r.
  - intros H.
    destruct (actionToSteps _ _ _ _ _) as [r|] eqn:E; simpl in H; [|done].
    rewrite (IH _ H). simpl.
    rewrite omap_app, (actionToSteps_original _ _ _ _ _ E), <- app_assoc.
    f_equal. by rewrite !filter_cons, filter_nil; destruct (decide _).
Qed.

(** X2: the steps of a plan carry, as [original_action] and in the order
    of the method, exactly the actions that are not navigate actions, each
    of them once; the plan has the name of the method. *)
Theorem plan_traces_the_actions (m : test_method) (p : method_plan) :
  compile_method baseUrl m = Some p ->
  omap original_action (playwright_steps p)
  = filter (fun a => type a <> "navigate") (actions m)
  /\ mp_name p = name m.
Proof.
  unfold compile_method. intros H.
  destruct (compile_loop _ _ _) as [st|] eqn:Hst; simpl in H; [|done].
  injection H as <-. simpl. split; [|done].
  assert (E : omap original_action (post_pass baseUrl (actions m) (steps st))
              = omap original_action (steps st)).
  { unfold post_pass. case_match; [|done].
    unfold renumber. by rewrite omap_imap_set_seq. }
  rewrite E. apply (compile_loop_original _ _ _ Hst).
Qed.

Lemma actionToSteps_skipped a q snap cur r :
  actionToSteps baseUrl a q snap cur = Some r ->
  omap skipped_action (steps r) = filter (fun a => type a ∉ known_types) [a].
Proof.
  rewrite filter_cons, filter_nil.
  lower_cases; intros [= <-]; simpl.
  all: destruct (decide (type a ∉ known_types)) as [Hd|Hd]; try done.
  all: try (exfalso; apply Hd; unfold known_types;
            match goal with H : type _ = _ |- _ => rewrite H end; set_solver).
  all: try (exfalso; apply Hd; unfold known_types;
            match goal with H : _ || _ = true |- _ =>
              apply orb_prop in H as [H|H]; apply String.eqb_eq in H; rewrite H
            end; set_solver).
  exfalso. apply Hd. unfold known_types.
  match goal with H : _ || _ = false |- _ =>
    apply orb_false_elim in H as [H1 H2];
    apply String.eqb_neq in H1, H2 end.
  set_solver.
Qed.

Lemma compile_loop_skipped acts st st' :
  compile_loop baseUrl acts st = Some st' ->
  omap skipped_action (steps st')
  = omap skipped_action (steps st) ++ filter (fun a => type a ∉ known_types) acts.
Proof.
  revert st. induction acts as [|a acts IH]; intros st; simpl.
  - intros [= <-]. by rewrite app_nil_r.
  - intros H.
    destruct (actionToSteps _ _ _ _ _) as [r|] eqn:E; simpl in H; [|done].
    rewrite (IH _ H). simpl.
    rewrite omap_app, (actionToSteps_skipped _ _ _ _ _ E), <- app_assoc.
    f_equal. by rewrite !filter_cons, filter_nil; destruct (decide _).
Qed.

(** X3: the steps flagged as skipped are, in order and each once with its
    action, the actions whose type the compiler has no case for; the actions
    of the ten known types give no skipped step. *)
Theorem skipped_steps_are_unknown_actions (m : test_method) (p : method_plan) :
  compile_method baseUrl m = Some p ->
  omap skipped_action (playwright_steps p)
  = filter (fun a => type a ∉ known_types) (actions m).
Proof.
  unfold compile_method. intros H.
  destruct (compile_loop _ _ _) as [st|] eqn:Hst; simpl in H; [|done].
  injection H as <-. simpl.
  assert (E : omap skipped_action (post_pass baseUrl (actions m) (steps st))
              = omap skipped_action (steps st)).
  { unfold post_pass. case_match; [|done].
    unfold renumber. by rewrite omap_imap_set_seq. }
  rewrite E. apply (compile_loop_skipped _ _ _ Hst).
Qed.

Lemma compile_loop_extends acts st st' :
  compile_loop baseUrl acts st = Some st' -> exists l, steps st' = steps st ++ l.
Proof.
  revert st. induction acts as [|a acts IH]; intros st; simpl.
  - intros [= <-]. exists []. by rewrite app_nil_r.
  - intros H.
    destruct (actionToSteps _ _ _ _ _) as [r|] eqn:E; simpl in H; [|done].
    apply IH in H as [l Hl]. simpl in Hl. exists (steps r ++ l).
    by rewrite Hl, app_assoc.
Qed.

Lemma actionToSteps_head a q snap cur r :
  actionToSteps baseUrl a q snap cur = Some r ->
  exists s l, steps r = s :: l
              /\ (mcp_tool s = "browser_navigate" <-> type a = "navigate").
Proof.
  lower_cases; intros [= <-]; simpl; eexists _, _; (split; [reflexivity|]); simpl.
  all: split; intros E; try done; try congruence.
Qed.

(** X4: the plan of a method with actions opens with a navigate step
    exactly when the first action is a navigate action or no action is: when
    the first navigate action comes later, the steps before it are compiled
    with the empty string as the current URL and no navigation is put in
    front of them. *)
Theorem plan_opens_with_navigation (m : test_method) (p : method_plan)
    (a : action) (rest : list action) :
  compile_method baseUrl m = Some p ->
  actions m = a :: rest ->
  exists s l,
    playwright_steps p = s :: l
    /\ (mcp_tool s = "browser_navigate"
        <-> type a = "navigate" \/ no_navigate (actions m)).
Proof.
  unfold compile_method. intros H Ha.
  destruct (compile_loop _ _ _) as [st|] eqn:Hst; simpl in H; [|done].
  injection H as <-. simpl. unfold post_pass.
  destruct (hasNavigate (actions m)) eqn:Hn; simpl.
  - apply hasNavigate_true in Hn. rewrite Ha in Hst. simpl in Hst.
    destruct (actionToSteps _ _ _ _ _) as [r|] eqn:E; simpl in Hst; [|done].
    apply actionToSteps_head in E as (s & l & Hr & Hs).
    apply compile_loop_extends in Hst as [l' Hl]. simpl in Hl.
    exists s, (l ++ l'). rewrite Hl, Hr. split; [done|].
    rewrite Hs. tauto.
  - assert (Hnn : no_navigate (actions m)).
    { clear -Hn. induction (actions m) as [|x xs IH]; [constructor|].
      simpl in Hn. apply orb_false_elim in Hn as [H1 H2].
      constructor; [by apply String.eqb_neq | by apply IH]. }
    rewrite Ha in *. simpl. eexists _, _. split; [reflexivity|]. simpl.
    split; [intros _; by right | done].
Qed.

Lemma actionToSteps_length a q snap cur r :
  actionToSteps baseUrl a q snap cur = Some r ->
  1 <= length (steps r) <= 2.
Proof. lower_cases; intros [= <-]; simpl; lia. Qed.

Lemma compile_loop_length acts st st' :
  compile_loop baseUrl acts st = Some st' ->
  length (steps st) + length acts <= length (steps st')
  <= length (steps st) + 2 * length acts.
Proof.
  revert st. induction acts as [|a acts IH]; intros st; simpl.
  - intros [= <-]. lia.
  - intros H.
    destruct (actionToSteps _ _ _ _ _) as [r|] eqn:E; simpl in H; [|done].
    apply actionToSteps_length in E. apply IH in H. simpl in H.
    rewrite length_app in H. lia.
Qed.

(** X5: a plan has at least one step per action and at most two, and at
    most two more for the bootstrap; it is empty exactly when the method has
    no action. *)
Theorem plan_size (m : test_method) (p : method_plan) :
  compile_method baseUrl m = Some p ->
  length (actions m) <= total_steps p <= 2 * length (actions m) + 2
  /\ (total_steps p = 0 <-> actions m = []).
Proof.
  unfold compile_method. intros H.
  destruct (compile_loop _ _ _) as [st|] eqn:Hst; simpl in H; [|done].
  injection H as <-. simpl.
  apply compile_loop_length in Hst. simpl in Hst.
  assert (Hp : length (post_pass baseUrl (actions m) (steps st)) = length (steps st)
               \/ (length (post_pass baseUrl (actions m) (steps st))
                   = 2 + length (steps st))).
  { unfold post_pass. case_match; [right|by left].
    unfold renumber. by rewrite length_imap. }
  split; [lia|]. split.
  - intros H0. destruct (actions m); [done|]. simpl in Hst. lia.
  - intros E. rewrite E in *. unfold post_pass. simpl in *. lia.
Qed.

Lemma actionToSteps_urls a q snap cur r s u :
  actionToSteps baseUrl a q snap cur = Some r ->
  s ∈ steps r -> navigates_to s = Some u ->
  u = baseUrl
  \/ (type a = "navigate" /\ url a = Some u /\ startsWith u "{{" = false).
Proof.
  lower_cases; intros [= <-]; simpl; intros Hs Hu.
  all: set_unfold in Hs; destruct_or!; subst; simpl in Hu; try done.
  injection Hu as <-. destruct (startsWith u0 "{{") eqn:E; [by left | by right].
Qed.

Lemma compile_loop_urls acts st st' s u :
  compile_loop baseUrl acts st = Some st' ->
  s ∈ steps st' -> navigates_to s = Some u ->
  s ∈ steps st
  \/ u = baseUrl
  \/ exists a, a ∈ acts /\ type a = "navigate" /\ url a = Some u
               /\ startsWith u "{{" = false.
Proof.
  revert st. induction acts as [|a acts IH]; intros st; simpl.
  - intros [= <-] Hs _. by left.
  - intros H Hs Hu.
    destruct (actionToSteps _ _ _ _ _) as [r|] eqn:E; simpl in H; [|done].
    destruct (IH _ H Hs Hu) as [Hin|[->|(b & Hb & Hb')]]; simpl in *.
    + apply elem_of_app in Hin as [Hin|Hin]; [by left|]. right.
      destruct (actionToSteps_urls _ _ _ _ _ _ _ E Hin Hu) as [->|Ha]; [by left|].
      right. exists a. split; [apply list_elem_of_here | done].
    + right. by left.
    + right. right. exists b. split; [by apply list_elem_of_further | done].
Qed.

(** X6: a plan never navigates to a deferred placeholder: the URL of
    every navigate step is the base URL, or the URL of a navigate action of
    the method that does not begin with two opening braces. *)
Theorem navigation_targets_are_resolved (m : test_method) (p : method_plan)
    (s : step) (u : string) :
  compile_method baseUrl m = Some p ->
  s ∈ playwright_steps p ->
  navigates_to s = Some u ->
  u = baseUrl
  \/ exists a, a ∈ actions m /\ type a = "navigate" /\ url a = Some u
               /\ startsWith u "{{" = false.
Proof.
  unfold compile_method. intros H Hs Hu.
  destruct (compile_loop _ _ _) as [st|] eqn:Hst; simpl in H; [|done].
  injection H as <-. simpl in Hs.
  assert (Hin : u = baseUrl \/ exists s', s' ∈ steps st /\ navigates_to s' = Some u).
  { unfold post_pass in Hs. case_match; [|right; by exists s].
    unfold renumber in Hs. apply elem_of_lookup_imap in Hs as (i & s' & -> & Hi).
    destruct i as [|[|i]]; simpl in Hi.
    - injection Hi as <-. injection Hu as <-. by left.
    - by injection Hi as <-.
    - right. exists s'. split; [by eapply list_elem_of_lookup_2 | done]. }
  destruct Hin as [->|(s' & Hs' & Hu')]; [by left|].
  destruct (compile_loop_urls _ _ _ _ _ Hst Hs' Hu') as [Hn|[->|Ha]].
  - by apply elem_of_nil in Hn.
  - by left.
  - by right.
Qed.

Lemma actionToSteps_not_skipped a q snap cur r :
  actionToSteps baseUrl a q snap cur = Some r ->
  type a ∈ known_types -> Forall (fun s => skipped s = false) (steps r).
Proof.
  lower_cases; intros [= <-] Hk; simpl; repeat constructor.
  exfalso. unfold known_types in Hk.
  match goal with H : _ || _ = false |- _ =>
    apply orb_false_elim in H as [H1 H2];
    apply String.eqb_neq in H1, H2 end.
  set_solver.
Qed.

Lemma compile_loop_not_skipped acts st st' :
  compile_loop baseUrl acts st = Some st' ->
  Forall (fun a => type a ∈ known_types) acts ->
  Forall (fun s => skipped s = false) (steps st) ->
  Forall (fun s => skipped s = false) (steps st').
Proof.
  intros H Hk. revert st H. induction Hk as [|a acts Ha _ IH]; intros st; simpl.
  - by intros [= <-].
  - intros H Hst.
    destruct (actionToSteps _ _ _ _ _) as [r|] eqn:E; simpl in H; [|done].
    apply (IH _ H). simpl. apply Forall_app. split; [done|].
    by eapply actionToSteps_not_skipped.
Qed.

Lemma compile_method_not_skipped m p :
  compile_method baseUrl m = Some p ->
  Forall (fun a => type a ∈ known_types) (actions m) ->
  Forall (fun s => skipped s = false) (playwright_steps p) /\ mp_name p = name m.
Proof.
  unfold compile_method. intros H Hk.
  destruct (compile_loop _ _ _) as [st|] eqn:Hst; simpl in H; [|done].
  injection H as <-. simpl. split; [|done].
  pose proof (compile_loop_not_skipped _ _ _ Hst Hk (Forall_nil_2 _)) as Hs.
  unfold post_pass. case_match; [|done].
  unfold renumber. apply Forall_forall.
  intros s (i & s' & -> & Hi)%elem_of_lookup_imap.
  destruct i as [|[|i]]; simpl in Hi.
  - by injection Hi as <-.
  - by injection Hi as <-.
  - exact (Forall_lookup_1 _ _ _ _ Hs Hi).
Qed.

End PlanFacts.

(** * Further properties of the extraction *)

Section ExtractFacts.
Import Js Regex Ir Extract ExtractProps.

Lemma includes_sound hay needle : includes hay needle = true -> contains hay needle.
Proof.
  induction hay as [|a hay IH]; simpl.
  - rewrite orb_false_r. intros [t ->]%startsWith_inv. by exists "", t.
  - intros [H|H]%orb_prop.
    + apply startsWith_inv in H as [t ->]. by exists "", t.
    + destruct (IH H) as (pre & post & ->). by exists (String a pre), post.
Qed.

Lemma by_re_needs_quotes n s mr :
  match_ (by_re n) s = Some mr -> 2 <= count_dq s.
Proof.
  intros (pre & ws1 & ws2 & cap & ws3 & rest & -> & _)%match_by_re_inv.
  rewrite !count_dq_app. change (count_dq DQ) with 1.
  change (count_dq "By.") with 0. change (count_dq "(") with 0.
  change (count_dq ")") with 0. lia.
Qed.

Lemma by_re_few_quotes n s : count_dq s < 2 -> match_ (by_re n) s = None.
Proof.
  intros H. destruct (match_ _ _) as [mr|] eqn:E; [|done].
  apply by_re_needs_quotes in E. lia.
Qed.

Lemma by_re_empty_literal n m :
  count_dq m = 0 -> match_ (by_re n) (locator m "") = None.
Proof.
  intros Hm. destruct (match_ _ _) as [mr|] eqn:E; [|done].
  apply match_by_re_inv in E
    as (pre & ws1 & ws2 & cap & ws3 & rest & Hs & H1 & H2 & Hq & Hne & _).
  assert (Hc : count_dq (pre +:+ ("By." +:+ n) +:+ ws1 +:+ "(" +:+ ws2) = 0).
  { apply (f_equal count_dq) in Hs. unfold locator in Hs.
    rewrite !count_dq_app in Hs. rewrite !count_dq_app.
    apply quote_free_count in Hq. rewrite Hm, Hq in Hs.
    change (count_dq DQ) with 1 in Hs. change (count_dq ")") with 0 in Hs.
    change (count_dq "") with 0 in Hs. change (count_dq "(") with 0 in Hs.
    change (count_dq "By.") with 0 in Hs.
    change (count_dq "(") with 0. change (count_dq "By.") with 0. lia. }
  assert (Hs' : (("By." +:+ m) +:+ "(") +:+ DQ +:+ (DQ +:+ ")")
                = (pre +:+ ("By." +:+ n) +:+ ws1 +:+ "(" +:+ ws2) +:+ DQ
                  +:+ (cap +:+ DQ +:+ ws3 +:+ ")" +:+ rest)).
  { transitivity (locator m "").
    - unfold locator. by rewrite !append_assoc.
    - rewrite Hs. by rewrite !append_assoc. }
  apply first_quote_unique in Hs' as [_ Hb]; [| |done].
  - destruct cap as [|x cap]; [done|]. simpl in Hb. injection Hb as <- _.
    unfold quote_free in Hq. simpl in Hq. done.
  - rewrite !count_dq_app, Hm. done.
Qed.

Lemma by_re_other_locator n m v :
  count_dq m = 0 -> quote_free v ->
  includes (("By." +:+ m) +:+ "(") ("By." +:+ n) = false ->
  match_ (by_re n) (locator m v) = None.
Proof.
  intros Hm Hq Hi.
  replace (locator m v) with ((("By." +:+ m) +:+ "(") +:+ DQ +:+ v +:+ DQ +:+ ")")
    by (unfold locator; by rewrite !append_assoc).
  apply by_re_other; [|done|done].
  rewrite !count_dq_app, Hm. done.
Qed.

Lemma by_re_own_locator n v :
  v <> "" -> quote_free v ->
  exists mr, match_ (by_re n) (locator n v) = Some mr /\ group 1 mr = v.
Proof. apply by_re_match. Qed.

Lemma byToSelector_locator (v : string) :
  v <> "" ->
  quote_free v ->
  byToSelector (locator "id" v) = "#" +:+ v
  /\ byToSelector (locator "name" v) = "[name=" +:+ DQ +:+ v +:+ DQ +:+ "]"
  /\ byToSelector (locator "cssSelector" v) = v
  /\ byToSelector (locator "xpath" v) = "xpath=" +:+ v
  /\ byToSelector (locator "className" v) = "." +:+ v
  /\ byToSelector (locator "tagName" v) = v
  /\ byToSelector (locator "linkText" v) = "text=" +:+ DQ +:+ v +:+ DQ.
Proof.
  intros Hne Hq.
  assert (Ho : forall n m, includes (("By." +:+ m) +:+ "(") ("By." +:+ n) = false ->
                           count_dq m = 0 -> match_ (by_re n) (locator m v) = None).
  { intros n m Hi Hm. by apply by_re_other_locator. }
  repeat split; unfold byToSelector.
  - destruct (by_re_own_locator "id" v Hne Hq) as (mr & -> & ->). done.
  - rewrite (Ho "id" "name") by done.
    destruct (by_re_own_locator "name" v Hne Hq) as (mr & -> & ->). done.
  - rewrite (Ho "id" "cssSelector"), (Ho "name" "cssSelector") by done.
    destruct (by_re_own_locator "cssSelector" v Hne Hq) as (mr & -> & ->). done.
  - rewrite (Ho "id" "xpath"), (Ho "name" "xpath"), (Ho "cssSelector" "xpath") by done.
    destruct (by_re_own_locator "xpath" v Hne Hq) as (mr & -> & ->). done.
  - rewrite (Ho "id" "className"), (Ho "name" "className"),
      (Ho "cssSelector" "className"), (Ho "xpath" "className") by done.
    destruct (by_re_own_locator "className" v Hne Hq) as (mr & -> & ->). done.
  - rewrite (Ho "id" "tagName"), (Ho "name" "tagName"), (Ho "cssSelector" "tagName"),
      (Ho "xpath" "tagName"), (Ho "className" "tagName") by done.
    destruct (by_re_own_locator "tagName" v Hne Hq) as (mr & -> & ->). done.
  - rewrite (Ho "id" "linkText"), (Ho "name" "linkText"), (Ho "cssSelector" "linkText"),
      (Ho "xpath" "linkText"), (Ho "className" "linkText"),
      (Ho "tagName" "linkText") by done.
    destruct (by_re_own_locator "linkText" v Hne Hq) as (mr & -> & ->). done.
Qed.

(** X7: the normalization table: for a value that is not empty and has no
    double quote, each of the seven locator methods gives its canonical
    selector. *)
Theorem normalizer_table (v : string) :
  v <> "" ->
  quote_free v ->
  byToSelector (locator "id" v) = "#" +:+ v
  /\ byToSelector (locator "name" v) = "[name=" +:+ DQ +:+ v +:+ DQ +:+ "]"
  /\ byToSelector (locator "cssSelector" v) = v
  /\ byToSelector (locator "xpath" v) = "xpath=" +:+ v
  /\ byToSelector (locator "className" v) = "." +:+ v
  /\ byToSelector (locator "tagName" v) = v
  /\ byToSelector (locator "linkText" v) = "text=" +:+ DQ +:+ v +:+ DQ.
Proof. apply byToSelector_locator. Qed.

(** X8: what the normalizer does not recognize it returns unchanged: an
    expression with fewer than two double quotes, such as a locator on a
    variable, and a locator whose literal is empty. *)
Theorem normalizer_fallback (byExpr : string) :
  (count_dq byExpr < 2 -> byToSelector byExpr = byExpr)
  /\ (forall m, byExpr = locator m "" -> count_dq m = 0 ->
                byToSelector byExpr = byExpr).
Proof.
  split.
  - intros H. unfold byToSelector. by rewrite !by_re_few_quotes.
  - intros m -> Hm. unfold byToSelector. by rewrite !by_re_empty_literal.
Qed.


Lemma matchBrace_closed rest d i : (d <= 0)%Z -> matchBrace rest d i = i.
Proof.
  intros Hd. destruct rest as [|ch rest]; simpl; [done|].
  destruct (Z.ltb_spec 0 d); [lia | done].
Qed.

(** The inner loop of the segmenter stops at the first point where the
    count of all braces is back at zero, or at the end of the text. *)
Lemma matchBrace_spec rest : forall d i,
  (0 < d)%Z ->
  exists k,
    matchBrace rest d i = i + k /\ k <= String.length rest
    /\ ((d + raw_depth (take k rest) = 0)%Z \/ k = String.length rest)
    /\ forall j, j < k -> (0 < d + raw_depth (take j rest))%Z.
Proof.
  induction rest as [|ch rest IH]; intros d i Hd.
  - exists 0. simpl. split; [lia|]. split; [lia|]. split; [by right | lia].
  - simpl. destruct (Z.ltb_spec 0 d); [|lia].
    set (d1 := if Ascii.eqb ch "{"%char then (d + 1)%Z else d).
    set (d2 := if Ascii.eqb ch "}"%char then (d1 - 1)%Z else d1).
    assert (Hd2 : (d2 = d + ((if Ascii.eqb ch "{"%char then 1 else 0)
                             - (if Ascii.eqb ch "}"%char then 1 else 0)))%Z).
    { unfold d2, d1. destruct (Ascii.eqb ch "{"), (Ascii.eqb ch "}"); lia. }
    assert (Hge : (0 <= d2)%Z).
    { rewrite Hd2. destruct (Ascii.eqb ch "{"), (Ascii.eqb ch "}"); lia. }
    destruct (decide (d2 = 0%Z)) as [Hz|Hnz].
    + exists 1. rewrite matchBrace_closed by lia. simpl.
      split; [lia|]. split; [lia|]. split; [left; lia|].
      intros j Hj. replace j with 0 by lia. simpl. lia.
    + destruct (IH d2 (S i)) as (k & Hk & Hle & Hend & Hpos); [lia|].
      exists (S k). rewrite Hk. simpl.
      split; [lia|]. split; [lia|]. split.
      * destruct Hend as [He| ->]; [left; lia | by right].
      * intros [|j] Hj; simpl; [lia|].
        specialize (Hpos j). lia.
Qed.

(** A match of the method pattern, taken apart: the text up to the
    opening brace, and the method name. *)
Lemma testMethodRe_lang i w rest c c' :
  lang testMethodRe i w rest c c' ->
  exists front name,
    w = front +:+ "{" /\ startsWith front "@Test" = true
    /\ name <> "" /\ all_chars word name = true /\ c' = (1, name) :: c.
Proof.
  unfold testMethodRe. simpl.
  intros (w1 & r1 & c1 & -> & [-> ->] & (w2 & r2 & c2 & -> & (_ & _ & ->)
    & (w3 & r3 & c3 & -> & Hopt & (w4 & r4 & c4 & -> & [-> ->]
    & (w5 & r5 & c5 & -> & (_ & _ & ->) & (w6 & r6 & c6 & -> & (c7 & (Hw6 & Hne & ->) & ->)
    & (w7 & r7 & c8 & -> & (_ & _ & ->) & (w8 & r8 & c9 & -> & [-> ->]
    & (w9 & r9 & c10 & -> & (_ & _ & ->) & (w10 & r10 & c11 & -> & [-> ->]
    & (w11 & r11 & c12 & -> & (_ & _ & ->) & [-> ->]))))))))))).
  assert (Hc3 : c3 = c).
  { destruct Hopt as [[_ ->]|(x1 & x2 & y & _ & [_ ->] & (_ & _ & ->))]; done. }
  subst c3.
  exists ("@Test" +:+ w2 +:+ w3 +:+ "void" +:+ w5 +:+ w6 +:+ w7 +:+ "(" +:+ w9
          +:+ ")" +:+ w11), w6.
  split; [by rewrite !append_assoc|]. split; [reflexivity|].
  split; [by apply Hne|]. done.
Qed.

Lemma take_all s : take (String.length s) s = s.
Proof. induction s as [|a s IH]; simpl; [done | by rewrite IH]. Qed.

Lemma take_take n k s : n <= k -> take n (take k s) = take n s.
Proof.
  revert k s. induction n as [|n IH]; intros k s Hk; simpl; [done|].
  destruct k as [|k]; [lia|]. destruct s as [|a s]; simpl; [done|].
  rewrite IH; [done | lia].
Qed.

(** Every segment of the segmenter, located in the text. *)
Lemma split_loop_segments code : forall fuel lastIndex seg,
  seg ∈ split_loop fuel code lastIndex ->
  exists pre rest k,
    code = pre +:+ "{" +:+ rest
    /\ includes pre "@Test" = true
    /\ k <= String.length rest
    /\ Seg.body seg = "{" +:+ take k rest
    /\ Seg.name seg <> "" /\ all_chars word (Seg.name seg) = true
    /\ ((1 + raw_depth (take k rest) = 0)%Z \/ k = String.length rest)
    /\ forall j, j < k -> (0 < 1 + raw_depth (take j rest))%Z.
Proof.
  induction fuel as [|fuel IH]; intros j seg; simpl; [by intros ?%elem_of_nil|].
  destruct (exec testMethodRe code j) as [mt|] eqn:E; [|by intros ?%elem_of_nil].
  intros [->|Hin]%elem_of_cons; [|by eapply IH].
  apply exec_sound in E as (pre0 & rest & Hcode & Hidx & _ & Hl).
  apply testMethodRe_lang in Hl as (front & name & Hm0 & Hfront & Hne & Hw & Hg).
  assert (Hsb : index mt + String.length (m0 mt) - 1 = String.length (pre0 +:+ front)).
  { rewrite Hm0, Hidx, !length_append. simpl. lia. }
  assert (Hcode' : code = (pre0 +:+ front) +:+ "{" +:+ rest).
  { rewrite Hcode, Hm0. by rewrite !append_assoc. }
  rewrite Hsb.
  destruct (matchBrace_spec rest 1 (String.length (pre0 +:+ front) + 1))
    as (k & Hk & Hle & Hend & Hpos); [lia|].
  exists (pre0 +:+ front), rest, k. simpl.
  split; [done|]. split.
  { apply includes_complete. apply startsWith_inv in Hfront as [t ->].
    by exists pre0, t. }
  split; [done|]. split.
  { replace (slice (String.length (pre0 +:+ front) + 1) code) with rest.
    - rewrite Hk. unfold slice2.
      replace (String.length (pre0 +:+ front) + 1 + k - String.length (pre0 +:+ front))
        with (S k) by lia.
      rewrite Hcode' at 1. by rewrite slice_app.
    - rewrite Hcode'. rewrite <- append_assoc.
      replace (String.length (pre0 +:+ front) + 1)
        with (String.length ((pre0 +:+ front) +:+ "{"))
        by (rewrite length_append; simpl; lia).
      by rewrite slice_app. }
  unfold group. rewrite Hg. simpl. done.
Qed.

(** X9: every segment that the segmenter returns lies in the text, after
    an occurrence of the annotation: its body begins at an opening brace of
    the text, and its name is a non-empty run of word characters. *)
Theorem segments_lie_in_the_text (code : string) (seg : Seg.t) :
  seg ∈ splitTestMethods code ->
  exists pre post,
    code = pre +:+ Seg.body seg +:+ post
    /\ includes pre "@Test" = true
    /\ startsWith (Seg.body seg) "{" = true
    /\ Seg.name seg <> "" /\ all_chars word (Seg.name seg) = true.
Proof.
  intros (pre & rest & k & Hcode & Hpre & _ & Hb & Hn & Hw & _)%split_loop_segments.
  exists pre, (slice k rest). rewrite Hb. repeat split; try done.
  rewrite append_assoc. simpl. by rewrite take_slice.
Qed.

(** X10: the body of a segment ends at the first point where the count of
    all braces, each one taken as it stands, is back at zero; when there is
    no such point the body runs to the end of the text and the scan stops
    there. *)
Theorem segment_ends_at_raw_balance (code : string) (seg : Seg.t) :
  seg ∈ splitTestMethods code ->
  (forall n, 0 < n < String.length (Seg.body seg) ->
             (0 < raw_depth (take n (Seg.body seg)))%Z)
  /\ (raw_depth (Seg.body seg) = 0%Z
      \/ exists pre, code = pre +:+ Seg.body seg).
Proof.
  intros (pre & rest & k & Hcode & _ & Hle & Hb & _ & _ & Hend & Hpos)%split_loop_segments.
  rewrite Hb. split.
  - intros [|n] [Hn1 Hn2]; [lia|]. simpl in *.
    rewrite length_take in Hn2 by done.
    rewrite take_take by lia. specialize (Hpos n). lia.
  - destruct Hend as [He| ->]; [left; simpl; lia|].
    right. exists pre. by rewrite Hcode, take_all.
Qed.

(** X11: a text without the annotation has no segment and no method. *)
Theorem no_annotation_no_methods (code : string) :
  includes code "@Test" = false ->
  splitTestMethods code = [] /\ extractActions code = [].
Proof.
  intros Hn.
  assert (E : splitTestMethods code = []).
  { destruct (splitTestMethods code) as [|seg l] eqn:Hs; [done|].
    assert (Hin : seg ∈ splitTestMethods code) by (rewrite Hs; apply list_elem_of_here).
    apply split_loop_segments in Hin as (pre & rest & k & Hcode & Hpre & _).
    rewrite includes_complete in Hn; [done|].
    destruct (includes_sound _ _ Hpre) as (a & b & ->).
    exists a, (b +:+ "{" +:+ rest). rewrite Hcode. by rewrite !append_assoc. }
  split; [done|]. unfold extractActions. by rewrite E.
Qed.

End ExtractFacts.

(** * Further properties of recognizer and description *)

Section DescribeFacts.
Import Js Regex Ir Extract ExtractProps Bridge PlanProps.

(** X12: the phrases of the description generator for the locators of
    the table: id, name and class values are put in double quotes, an xpath
    stands as it is, and a link text comes out in two pairs of double quotes,
    its own and those of the phrase; a css or tag value is described as the
    selector that it is. *)
Theorem description_table (v : string) :
  v <> "" ->
  quote_free v ->
  selectorToDescription (byToSelector (locator "id" v))
    = "element with id=" +:+ DQ +:+ v +:+ DQ
  /\ selectorToDescription (byToSelector (locator "name" v))
     = "input with name=" +:+ DQ +:+ v +:+ DQ
  /\ selectorToDescription (byToSelector (locator "className" v))
     = "element with class=" +:+ DQ +:+ v +:+ DQ
  /\ selectorToDescription (byToSelector (locator "xpath" v))
     = "element at xpath " +:+ v
  /\ selectorToDescription (byToSelector (locator "linkText" v))
     = "element with text " +:+ DQ +:+ DQ +:+ v +:+ DQ +:+ DQ
  /\ selectorToDescription (byToSelector (locator "cssSelector" v))
     = selectorToDescription v
  /\ selectorToDescription (byToSelector (locator "tagName" v))
     = selectorToDescription v.
Proof.
  intros Hne Hq.
  destruct (byToSelector_locator v Hne Hq) as (-> & -> & -> & -> & -> & -> & ->).
  split; [reflexivity|]. split.
  { unfold selectorToDescription. simpl startsWith. cbv iota.
    by destruct (nameAttrRe_match v Hne Hq) as (mr & -> & ->). }
  split; [reflexivity|]. split; [reflexivity|]. split.
  { unfold selectorToDescription. simpl. by rewrite !append_assoc. }
  split; reflexivity.
Qed.


Lemma anchored_literal_none (plus_ : bool) expr :
  startsWith expr DQ = false ->
  match_ (seq_of [Bol; Lit DQ; Cap 1 (Rep true plus_ not_dq); Lit DQ; Eol]) expr = None.
Proof.
  intros Hs. destruct (match_ _ _) as [mr|] eqn:E; [|done].
  apply exec_sound in E as (pre & rest & Hexpr & Hidx & _ & Hl).
  simpl in Hl.
  destruct Hl as (w1 & r1 & c1 & Hm0 & (-> & Hi & ->) & (w2 & r2 & c2 & -> & [-> ->] & _)).
  rewrite Hi in Hidx. destruct pre; [|done].
  rewrite Hexpr, Hm0 in Hs. done.
Qed.




Lemma extraction_as_constructs body :
  extractActionsFromBody body = flat_map (recognized body) constructs.
Proof.
  unfold extractActionsFromBody, constructs, recognized. simpl.
  by rewrite !flat_map_singleton, app_nil_r.
Qed.

Lemma Forall_recognized (P : action -> Prop) body :
  (forall c, c ∈ constructs -> Forall P (recognized body c)) ->
  Forall P (extractActionsFromBody body).
Proof.
  intros H. rewrite extraction_as_constructs. apply Forall_forall. intros a Ha.
  apply list_elem_of_In, in_flat_map in Ha as (c & Hc & Ha).
  apply list_elem_of_In in Hc, Ha.
  specialize (H c Hc). rewrite Forall_forall in H. by apply H.
Qed.

(** X14: every action of the recognizer has one of six shapes: a navigate
    action with a URL, a fill action with selector and value, a clear,
    click, get_text, wait or count_elements action with a selector, an
    assert_text action with selector and expected text, an assert_true
    action whose expression is not the literal [true], or an assert_false
    action; no other type and no other property occurs. *)
Theorem recognizer_emits_six_shapes (body : string) :
  Forall recognizer_shape (extractActionsFromBody body).
Proof.
  apply Forall_recognized. intros c Hc.
  unfold recognized. apply Forall_flat_map. intros mr.
  unfold constructs in Hc. rewrite !elem_of_cons, elem_of_nil in Hc.
  unfold recognizer_shape.
  destruct Hc as [->|[->|[->|[->|[->|[->|[->|[->|[->|[->|[]]]]]]]]]]]; simpl.
  all: try (constructor; [|constructor]).
  - left. by eexists.
  - right. left. by eexists _, _.
  - right. right. left. eexists _, _. split; [done | set_solver].
  - right. right. left. eexists _, _. split; [done | set_solver].
  - right. right. left. eexists _, _. split; [done | set_solver].
  - right. right. right. left. by eexists _, _.
  - unfold assert_true_of. destruct (String.eqb_spec (trim (group 1 mr)) "true");
      constructor; [|constructor].
    do 4 right. left. by eexists.
  - do 5 right. by eexists.
  - right. right. left. eexists _, _. split; [done | set_solver].
  - right. right. left. eexists _, _. split; [done | set_solver].
Qed.

Lemma extracted_types_known body :
  Forall (fun a => type a ∈ known_types) (extractActionsFromBody body).
Proof.
  apply Forall_recognized. intros c Hc.
  eapply Forall_impl; [by apply recognized_kind|]. simpl. intros a ->.
  unfold constructs in Hc. rewrite !elem_of_cons, elem_of_nil in Hc.
  unfold known_types.
  destruct Hc as [->|[->|[->|[->|[->|[->|[->|[->|[->|[->|[]]]]]]]]]]]; simpl;
    set_solver.
Qed.

Lemma extracted_plans baseUrl code plans :
  test_methods baseUrl (extractActions code) = Some plans ->
  map mp_name plans = map Seg.name (splitTestMethods code)
  /\ Forall (fun p => Forall (fun s => skipped s = false) (playwright_steps p)) plans.
Proof.
  intros Hp. unfold test_methods in Hp. apply mapM_Some in Hp.
  unfold extractActions in Hp. apply Forall2_fmap_l in Hp.
  induction Hp as [|mb p mbs ps Hm _ IH]; simpl; [by split|].
  apply compile_method_not_skipped in Hm as [Hs Hn];
    [|apply extracted_types_known].
  destruct IH as [IH1 IH2]. split; [by rewrite Hn, IH1 | by constructor].
Qed.

(** X15: from text to plan.  On a text without a segment the extraction
    returns no method and the script of the plan compiler ends with exit
    status 1 before it builds a plan.  On a text with a segment the script
    goes through on the methods that the extraction returns: it writes one
    plan per segment, in order and under the name of the segment, and flags
    no step as skipped. *)
Theorem extraction_compiles_without_skips (baseUrl code : string) :
  (splitTestMethods code = [] ->
   extractActions code = []
   /\ Script.bridge baseUrl (extractActions code) = Script.Exit 1)
  /\ (splitTestMethods code <> [] ->
      exists plans,
        Script.bridge baseUrl (extractActions code) = Script.Written plans
        /\ test_methods baseUrl (extractActions code) = Some plans
        /\ plans <> []
        /\ map mp_name plans = map Seg.name (splitTestMethods code)
        /\ Forall (fun p => Forall (fun s => skipped s = false) (playwright_steps p))
                  plans).
Proof.
  split.
  - intros E. unfold extractActions. by rewrite E.
  - intros Hne.
    destruct (extracted_methods_compile baseUrl code) as [plans Hp].
    exists plans.
    pose proof (extracted_plans _ _ _ Hp) as Hnames.
    destruct Hnames as [Hn Hs].
    assert (Hpl : plans <> []).
    { intros ->. simpl in Hn. by destruct (splitTestMethods code). }
    split.
    + unfold Script.bridge. rewrite Hp.
      unfold extractActions. by destruct (splitTestMethods code).
    + done.
Qed.

End DescribeFacts.

(** * Properties of the syntax check *)

Section SyntaxFacts.
Import Js Regex Extract ExtractProps Validate Syntax.

Lemma scan_literal_body w :
  literal_body w ->
  forall d rest, scan (in_string d) (w +:+ DQ +:+ rest) = scan (neutral d) rest.
Proof.
  induction 1 as [|a w Hq Hb _ IH|a w _ IH]; intros d rest.
  - reflexivity.
  - simpl. unfold scan_step. simpl.
    apply Ascii.eqb_neq in Hq, Hb. rewrite Hq, Hb. apply IH.
  - simpl. apply IH.
Qed.

(** X16: the scan of the checker passes over a string literal: from the
    opening quote to the closing one the depth does not move, whatever
    braces the literal holds, and a quote after a backslash does not close
    the literal. *)
Theorem checker_skips_string_literal (w rest : string) (d : Z) :
  literal_body w ->
  scan (neutral d) (DQ +:+ w +:+ DQ +:+ rest) = scan (neutral d) rest.
Proof. intros Hw. simpl. fold (in_string d). by apply scan_literal_body. Qed.

Lemma scan_in_line w : forall d rest,
  all_chars not_lf w = true ->
  scan (in_line d) (w +:+ LF +:+ rest) = scan (neutral d) rest
  /\ depth (scan (in_line d) w) = d.
Proof.
  induction w as [|a w IH]; intros d rest Hw; simpl.
  - done.
  - apply andb_prop in Hw as [Ha Hw]. unfold scan_step. simpl.
    unfold not_lf in Ha. apply negb_true_iff in Ha. rewrite Ha.
    apply IH, Hw.
Qed.

Lemma scan_in_block t : forall d rest,
  includes (t +:+ "*") "*/" = false ->
  scan (in_block d) (t +:+ "*/" +:+ rest) = scan (neutral d) rest.
Proof.
  induction t as [|a t IH]; intros d rest Hi.
  - reflexivity.
  - change (includes (String a t +:+ "*") "*/")
      with (startsWith (String a (t +:+ "*")) "*/" || includes (t +:+ "*") "*/") in Hi.
    apply orb_false_elim in Hi as [Hs Hi].
    assert (Hn : Ascii.eqb a "*"
                 && is_char "/" (match t +:+ "*/" +:+ rest with
                                 | "" => None | String n _ => Some n end) = false).
    { destruct (Ascii.eqb a "*") eqn:Ea; [|done].
      rewrite Ascii.eqb_sym in Ea.
      destruct t as [|b t]; [done|].
      change (startsWith (String a (String b t +:+ "*")) "*/")
        with (if Ascii.eqb "*" a then (if Ascii.eqb "/" b then true else false) else false) in Hs.
      rewrite Ea in Hs. simpl. rewrite Ascii.eqb_sym.
      by destruct (Ascii.eqb "/" b). }
    change (String a t +:+ "*/" +:+ rest) with (String a (t +:+ "*/" +:+ rest)).
    specialize (IH d rest Hi).
    remember (t +:+ "*/" +:+ rest) as z eqn:Ez.
    simpl. unfold scan_step. simpl. rewrite Hn. exact IH.
Qed.

(** X17: the scan of the checker passes over comments: a line comment up
    to its line feed, or to the end of the text, and a block comment up to
    its end mark leave the depth where it was.  The opening mark of a block
    comment lends its star to the end mark: the three characters slash,
    star, slash are a whole comment. *)
Theorem checker_skips_comments (w rest : string) (d : Z) :
  (all_chars not_lf w = true ->
   scan (neutral d) ("//" +:+ w +:+ LF +:+ rest) = scan (neutral d) rest
   /\ depth (scan (neutral d) ("//" +:+ w)) = d)
  /\ (includes ("*" +:+ w +:+ "*") "*/" = false ->
      scan (neutral d) ("/*" +:+ w +:+ "*/" +:+ rest) = scan (neutral d) rest)
  /\ scan (neutral d) ("/*/" +:+ rest) = scan (neutral d) rest.
Proof.
  split; [|split].
  - intros Hw.
    assert (Hw' : all_chars not_lf (String "/" w) = true) by (simpl; by rewrite Hw).
    destruct (scan_in_line (String "/" w) d rest Hw') as [H1 H2].
    split; [exact H1 | exact H2].
  - intros Hi.
    change (scan (in_block d) (("*" +:+ w) +:+ "*/" +:+ rest) = scan (neutral d) rest).
    apply scan_in_block. by rewrite append_assoc.
  - reflexivity.
Qed.

Lemma scan_plain_prefix pre : forall d rest,
  plain pre ->
  scan (neutral d) (pre +:+ rest) = scan (neutral (d + raw_depth pre)) rest.
Proof.
  unfold plain.
  induction pre as [|a pre IH]; intros d rest Hp; simpl.
  - by rewrite Z.add_0_r.
  - apply andb_prop in Hp as [Ha Hp]. apply andb_prop in Ha as [Hq Hs].
    apply negb_true_iff in Hq, Hs.
    unfold scan_step. simpl. rewrite Hq, Hs. simpl.
    fold (neutral (if Ascii.eqb a "}"
                   then (if Ascii.eqb a "{" then d + 1 else d) - 1
                   else if Ascii.eqb a "{" then d + 1 else d)%Z).
    rewrite IH by done. do 2 f_equal.
    destruct (Ascii.eqb a "{"), (Ascii.eqb a "}"); lia.
Qed.

Lemma all_chars_app p a b :
  all_chars p (a +:+ b) = all_chars p a && all_chars p b.
Proof. induction a as [|x a IH]; simpl; [done | by rewrite IH, andb_assoc]. Qed.

(** X18: on a text without double quote and without slash the checker
    counts every brace: up to the end of such a text the depth moves by the
    number of opening braces minus the number of closing braces, and the
    whole text is reported as unbalanced exactly when the two numbers
    differ. *)
Theorem checker_counts_plain_braces (pre rest : string) (d : Z) :
  plain pre ->
  scan (neutral d) (pre +:+ rest) = scan (neutral (d + raw_depth pre)) rest
  /\ braceDepth pre = raw_depth pre
  /\ (unbalanced pre = true <-> raw_depth pre <> 0%Z).
Proof.
  intros Hp. split; [by apply scan_plain_prefix|].
  assert (E : braceDepth pre = raw_depth pre).
  { unfold braceDepth. change init with (neutral 0).
    rewrite <- (append_nil_r pre) at 1. by rewrite scan_plain_prefix. }
  split; [done|]. unfold unbalanced. rewrite E, negb_true_iff. apply Z.eqb_neq.
Qed.

(** X19: on a text without double quote and without slash the checker
    and the segmenter agree: the body of every segment is balanced for the
    checker unless it runs to the end of the text. *)
Theorem plain_segments_are_balanced (code : string) (seg : Seg.t) :
  plain code ->
  seg ∈ splitTestMethods code ->
  braceDepth (Seg.body seg) = raw_depth (Seg.body seg)
  /\ (unbalanced (Seg.body seg) = false \/ exists pre, code = pre +:+ Seg.body seg).
Proof.
  intros Hp Hin.
  pose proof Hin as (pre & rest & k & Hcode & _ & Hle & Hb & _ & _ & Hend & _)%split_loop_segments.
  assert (Hpb : plain (Seg.body seg)).
  { unfold plain in *. rewrite Hcode in Hp.
    rewrite all_chars_app in Hp. apply andb_prop in Hp as [_ Hp].
    rewrite <- (take_slice k rest) in Hp. simpl in Hp.
    rewrite all_chars_app in Hp. apply andb_prop in Hp as [Hp _].
    rewrite Hb. simpl. exact Hp. }
  assert (E : braceDepth (Seg.body seg) = raw_depth (Seg.body seg)).
  { unfold braceDepth. change init with (neutral 0).
    rewrite <- (append_nil_r (Seg.body seg)) at 1. by rewrite scan_plain_prefix. }
  split; [done|].
  destruct Hend as [He| ->].
  - left. unfold unbalanced. rewrite E, Hb. simpl.
    apply negb_false_iff, Z.eqb_eq. lia.
  - right. exists pre. by rewrite Hcode, Hb, take_all.
Qed.

(** X20: a text is valid for the checker exactly when its braces balance
    for the scan, it declares a public class, names the import of the test
    annotation, has at least one test annotation, and holds the two hooks
    and the driver; no warning, the one for fewer than three tests included,
    bears on validity. *)
Theorem valid_iff_no_error (code : string) :
  valid (validateSyntax code) = true
  <-> braceDepth code = 0%Z
      /\ test_after_boundary classRe None 0 code = true
      /\ includes code "org.junit.jupiter.api.Test" = true
      /\ 0 < testCount (validateSyntax code)
      /\ includes code "@BeforeEach" = true
      /\ includes code "@AfterEach" = true
      /\ includes code "WebDriver" = true.
Proof.
  unfold validateSyntax. simpl. rewrite Nat.eqb_eq, !length_app.
  unfold when.
  destruct (Z.eqb_spec (braceDepth code) 0) as [->|Hd];
    destruct (test_after_boundary classRe None 0 code);
    destruct (includes code "org.junit.jupiter.api.Test");
    destruct (Nat.eqb_spec (countTests code) 0) as [->|Hc];
    destruct (includes code "@BeforeEach");
    destruct (includes code "@AfterEach");
    destruct (includes code "WebDriver"); simpl.
  all: split; [intros H; try discriminate H; try lia|intros H; try done; try lia].
  all: try (repeat split; try done; lia).
  all: try (destruct H as (?&?&?&?&?&?&?); try done; lia).
Qed.

End SyntaxFacts.

(** ** The file names and the Java blocks of the saved outputs *)

Section OutputFacts.
Import Js Regex Outputs.
#[local] Arguments Ascii.eqb !a !b : simpl nomatch.

Lemma all_chars_replace_class (p q : ascii -> bool) s :
  (forall a, q (if p a then "_"%char else a) = true) ->
  all_chars q (replace_class p s) = true.
Proof. intros H. induction s as [|a s IH]; simpl; [done | by rewrite H, IH]. Qed.

Lemma all_chars_replace_runs (p q0 q : ascii -> bool) s : forall b,
  (forall a, p a = false -> q0 a = true -> q a = true) -> q "_"%char = true ->
  all_chars q0 s = true -> all_chars q (replace_runs p b s) = true.
Proof.
  intros b Hq Hu. revert b.
  induction s as [|a s IH]; intros b Hs; simpl in *; [done|].
  apply andb_prop in Hs as [Ha Hs].
  destruct (p a) eqn:Ep.
  - destruct b; simpl; [by apply IH | rewrite Hu; by apply IH].
  - simpl. rewrite (Hq a Ep Ha). by apply IH.
Qed.

Lemma all_chars_take q s : forall n, all_chars q s = true -> all_chars q (take n s) = true.
Proof.
  induction s as [|a s IH]; intros [|n] Hs; simpl in *; try done.
  apply andb_prop in Hs as [-> Hs]. by apply IH.
Qed.

Lemma take_length_le s : forall n, String.length (take n s) <= n.
Proof.
  induction s as [|a s IH]; intros [|n]; simpl; try lia.
  specialize (IH n). lia.
Qed.

Lemma take_short s : forall n, String.length s <= n -> take n s = s.
Proof.
  induction s as [|a s IH]; intros [|n] H; simpl in *; try done; try lia.
  f_equal. apply IH. lia.
Qed.

Lemma replace_class_id p s :
  all_chars (fun a => negb (p a)) s = true -> replace_class p s = s.
Proof.
  induction s as [|a s IH]; simpl; [done|].
  intros [Ha Hs]%andb_prop. apply negb_true_iff in Ha. rewrite Ha. f_equal. by apply IH.
Qed.

Lemma replace_runs_id p s :
  all_chars (fun a => negb (p a)) s = true -> replace_runs p false s = s.
Proof.
  induction s as [|a s IH]; simpl; [done|].
  intros [Ha Hs]%andb_prop. apply negb_true_iff in Ha. rewrite Ha. f_equal. by apply IH.
Qed.

Lemma all_chars_impl (p q : ascii -> bool) s :
  (forall a, p a = true -> q a = true) -> all_chars p s = true -> all_chars q s = true.
Proof.
  intros H. induction s as [|a s IH]; simpl; [done|].
  intros [Ha Hs]%andb_prop. by rewrite (H a Ha), IH.
Qed.

(** X21: a saved file name holds no forbidden character, no control
    character and no white space, has at most a hundred characters, and is
    left as it is when it is made safe again. *)
Theorem safe_filename_is_safe (description : string) :
  safe (toSafeFilename description)
  /\ String.length (toSafeFilename description) <= 100
  /\ toSafeFilename (toSafeFilename description) = toSafeFilename description.
Proof.
  assert (Hs : safe (toSafeFilename description)).
  { unfold safe, toSafeFilename. apply all_chars_take.
    apply all_chars_replace_runs
      with (q0 := fun a => negb (forbidden a) && negb (control a)).
    - intros a Hp Ha. by rewrite Ha, Hp.
    - reflexivity.
    - apply all_chars_replace_class. intros a.
      destruct (forbidden a) eqn:Ef; [reflexivity|].
      destruct (control a) eqn:Ec; [reflexivity|]. simpl. by rewrite Ef, Ec. }
  assert (Hl : String.length (toSafeFilename description) <= 100)
    by apply take_length_le.
  split; [done|]. split; [done|].
  set (f := toSafeFilename description) in *.
  unfold toSafeFilename at 1.
  rewrite replace_class_id, replace_runs_id, take_short; try done.
  - revert Hs. apply all_chars_impl. intros a Ha.
    apply andb_prop in Ha as [_ Ha]. done.
  - revert Hs. apply all_chars_impl. intros a Ha.
    apply andb_prop in Ha as [Ha _]. apply andb_prop in Ha as [H1 H2].
    apply negb_true_iff in H1, H2. by rewrite H1, H2.
Qed.

Lemma search_skip r pre : forall i s,
  (forall u v, pre = u +:+ v -> v <> "" ->
     mrun r (i + String.length u) (v +:+ s) [] (fun i' _ c => Some (i', c)) = None) ->
  search r i (pre +:+ s) = search r (i + String.length pre) s.
Proof.
  induction pre as [|a pre IH]; intros i s H.
  - simpl. by rewrite Nat.add_0_r.
  - pose proof (H "" (String a pre) eq_refl ltac:(done)) as H0.
    simpl in H0. rewrite Nat.add_0_r in H0.
    change (String a pre +:+ s) with (String a (pre +:+ s)).
    cbn [search]. rewrite H0.
    rewrite IH.
    + f_equal. simpl. lia.
    + intros u v -> Hv.
      specialize (H (String a u) v eq_refl Hv). simpl in H.
      by rewrite Nat.add_succ_r in H.
Qed.

Lemma rep_greedy_app p v : forall s i c k res,
  all_chars p v = true ->
  rep_greedy p s (i + String.length v) c k = Some res ->
  rep_greedy p (v +:+ s) i c k = Some res.
Proof.
  induction v as [|a v IH]; intros s i c k res Hv H; simpl in *.
  - by rewrite Nat.add_0_r in H.
  - apply andb_prop in Hv as [-> Hv].
    rewrite (IH s (S i) c k res Hv); [done|].
    by rewrite Nat.add_succ_r in H.
Qed.

Lemma rep_greedy_none p s : forall i c k,
  (forall u v, s = u +:+ v -> k (i + String.length u) v c = None) ->
  rep_greedy p s i c k = None.
Proof.
  induction s as [|a s IH]; intros i c k H; simpl.
  - specialize (H "" "" eq_refl). simpl in H. by rewrite Nat.add_0_r in H.
  - pose proof (H "" (String a s) eq_refl) as H0. simpl in H0.
    rewrite Nat.add_0_r in H0. rewrite H0.
    rewrite IH; [by destruct (p a)|].
    intros u v ->. specialize (H (String a u) v eq_refl). simpl in H.
    by rewrite Nat.add_succ_r in H.
Qed.

Lemma rep_greedy_blocked p x a y : forall i c k,
  p a = false -> (forall j b s', k j (String b s') c = None) ->
  rep_greedy p (x +:+ String a y) i c k = None.
Proof.
  induction x as [|b x IH]; intros i c k Ha Hk; simpl.
  - by rewrite Ha, Hk.
  - rewrite IH by done. rewrite Hk. by destruct (p b).
Qed.

Lemma rep_greedy_all p v : forall i c k res,
  all_chars p v = true -> k (i + String.length v) "" c = Some res ->
  rep_greedy p v i c k = Some res.
Proof.
  intros i c k res Hv Hk. rewrite <- (append_nil_r v).
  apply rep_greedy_app; [done|]. done.
Qed.

Lemma search_bol_later r s : forall i, i <> 0 -> search (Seq Bol r) i s = None.
Proof.
  induction s as [|a s IH]; intros i Hi; simpl;
    destruct (Nat.eqb_spec i 0); try done.
  by apply IH.
Qed.

Lemma slice_length s : slice (String.length s) s = "".
Proof. induction s; simpl; done. Qed.

Lemma remove_prefix l p :
  remove_first (seq_of [Bol; Lit l]) p
  = match lit l p with Some s' => s' | None => p end.
Proof.
  unfold remove_first, match_, exec. simpl.
  destruct p as [|a p]; simpl.
  - destruct (lit l "") as [s'|] eqn:E; simpl; [|done].
    apply lit_sound in E. destruct l; simpl in E; [by subst | done].
  - destruct (lit l (String a p)) as [s'|] eqn:E; simpl.
    + apply lit_sound in E. rewrite E, Nat.sub_0_r, take_app. by rewrite slice_app.
    + by rewrite search_bol_later.
Qed.

Lemma lit_front l : forall front c rest s',
  all_chars (not_char c) l = true ->
  lit l (front +:+ String c rest) = Some s' ->
  exists front', front = l +:+ front' /\ s' = front' +:+ String c rest.
Proof.
  induction l as [|a l IH]; intros front c rest s' Hl H; simpl in *.
  - exists front. by inversion H.
  - apply andb_prop in Hl as [Ha Hl]. unfold not_char in Ha.
    apply negb_true_iff in Ha.
    destruct front as [|b front]; simpl in H.
    + by rewrite Ha in H.
    + destruct (Ascii.eqb_spec a b) as [->|]; [|done].
      destruct (IH _ _ _ _ Hl H) as (f' & -> & ->). by exists f'.
Qed.

(** X22: the directory name of a model holds no forbidden character,
    whatever the provider id. *)
Theorem model_dir_name_is_clean (providerId : string) :
  clean (toModelDirName providerId).
Proof.
  unfold clean, toModelDirName. apply all_chars_replace_class.
  intros a. destruct (forbidden a) eqn:E; [reflexivity | by rewrite E].
Qed.

Lemma append_split a : forall b u v,
  a +:+ b = u +:+ v ->
  (exists x, a = u +:+ x /\ v = x +:+ b) \/ (exists y, u = a +:+ y /\ b = y +:+ v).
Proof.
  induction a as [|c a IH]; intros b u v H; simpl in H.
  - right. by exists u.
  - destruct u as [|d u]; simpl in H.
    + left. exists (String c a). by rewrite <- H.
    + injection H as -> H. destruct (IH _ _ _ H) as [(x & -> & ->)|(y & -> & ->)].
      * left. by exists x.
      * right. by exists y.
Qed.

Lemma remove_first_at r pre w post c :
  (forall u v, pre = u +:+ v -> v <> "" ->
     mrun r (String.length u) (v +:+ w +:+ post) [] (fun i' _ c' => Some (i', c')) = None) ->
  mrun r (String.length pre) (w +:+ post) [] (fun i' _ c' => Some (i', c'))
  = Some (String.length pre + String.length w, c) ->
  remove_first r (pre +:+ w +:+ post) = pre +:+ post.
Proof.
  intros Hmiss Hhit. unfold remove_first, match_, exec.
  change (0 <=? String.length (pre +:+ w +:+ post)) with true.
  change (slice 0 (pre +:+ w +:+ post)) with (pre +:+ w +:+ post).
  rewrite search_skip by exact Hmiss.
  change (0 + String.length pre) with (String.length pre).
  rewrite (search_hit _ _ _ _ _ Hhit). cbn [index m0].
  rewrite take_app.
  replace (String.length pre + String.length w - String.length pre)
    with (String.length w) by lia.
  rewrite take_app, <- length_append, <- append_assoc. by rewrite slice_app.
Qed.

Lemma strip_tag_blocked x y i :
  mrun (seq_of [Lit ":"; plus not_slash; Eol]) i (x +:+ String "/" y) []
       (fun i' _ c => Some (i', c)) = None.
Proof.
  destruct x as [|a x]; simpl; [done|].
  destruct (Ascii.eqb ":" a); [|done].
  destruct x as [|b x]; simpl; [done|].
  destruct (not_slash b); [|done].
  by apply rep_greedy_blocked.
Qed.

Lemma clean_head b v : clean (String b v) -> forbidden b = false /\ clean v.
Proof. unfold clean. simpl. intros [H1 H2]%andb_prop. by apply negb_true_iff in H1. Qed.

Lemma clean_suffix u v : clean (u +:+ v) -> clean v.
Proof. unfold clean. rewrite all_chars_app. by intros [_ H]%andb_prop. Qed.

Lemma remove_tag f model tag :
  clean model -> tag <> "" -> all_chars not_slash tag = true ->
  remove_first (seq_of [Lit ":"; plus not_slash; Eol])
               (f +:+ "/" +:+ model +:+ ":" +:+ tag)
  = f +:+ "/" +:+ model.
Proof.
  intros Hm Ht Hs.
  transitivity ((f +:+ "/" +:+ model) +:+ "").
  2: by rewrite append_nil_r.
  replace (f +:+ "/" +:+ model +:+ ":" +:+ tag)
    with ((f +:+ "/" +:+ model) +:+ (":" +:+ tag) +:+ "")
    by (by rewrite append_nil_r, !append_assoc).
  apply remove_first_at with (c := []).
  - intros u v Huv Hv. rewrite append_nil_r.
    apply append_split in Huv as [(x & -> & ->)|(y & -> & Hy)].
    + rewrite !append_assoc. apply strip_tag_blocked.
    + destruct y as [|d y]; simpl in Hy.
      * subst v. apply (strip_tag_blocked "").
      * injection Hy as <- Hy. subst model.
        apply clean_suffix in Hm.
        destruct v as [|b v]; [done|].
        apply clean_head in Hm as [Hb _]. simpl.
        by destruct (Ascii.eqb_spec ":" b) as [<-|].
  - rewrite append_nil_r.
    destruct tag as [|t tag]; [done|]. simpl in Hs |- *.
    apply andb_prop in Hs as [-> Hs].
    apply rep_greedy_all; [done|]. simpl. do 2 f_equal; lia.
Qed.

Lemma remove_path f model :
  all_chars dot f = true -> clean model ->
  remove_first (seq_of [Bol; star dot; Lit "/"]) (f +:+ "/" +:+ model) = model.
Proof.
  intros Hf Hm.
  replace (f +:+ "/" +:+ model) with ("" +:+ (f +:+ "/") +:+ model)
    by (simpl; by rewrite !append_assoc).
  change model with ("" +:+ model) at 2.
  apply remove_first_at with (c := []).
  - intros [|x u] v Huv Hv; simpl in Huv; [by subst|done].
  - rewrite append_assoc. simpl.
    apply rep_greedy_app; [done|]. simpl.
    rewrite rep_greedy_none.
    + rewrite length_append. simpl. do 2 f_equal; lia.
    + intros u v ->. apply clean_suffix in Hm.
      destruct v as [|b v]; simpl; [done|].
      apply clean_head in Hm as [Hb _].
      by destruct (Ascii.eqb_spec "/" b) as [<-|].
Qed.

(** X23: of a provider id made of a path in one line, a slash, a model
    name without forbidden character, a colon and a tag without slash, the
    directory name is the model name; a leading openrouter prefix is part of
    the path. *)
Theorem model_dir_name_of_provider (front model tag : string) :
  all_chars dot front = true -> clean model ->
  tag <> "" -> all_chars not_slash tag = true ->
  toModelDirName (front +:+ "/" +:+ model +:+ ":" +:+ tag) = model.
Proof.
  intros Hf Hm Ht Hs. unfold toModelDirName. rewrite remove_prefix.
  assert (exists f, all_chars dot f = true
            /\ match lit "openrouter:" (front +:+ "/" +:+ model +:+ ":" +:+ tag) with
               | Some s' => s'
               | None => front +:+ "/" +:+ model +:+ ":" +:+ tag
               end = f +:+ "/" +:+ model +:+ ":" +:+ tag) as (f & Hfd & ->).
  { destruct (lit _ _) as [s'|] eqn:E; [|by exists front].
    change (front +:+ "/" +:+ model +:+ ":" +:+ tag)
      with (front +:+ String "/" (model +:+ ":" +:+ tag)) in E.
    apply lit_front in E as (f' & -> & ->); [|reflexivity].
    exists f'. split; [|done].
    rewrite all_chars_app in Hf. by apply andb_prop in Hf as [_ Hf]. }
  rewrite remove_tag by done. rewrite remove_path by done.
  by apply replace_class_id.
Qed.

Lemma rep_lazy_first p s : forall i c k res,
  rep_lazy p s i c k = Some res ->
  exists w rest, s = w +:+ rest /\ all_chars p w = true
    /\ k (i + String.length w) rest c = Some res
    /\ forall u v, w = u +:+ v -> v <> "" ->
         k (i + String.length u) (v +:+ rest) c = None.
Proof.
  induction s as [|a s IH]; intros i c k res H.
  - simpl in H. destruct (k i "" c) as [r|] eqn:E; [|done]. inversion H; subst.
    exists "", "". simpl. rewrite Nat.add_0_r. repeat split; try done.
    intros [|??] v; simpl; [by intros <- | done].
  - cbn [rep_lazy] in H. destruct (k i (String a s) c) as [r|] eqn:E.
    + inversion H; subst. exists "", (String a s). simpl. rewrite Nat.add_0_r.
      repeat split; try done.
      intros [|??] v; simpl; [by intros <- | done].
    + destruct (p a) eqn:Ep; [|done].
      apply IH in H as (w & rest & -> & Hw & Hk & Hmin).
      exists (String a w), rest. simpl. rewrite Ep, Hw, Nat.add_succ_r.
      repeat split; try done.
      intros [|b u] v Huv Hv; simpl in Huv.
      * subst v. simpl. by rewrite Nat.add_0_r.
      * injection Huv as <- ->. simpl. rewrite Nat.add_succ_r. by apply Hmin.
Qed.

Lemma rep_lazy_complete p w : forall rest i c k,
  all_chars p w = true -> is_Some (k (i + String.length w) rest c) ->
  is_Some (rep_lazy p (w +:+ rest) i c k).
Proof.
  induction w as [|a w IH]; intros rest i c k Hw Hk; simpl in Hw, Hk.
  - rewrite Nat.add_0_r in Hk. destruct Hk as [r Hk].
    destruct rest; simpl; by rewrite Hk.
  - apply andb_prop in Hw as [Ha Hw]. simpl.
    destruct (k i (String a (w +:+ rest)) c); [done|]. rewrite Ha.
    apply IH; [done|]. by rewrite Nat.add_succ_r in Hk.
Qed.

Lemma rep_greedy_here p s i c k : rep_greedy p s i c k = None -> k i s c = None.
Proof.
  destruct s as [|a s]; simpl; [done|].
  destruct (p a); [|done]. by destruct (rep_greedy p s (S i) c k).
Qed.

Lemma rep_greedy_last p s : forall i c k res,
  rep_greedy p s i c k = Some res ->
  exists w rest, s = w +:+ rest /\ all_chars p w = true
    /\ k (i + String.length w) rest c = Some res
    /\ forall a rest', rest = String a rest' -> p a = true ->
         k (S (i + String.length w)) rest' c = None.
Proof.
  induction s as [|a s IH]; intros i c k res H; simpl in H.
  - exists "", "". simpl. rewrite Nat.add_0_r. by repeat split.
  - destruct (p a) eqn:Ep.
    + destruct (rep_greedy p s (S i) c k) as [r|] eqn:E.
      * inversion H; subst.
        apply IH in E as (w & rest & -> & Hw & Hk & Hmax).
        exists (String a w), rest. simpl. rewrite Ep, Hw, Nat.add_succ_r.
        by repeat split.
      * exists "", (String a s). simpl. rewrite Nat.add_0_r.
        repeat split; try done.
        intros a' rest' [= <- <-] _. by apply rep_greedy_here in E.
    + exists "", (String a s). simpl. rewrite Nat.add_0_r.
      repeat split; try done.
      intros a' rest' [= <- <-]. by rewrite Ep.
Qed.

Lemma rep_greedy_is_Some p s : forall i i' c c' (k k' : kont),
  (forall j j' t, is_Some (k j t c) -> is_Some (k' j' t c')) ->
  is_Some (rep_greedy p s i c k) -> is_Some (rep_greedy p s i' c' k').
Proof.
  induction s as [|a s IH]; intros i i' c c' k k' Hk; simpl; [by apply Hk|].
  destruct (p a); [|by apply Hk].
  destruct (rep_greedy p s (S i) c k) as [r|] eqn:E.
  - intros _.
    destruct (IH (S i) (S i') c c' k k' Hk) as [r' ->]; [by rewrite E|]. done.
  - intros H. destruct (rep_greedy p s (S i') c' k'); [done|]. by eapply Hk.
Qed.

Lemma rep_greedy_caps p s : forall i c k e c',
  (forall j t e' c'', k j t c = Some (e', c'') -> c'' = c) ->
  rep_greedy p s i c k = Some (e, c') -> c' = c.
Proof.
  intros i c k e c' Hk (w & rest & _ & _ & H)%rep_greedy_sound. by eapply Hk.
Qed.

Lemma closes_caps i s c e c' : closes i s c = Some (e, c') -> c' = c.
Proof.
  unfold closes. apply rep_greedy_caps. intros j t e' c''.
  unfold fence_kont. cbn [mrun].
  destruct (lit fence t); [|done]. by intros [= _ ->].
Qed.

Lemma closes_indep i i' s c c' : is_Some (closes i s c) -> is_Some (closes i' s c').
Proof.
  unfold closes. apply rep_greedy_is_Some. intros j j' t.
  unfold fence_kont. cbn [mrun]. by destruct (lit fence t).
Qed.

Lemma closes_at_fence i s c : is_Some (closes i (fence +:+ s) c).
Proof. unfold closes, fence, fence_kont. simpl. by eexists. Qed.

Lemma closes_after_space i a s c :
  is_space a = true -> is_Some (closes (S i) s c) -> is_Some (closes i (String a s) c).
Proof.
  unfold closes. cbn [rep_greedy]. unfold space. by intros -> [r ->].
Qed.

Lemma javaBlockRe_run i s :
  mrun javaBlockRe i s [] (fun i' _ c => Some (i', c))
  = match lit "```java" s with
    | Some s0 =>
        rep_greedy space s0 (i + 7) []
          (fun j s1 c =>
             rep_lazy any s1 j c
               (fun i' s' c' => closes i' s' ((1, take (i' - j) s1) :: c')))
    | None => None
    end.
Proof. reflexivity. Qed.

Lemma block_of_match i s e c :
  mrun javaBlockRe i s [] (fun i' _ c0 => Some (i', c0)) = Some (e, c) ->
  exists b, c = [(1, b)]
    /\ includes b fence = false
    /\ (forall a b', b = String a b' -> is_space a = false)
    /\ (forall u a, b = u +:+ String a "" -> is_space a = false).
Proof.
  rewrite javaBlockRe_run.
  destruct (lit "```java" s) as [s0|]; [|done].
  intros (sp & s1 & -> & Hsp & H & Hmax)%rep_greedy_last.
  pose proof H as (b & rest & -> & _ & Hk & Hmin)%rep_lazy_first.
  replace (i + 7 + String.length sp + String.length b - (i + 7 + String.length sp))
    with (String.length b) in Hk by lia.
  rewrite take_app in Hk.
  exists b. split; [by apply closes_caps in Hk|].
  assert (Hs : forall j c0, is_Some (closes j rest c0)).
  { intros j c0. eapply closes_indep. by rewrite Hk. }
  split; [|split].
  - destruct (includes b fence) eqn:Ei; [|done].
    apply includes_sound in Ei as (pre & post & ->).
    specialize (Hmin pre (fence +:+ post) eq_refl ltac:(done)).
    rewrite append_assoc in Hmin.
    pose proof (closes_at_fence (i + 7 + String.length sp + String.length pre) (post +:+ rest)
                  [(1, take (i + 7 + String.length sp + String.length pre
                             - (i + 7 + String.length sp))
                            ((pre +:+ fence +:+ post) +:+ rest))]) as [r Hr].
    rewrite Hr in Hmin. done.
  - intros a b' -> . destruct (is_space a) eqn:Ea; [|done].
    specialize (Hmax a (b' +:+ rest) eq_refl Ea).
    destruct (rep_lazy_complete any b' rest (S (i + 7 + String.length sp)) []
                (fun i' s' c' => closes i' s'
                   ((1, take (i' - S (i + 7 + String.length sp)) (b' +:+ rest)) :: c')))
      as [r Hr]; [ | apply Hs | ].
    + clear. induction b'; simpl; done.
    + rewrite Hr in Hmax. done.
  - intros u a ->. destruct (is_space a) eqn:Ea; [|done].
    specialize (Hmin u (String a "") eq_refl ltac:(done)).
    edestruct (closes_after_space (i + 7 + String.length sp + String.length u) a rest)
      as [r Hr]; [exact Ea | apply Hs |].
    simpl in Hmin. rewrite Hr in Hmin. done.
Qed.

Lemma trimStart_length s : String.length (trimStart s) <= String.length s.
Proof. induction s as [|a s IH]; simpl; [done|]. destruct (is_space a); simpl; lia. Qed.

Lemma trimEnd_length s : String.length (trimEnd s) <= String.length s.
Proof.
  induction s as [|a s IH]; simpl; [done|].
  destruct (trimEnd s); [destruct (is_space a)|]; simpl in *; lia.
Qed.

Lemma trimStart_fix s :
  trimStart s = s <-> forall a s', s = String a s' -> is_space a = false.
Proof.
  destruct s as [|a s]; simpl; [done|]. split.
  - intros H b s' [= <- <-]. destruct (is_space a); [|done].
    pose proof (trimStart_length s) as Hl. rewrite H in Hl. simpl in Hl. lia.
  - intros H. by rewrite (H a s eq_refl).
Qed.

Lemma trimEnd_fix s :
  trimEnd s = s <-> forall u a, s = u +:+ String a "" -> is_space a = false.
Proof.
  induction s as [|a s IH]; simpl.
  - split; [|done]. intros _ [|??] ?; done.
  - split.
    + intros H u b Hu. destruct (trimEnd s) as [|t0 t] eqn:Et.
      * destruct (is_space a) eqn:Ea; [done|]. injection H as <-.
        destruct u as [|??]; simpl in Hu; [by injection Hu as <- | ].
        injection Hu as _ Hu. by destruct u.
      * injection H as H. pose proof (proj1 IH H) as H'.
        destruct u as [|x u]; simpl in Hu.
        -- injection Hu as _ ->. done.
        -- injection Hu as _ ->. by eapply H'.
    + intros H.
      destruct s as [|b s].
      * simpl. by rewrite (H "" a eq_refl).
      * destruct IH as [_ IH]. rewrite IH; [done|].
        intros u x Hu. apply (H (String a u) x). simpl. by rewrite Hu.
Qed.

Lemma trim_fix s : trim s = s <-> trimStart s = s /\ trimEnd s = s.
Proof.
  unfold trim. split; [|by intros [-> ->]].
  intros H.
  assert (E : trimStart s = s).
  { pose proof (trimEnd_length (trimStart s)) as H1. rewrite H in H1.
    destruct s as [|a s]; simpl in *; [done|].
    destruct (is_space a); [|done].
    pose proof (trimStart_length s). lia. }
  by rewrite E in H.
Qed.

Lemma matchAll_loop_exec r inp mr : forall fuel lastIndex,
  mr ∈ matchAll_loop fuel r inp lastIndex -> exists j, exec r inp j = Some mr.
Proof.
  induction fuel as [|fuel IH]; intros j; simpl; [by intros ?%elem_of_nil|].
  destruct (exec r inp j) as [mr'|] eqn:E; [|by intros ?%elem_of_nil].
  intros [->|Hin]%elem_of_cons; [by exists j | by eapply IH].
Qed.

Lemma search_mrun r s : forall i mr,
  search r i s = Some mr ->
  exists i' s' e, mrun r i' s' [] (fun j _ c => Some (j, c)) = Some (e, groups mr).
Proof.
  induction s as [|a s IH]; intros i mr; cbn [search].
  - destruct (mrun r i "" [] _) as [[e c]|] eqn:E; [|done].
    intros [= <-]. by exists i, "", e.
  - destruct (mrun r i (String a s) [] _) as [[e c]|] eqn:E.
    + intros [= <-]. by exists i, (String a s), e.
    + apply IH.
Qed.

(** X24: every Java block taken from an output is trimmed and holds no
    fence. *)
Theorem java_blocks_are_trimmed (text b : string) :
  b ∈ javaBlocks text -> trim b = b /\ includes b fence = false.
Proof.
  unfold javaBlocks. intros (mr & -> & Hin)%list_elem_of_fmap.
  apply matchAll_loop_exec in Hin as [j Hj].
  unfold exec in Hj. destruct (j <=? String.length text); [|done].
  apply search_mrun in Hj as (i & s & e & Hm).
  apply block_of_match in Hm as (b & Hc & Hf & Hs & He).
  unfold group. rewrite Hc. simpl. split; [|done].
  apply trim_fix. split; [by apply trimStart_fix | by apply trimEnd_fix].
Qed.

(** X25: a text without the opening fence of a Java block has no
    blocks. *)
Theorem no_fence_no_blocks (text : string) :
  includes text "```java" = false -> extractJavaBlocks text = None.
Proof.
  intros Hn. unfold extractJavaBlocks.
  destruct (javaBlocks text) as [|b l] eqn:E; [done|].
  unfold javaBlocks in E.
  destruct (matchAll javaBlockRe text) as [|mr ms] eqn:Em; [done|].
  assert (Hin : mr ∈ matchAll javaBlockRe text) by (rewrite Em; apply list_elem_of_here).
  apply matchAll_loop_exec in Hin as [j Hj].
  apply exec_sound in Hj as (pre & rest & Ht & _ & _ & Hl).
  unfold javaBlockRe in Hl. cbn [seq_of lang] in Hl.
  destruct Hl as (w1 & w2 & c1 & Hm0 & [-> _] & _).
  rewrite Hm0, !append_assoc in Ht.
  rewrite includes_complete in Hn; [done|].
  exists pre, (w2 +:+ rest). done.
Qed.

Lemma rep_lazy_run p w : forall rest i c k res,
  all_chars p w = true ->
  (forall u v, w = u +:+ v -> v <> "" -> k (i + String.length u) (v +:+ rest) c = None) ->
  k (i + String.length w) rest c = Some res ->
  rep_lazy p (w +:+ rest) i c k = Some res.
Proof.
  induction w as [|a w IH]; intros rest i c k res Hw Hmin Hk; simpl in Hw, Hk.
  - rewrite Nat.add_0_r in Hk. destruct rest; simpl; by rewrite Hk.
  - apply andb_prop in Hw as [Ha Hw].
    change (String a w +:+ rest) with (String a (w +:+ rest)). cbn [rep_lazy].
    pose proof (Hmin "" (String a w) eq_refl ltac:(done)) as H0.
    simpl in H0. rewrite Nat.add_0_r in H0. rewrite H0, Ha.
    apply IH; [done| |by rewrite Nat.add_succ_r in Hk].
    intros u v -> Hv. specialize (Hmin (String a u) v eq_refl Hv).
    simpl in Hmin. by rewrite Nat.add_succ_r in Hmin.
Qed.

Lemma search_none r s : forall i,
  (forall u v, s = u +:+ v ->
     mrun r (i + String.length u) v [] (fun j _ c => Some (j, c)) = None) ->
  search r i s = None.
Proof.
  induction s as [|a s IH]; intros i H; cbn [search].
  - pose proof (H "" "" eq_refl) as H0. simpl in H0. rewrite Nat.add_0_r in H0.
    by rewrite H0.
  - pose proof (H "" (String a s) eq_refl) as H0. simpl in H0.
    rewrite Nat.add_0_r in H0. rewrite H0. apply IH.
    intros u v ->. specialize (H (String a u) v eq_refl). simpl in H.
    by rewrite Nat.add_succ_r in H.
Qed.

Lemma match_at r pre w post c :
  (forall u v, pre = u +:+ v -> v <> "" ->
     mrun r (String.length u) (v +:+ w +:+ post) [] (fun i' _ c' => Some (i', c')) = None) ->
  mrun r (String.length pre) (w +:+ post) [] (fun i' _ c' => Some (i', c'))
  = Some (String.length pre + String.length w, c) ->
  match_ r (pre +:+ w +:+ post)
  = Some {| index := String.length pre; m0 := w; groups := c |}.
Proof.
  intros Hmiss Hhit. unfold match_, exec.
  change (0 <=? String.length (pre +:+ w +:+ post)) with true.
  change (slice 0 (pre +:+ w +:+ post)) with (pre +:+ w +:+ post).
  rewrite search_skip by exact Hmiss.
  change (0 + String.length pre) with (String.length pre).
  rewrite (search_hit _ _ _ _ _ Hhit).
  replace (String.length pre + String.length w - String.length pre)
    with (String.length w) by lia.
  by rewrite take_app.
Qed.

Lemma closes_inside v : forall i rest c,
  v <> "" -> all_chars (not_char "`") v = true ->
  (forall u a, v = u +:+ String a "" -> is_space a = false) ->
  closes i (v +:+ rest) c = None.
Proof.
  induction v as [|b v IH]; intros i rest c Hne Hv He; [done|].
  simpl in Hv. apply andb_prop in Hv as [Hb Hv].
  unfold not_char in Hb. apply negb_true_iff in Hb.
  assert (Hk : fence_kont i (String b (v +:+ rest)) c = None).
  { unfold fence_kont, fence. simpl. rewrite Ascii.eqb_sym, Hb. done. }
  unfold closes. change (String b v +:+ rest) with (String b (v +:+ rest)).
  cbn [rep_greedy]. rewrite Hk.
  destruct (space b) eqn:Eb; [|done].
  destruct v as [|b' v].
  - unfold space in Eb. by rewrite (He "" b eq_refl) in Eb.
  - fold (closes (S i) (String b' v +:+ rest) c). rewrite IH; try done.
    intros u a Hu. apply (He (String b u) a). simpl. by rewrite Hu.
Qed.

Lemma block_run i sp1 body sp2 post :
  all_chars space sp1 = true -> body <> "" -> trim body = body ->
  all_chars (not_char "`") body = true -> all_chars space sp2 = true ->
  mrun javaBlockRe i (("```java" +:+ sp1 +:+ body +:+ sp2 +:+ fence) +:+ post) []
       (fun j _ c => Some (j, c))
  = Some (i + String.length ("```java" +:+ sp1 +:+ body +:+ sp2 +:+ fence), [(1, body)]).
Proof.
  intros H1 Hne Ht Hb H2.
  apply trim_fix in Ht as [Hs He].
  pose proof (proj1 (trimStart_fix body) Hs) as Hs'.
  pose proof (proj1 (trimEnd_fix body) He) as He'.
  rewrite javaBlockRe_run, !append_assoc, lit_app.
  apply rep_greedy_app; [done|].
  destruct body as [|a body'] eqn:Ebody; [done|]. rewrite <- Ebody in *.
  assert (Ha : space a = false) by (apply (Hs' a body'); by rewrite Ebody).
  rewrite Ebody at 1.
  change (String a body' +:+ sp2 +:+ fence +:+ post)
    with (String a (body' +:+ sp2 +:+ fence +:+ post)).
  cbn [rep_greedy]. rewrite Ha.
  change (String a (body' +:+ sp2 +:+ fence +:+ post))
    with (String a body' +:+ sp2 +:+ fence +:+ post). rewrite <- Ebody.
  apply rep_lazy_run.
  - clear. induction body; simpl; done.
  - intros u v Huv Hv. apply closes_inside; [done| |].
    + rewrite Huv, all_chars_app in Hb. by apply andb_prop in Hb as [_ Hb].
    + intros u' x Hx. apply (He' (u +:+ u') x). by rewrite Huv, Hx, append_assoc.
  - replace (i + 7 + String.length sp1 + String.length body - (i + 7 + String.length sp1))
      with (String.length body) by lia.
    rewrite take_app. unfold closes.
    apply rep_greedy_app; [done|].
    unfold fence, fence_kont. simpl. do 2 f_equal.
    rewrite !length_append. simpl. lia.
Qed.

(** X26: of a text that holds one fenced Java block and no other
    backquote, the block is what is extracted, without the white space
    around it. *)
Theorem single_block_is_extracted (pre sp1 body sp2 post : string) :
  all_chars (not_char "`") pre = true -> all_chars space sp1 = true ->
  body <> "" -> trim body = body -> all_chars (not_char "`") body = true ->
  all_chars space sp2 = true -> all_chars (not_char "`") post = true ->
  extractJavaBlocks (pre +:+ ("```java" +:+ sp1 +:+ body +:+ sp2 +:+ fence) +:+ post)
  = Some body.
Proof.
  intros Hpre H1 Hne Ht Hb H2 Hpost.
  set (M := "```java" +:+ sp1 +:+ body +:+ sp2 +:+ fence).
  assert (Hmiss : forall i v, all_chars (not_char "`") v = true -> forall t,
            mrun javaBlockRe i (v +:+ t) [] (fun j _ c => Some (j, c)) = None
            \/ v = "").
  { intros i [|b v] Hv t; [by right|left]. simpl in Hv.
    apply andb_prop in Hv as [Hb' _]. unfold not_char in Hb'.
    apply negb_true_iff in Hb'. rewrite javaBlockRe_run. simpl.
    by rewrite Ascii.eqb_sym, Hb'. }
  assert (E0 : match_ javaBlockRe (pre +:+ M +:+ post)
               = Some {| index := String.length pre; m0 := M; groups := [(1, body)] |}).
  { apply match_at.
    - intros u v -> Hv. rewrite all_chars_app in Hpre.
      apply andb_prop in Hpre as [_ Hv'].
      by destruct (Hmiss (String.length u) v Hv' (M +:+ post)).
    - by apply block_run. }
  assert (HM : forall x y : nat, match M with "" => x | String _ _ => y end = y) by done.
  assert (E1 : exec javaBlockRe (pre +:+ M +:+ post) (String.length pre + String.length M)
               = None).
  { unfold exec. rewrite !length_append.
    replace (_ <=? _) with true by (symmetry; apply Nat.leb_le; lia).
    rewrite <- length_append, <- append_assoc, slice_app.
    apply search_none. intros u v ->.
    rewrite all_chars_app in Hpost. apply andb_prop in Hpost as [_ Hv].
    destruct (Hmiss (String.length (pre +:+ M) + String.length u) v Hv "") as [H| ->].
    - by rewrite append_nil_r in H.
    - done. }
  unfold extractJavaBlocks, javaBlocks, matchAll.
  replace (String.length (pre +:+ M +:+ post) + 2)
    with (S (S (String.length (pre +:+ M +:+ post)))) by lia.
  cbn [matchAll_loop]. unfold match_ in E0. rewrite E0.
  unfold advance. cbn [index m0]. rewrite HM, E1. reflexivity.
Qed.

End OutputFacts.


(** ** The checks on a parsed output *)

Section CheckFacts.
Import Js Regex Syntax Outputs CheckOutput.

(** X27: the checker of outputs and the extractor read the same block:
    the code that the checker takes from a section is the first block that
    the extractor finds in it, its tests are counted as the syntax check
    counts them, and the one fails exactly when the other returns null. *)
Theorem java_code_is_first_block (sectionB : string) :
  extractJavaCode sectionB
  = (fun b => {| code := b; testCount := Syntax.testCount (validateSyntax b) |})
      <$> head (javaBlocks sectionB)
  /\ (extractJavaCode sectionB = None <-> extractJavaBlocks sectionB = None).
Proof.
  unfold extractJavaCode, extractJavaBlocks, javaBlocks, matchAll, match_.
  replace (String.length sectionB + 2) with (S (String.length sectionB + 1)) by lia.
  cbn [matchAll_loop].
  destruct (exec javaBlockRe sectionB 0) as [mr|]; simpl; [|done].
  split; [done|]. split; intros H; discriminate H.
Qed.

Lemma countByCat_lookup k : forall cs (m : gmap string nat),
  default 0 (foldl (fun m c =>
                      let k := tpl (category c) in
                      <[k := default 0 (m !! k) + 1]> m) m cs !! k)
  = default 0 (m !! k)
    + length (List.filter (fun c => bool_decide (tpl (category c) = k)) cs).
Proof.
  induction cs as [|c cs IH]; intros m; simpl; [lia|].
  rewrite IH. case_bool_decide as E.
  - rewrite E, lookup_insert_eq. simpl. lia.
  - by rewrite lookup_insert_ne.
Qed.

Lemma count_of_category cs cat :
  cat <> "undefined" -> count_of (countByCat cs) cat = in_category cat cs.
Proof.
  intros Hc. unfold count_of, countByCat, in_category.
  rewrite countByCat_lookup, lookup_empty. simpl. f_equal.
  induction cs as [|c cs IH]; simpl; [done|]. rewrite IH.
  destruct (category c) as [x|]; simpl.
  - repeat case_bool_decide; simplify_eq; done.
  - repeat case_bool_decide; simplify_eq; done.
Qed.

Lemma list_indexOf_spec l v : forall i,
  list_indexOf l v = Some i
  <-> l !! i = Some v /\ forall j, j < i -> l !! j <> Some v.
Proof.
  induction l as [|x l IH]; intros i; simpl.
  - split; [done|]. by intros [? _].
  - case_decide as E.
    + subst x. split.
      * intros [= <-]. split; [done|]. intros j Hj. lia.
      * intros [Hi Hmin]. destruct i as [|i]; [done|].
        by destruct (Hmin 0 ltac:(lia)).
    + rewrite fmap_Some. split.
      * intros (k & Hk & ->). apply IH in Hk as [Hk Hmin]. split; [done|].
        intros [|j] Hj; simpl; [congruence|]. apply Hmin. lia.
      * intros [Hi Hmin]. destruct i as [|i]; simpl in Hi; [congruence|].
        exists i. split; [|done]. apply IH. split; [done|].
        intros j Hj. apply (Hmin (S j)). lia.
Qed.

Lemma find_dup_None ids l : forall i,
  find_dup ids i l = None
  <-> forall j v, l !! j = Some v -> list_indexOf ids v = Some (i + j).
Proof.
  induction l as [|x l IH]; intros i; simpl.
  - split; [by intros _ j v | done].
  - case_decide as E.
    + rewrite IH. split.
      * intros H [|j] v; simpl.
        -- intros [= <-]. by rewrite Nat.add_0_r.
        -- intros Hj. rewrite Nat.add_succ_r. by apply H.
      * intros H j v Hj. specialize (H (S j) v Hj). by rewrite Nat.add_succ_r in H.
    + split; [done|]. intros H. destruct E.
      specialize (H 0 x eq_refl). by rewrite Nat.add_0_r in H.
Qed.

Lemma find_dup_elem ids l : forall i v, find_dup ids i l = Some v -> v ∈ l.
Proof.
  induction l as [|x l IH]; intros i v; simpl; [done|].
  case_decide.
  - intros Hf. apply list_elem_of_further. by eapply IH.
  - intros [= <-]. apply list_elem_of_here.
Qed.

Lemma first_duplicate_None ids : first_duplicate ids = None <-> NoDup ids.
Proof.
  unfold first_duplicate. rewrite find_dup_None, NoDup_alt. split.
  - intros H i j x Hi Hj. apply H in Hi, Hj. simpl in *. congruence.
  - intros H j v Hj. simpl. apply list_indexOf_spec. split; [done|].
    intros k Hk Hkv. specialize (H _ _ _ Hkv Hj). lia.
Qed.

Lemma find_category_None (f : string -> bool) (l : list string) :
  List.find f l = None <-> forall x, x ∈ l -> f x = false.
Proof.
  induction l as [|y l IH]; simpl.
  - split; [by intros _ x ?%elem_of_nil | done].
  - destruct (f y) eqn:E.
    + split; [done|]. intros H. specialize (H y (list_elem_of_here _ _)). congruence.
    + rewrite IH. split.
      * intros H x [->|Hx]%elem_of_cons; [done | by apply H].
      * intros H x Hx. apply H. by apply list_elem_of_further.
Qed.

Lemma filter_nil_iff {X} (f : X -> bool) (l : list X) :
  List.filter f l = [] <-> forall x, x ∈ l -> f x = false.
Proof.
  induction l as [|y l IH]; simpl.
  - split; [by intros _ x ?%elem_of_nil | done].
  - destruct (f y) eqn:E.
    + split; [done|]. intros H. specialize (H y (list_elem_of_here _ _)). congruence.
    + rewrite IH. split.
      * intros H x [->|Hx]%elem_of_cons; [done | by apply H].
      * intros H x Hx. apply H. by apply list_elem_of_further.
Qed.

(** X28: when no case has an empty id, the rule checks pass exactly when
    there are at least fifteen cases, at least three in each of the four
    categories, no id twice, every required snippet in the code, and at
    least three tests. *)
Theorem rule_checks_pass_iff (p : parsed) :
  Forall (fun c => id c <> "") (cases p) ->
  ruleChecks p = None
  <-> 15 <= length (cases p)
      /\ (forall cat, cat ∈ categories -> 3 <= in_category cat (cases p))
      /\ NoDup (map id (cases p))
      /\ (forall s, s ∈ requiredSnippets -> includes (code (java p)) s = true)
      /\ 3 <= testCount (java p).
Proof.
  intros Hid. unfold ruleChecks.
  assert (Hcat : forall cat, cat ∈ categories ->
            count_of (countByCat (cases p)) cat = in_category cat (cases p)).
  { intros cat Hc. apply count_of_category. intros ->.
    unfold categories in Hc. set_unfold in Hc. destruct_or!; done. }
  destruct (Nat.ltb_spec (length (cases p)) 15) as [Hn|Hn].
  { split; [done|]. lia. }
  destruct (List.find _ categories) as [cat|] eqn:Ef.
  { split; [done|]. intros (_ & Hc & _).
    apply find_some in Ef as [Hin Hlt]. apply list_elem_of_In in Hin.
    apply Nat.ltb_lt in Hlt. rewrite Hcat in Hlt by done.
    specialize (Hc cat Hin). lia. }
  assert (Hc : forall cat, cat ∈ categories -> 3 <= in_category cat (cases p)).
  { intros cat Hin. rewrite find_category_None in Ef. specialize (Ef cat Hin).
    apply Nat.ltb_ge in Ef. by rewrite Hcat in Ef. }
  destruct (first_duplicate (map id (cases p))) as [dup|] eqn:Ed.
  { assert (Hne : dup <> "").
    { apply find_dup_elem, list_elem_of_fmap in Ed as (c & -> & Hin).
      rewrite Forall_forall in Hid. by apply Hid. }
    destruct dup as [|a dup]; [done|]. split; [done|].
    intros (_ & _ & Hnd & _). apply first_duplicate_None in Hnd. congruence. }
  apply first_duplicate_None in Ed.
  destruct (List.filter _ requiredSnippets) as [|s0 missing] eqn:Em.
  2: { split; [done|]. intros (_ & _ & _ & Hs & _).
       assert (Hin : In s0 (List.filter (fun s => negb (includes (code (java p)) s))
                                        requiredSnippets))
         by (rewrite Em; by left).
       apply filter_In in Hin as [Hin Hf]. apply list_elem_of_In in Hin.
       rewrite (Hs s0 Hin) in Hf. done. }
  rewrite filter_nil_iff in Em.
  assert (Hs : forall s, s ∈ requiredSnippets -> includes (code (java p)) s = true).
  { intros s Hin. specialize (Em s Hin). by apply negb_false_iff in Em. }
  destruct (Nat.ltb_spec (testCount (java p)) 3) as [Ht|Ht].
  - split; [done|]. lia.
  - done.
Qed.

Lemma indexOf_spec n : forall text i,
  indexOf text n = Some i ->
  exists pre post,
    text = pre +:+ n +:+ post /\ String.length pre = i
    /\ forall pre' post', text = pre' +:+ n +:+ post' -> i <= String.length pre'.
Proof.
  induction text as [|c text IH]; intros i; cbn [indexOf].
  - destruct (startsWith "" n) eqn:E; [|done]. intros [= <-].
    apply startsWith_inv in E as [t E]. exists "", t. repeat split; try done.
    intros; lia.
  - destruct (startsWith (String c text) n) eqn:E.
    + intros [= <-]. apply startsWith_inv in E as [t E]. exists "", t.
      repeat split; try done. intros; lia.
    + intros (k & Hk & ->)%fmap_Some.
      destruct (IH k Hk) as (pre & post & -> & Hl & Hmin).
      exists (String c pre), post. simpl. rewrite Hl. repeat split; try done.
      intros [|c' pre'] post' H; simpl in H.
      * rewrite H, startsWith_app in E. done.
      * injection H as _ H. simpl. specialize (Hmin _ _ H). lia.
Qed.

Lemma trimEnd_cons a s : is_space a = false -> trimEnd (String a s) = String a (trimEnd s).
Proof. intros H. simpl. rewrite H. by destruct (trimEnd s). Qed.

Lemma trimEnd_prefix s : exists sp, s = trimEnd s +:+ sp.
Proof.
  induction s as [|a s [sp IH]]; simpl; [by exists ""|].
  destruct (trimEnd s) as [|b t] eqn:E.
  - destruct (is_space a); [by exists (String a s)|]. exists s. done.
  - exists sp. simpl in *. by rewrite <- IH.
Qed.

Lemma after_marker_A post y rest :
  "(A)" +:+ post = y +:+ "(B)" +:+ rest -> y <> "" ->
  exists y3, y = "(A)" +:+ y3 /\ post = y3 +:+ "(B)" +:+ rest.
Proof.
  destruct y as [|c1 [|c2 [|c3 y3]]]; simpl; intros H Hy; simplify_eq.
  by exists y3.
Qed.

(** X29: the sections of an output follow the order of their markers.
    When (A) comes before (B), section A starts with its marker and does not
    hold the marker of B; when (B) comes first, section A is empty and no
    error is raised; without (C), section B starts with its marker and
    section C is empty. *)
Theorem sections_follow_marker_order (text : string) (a b : nat) :
  indexOf text "(A)" = Some a -> indexOf text "(B)" = Some b ->
  exists s, extractSections text = Some s
    /\ (a < b -> startsWith (A s) "(A)" = true /\ includes (A s) "(B)" = false)
    /\ (b < a -> A s = "")
    /\ (indexOf text "(C)" = None -> startsWith (B s) "(B)" = true /\ C s = "").
Proof.
  intros Ha Hb. unfold extractSections. rewrite Ha, Hb.
  eexists. split; [reflexivity|]. cbn [A B C].
  apply indexOf_spec in Ha as (pre & post & Ht & Hla & _).
  apply indexOf_spec in Hb as (preb & postb & Htb & Hlb & Hmin).
  split; [|split].
  - intros Hab. rewrite Htb in Ht.
    symmetry in Ht. apply append_split in Ht as [(x & -> & _)|(y & -> & Hy)].
    { rewrite length_append in Hla. lia. }
    rewrite length_append in Hlb.
    apply after_marker_A in Hy as (y3 & -> & ->);
      [|intros ->; simpl in Hlb; lia].
    assert (E : slice2 a b ((pre +:+ "(A)" +:+ y3) +:+ "(B)" +:+ postb)
                = "(A)" +:+ y3).
    { unfold slice2. rewrite !append_assoc, <- Hla, slice_app.
      replace (b - String.length pre) with (String.length ("(A)" +:+ y3))
        by (rewrite <- Hlb; lia).
      by rewrite <- append_assoc, take_app. }
    rewrite Htb, E.
    assert (Et : trim ("(A)" +:+ y3) = "(A)" +:+ trimEnd y3).
    { unfold trim. simpl trimStart. by rewrite !trimEnd_cons. }
    rewrite Et. split; [done|].
    destruct (includes _ "(B)") eqn:Ei; [|done].
    apply includes_sound in Ei as (p1 & p2 & Ei).
    destruct (trimEnd_prefix y3) as [sp Hsp].
    specialize (Hmin (pre +:+ p1) (p2 +:+ sp +:+ "(B)" +:+ postb)).
    rewrite length_append in Hmin.
    assert (Hlen : String.length ("(A)" +:+ trimEnd y3)
                   = String.length (p1 +:+ "(B)" +:+ p2)) by (by rewrite Ei).
    rewrite !length_append in Hlen. simpl in Hlen.
    assert (Hy3 : String.length y3 = String.length (trimEnd y3) + String.length sp).
    { rewrite Hsp at 1. by rewrite length_append. }
    simpl in Hlb.
    enough (b <= String.length pre + String.length p1) by lia.
    apply Hmin. rewrite Htb. rewrite Hsp at 1.
    transitivity (pre +:+ ("(A)" +:+ trimEnd y3) +:+ sp +:+ "(B)" +:+ postb).
    { by rewrite !append_assoc. }
    rewrite Ei. by rewrite !append_assoc.
  - intros Hba. unfold slice2. replace (b - a) with 0 by lia. reflexivity.
  - intros ->. split; [|done].
    rewrite Htb at 1. rewrite <- Hlb, slice_app. unfold trim.
    simpl trimStart. by rewrite !trimEnd_cons.
Qed.

End CheckFacts.

(** * More instances *)

Section MoreInstances.
Import Js Regex Ir Extract Validate Bridge PlanProps ExtractProps Syntax Outputs.
Import Samples MoreSamples.
Import CheckOutput (indexOf, extractSections, A, ruleChecks, cases).

Lemma refs_follow_a_snapshot_witness :
  exists p, compile_method base login = Some p
    /\ refs_resolvable false (playwright_steps p) = true.
Proof.
  destruct (compile_method base login) as [p|] eqn:E.
  - exists p. split; [done|]. by apply (refs_follow_a_snapshot base login).
  - vm_compute in E. discriminate E.
Defined.

Lemma plan_traces_the_actions_witness :
  exists p, compile_method base login = Some p
    /\ omap original_action (playwright_steps p)
       = filter (fun a => type a <> "navigate") (actions login)
    /\ mp_name p = name login.
Proof.
  destruct (compile_method base login) as [p|] eqn:E.
  - exists p. split; [done|]. by apply (plan_traces_the_actions base login).
  - vm_compute in E. discriminate E.
Defined.

Lemma skipped_steps_are_unknown_actions_witness :
  exists p, compile_method base with_hover = Some p
    /\ omap skipped_action (playwright_steps p)
       = filter (fun a => type a ∉ known_types) (actions with_hover).
Proof.
  destruct (compile_method base with_hover) as [p|] eqn:E.
  - exists p. split; [done|]. by apply (skipped_steps_are_unknown_actions base with_hover).
  - vm_compute in E. discriminate E.
Defined.

Lemma plan_opens_with_navigation_witness :
  exists p s l, compile_method base single_click = Some p
    /\ actions single_click = [on_selector "click" "#go"]
    /\ playwright_steps p = s :: l
    /\ (mcp_tool s = "browser_navigate"
        <-> type (on_selector "click" "#go") = "navigate"
            \/ no_navigate (actions single_click)).
Proof.
  destruct (compile_method base single_click) as [p|] eqn:E.
  - destruct (plan_opens_with_navigation base single_click p _ _ E eq_refl)
      as (s & l & Hs & Hn).
    by exists p, s, l.
  - vm_compute in E. discriminate E.
Defined.

Lemma plan_size_witness :
  exists p, compile_method base login = Some p
    /\ length (actions login) <= total_steps p <= 2 * length (actions login) + 2
    /\ (total_steps p = 0 <-> actions login = []).
Proof.
  destruct (compile_method base login) as [p|] eqn:E.
  - exists p. split; [done|]. by apply (plan_size base login).
  - vm_compute in E. discriminate E.
Defined.

Lemma navigation_targets_are_resolved_witness :
  exists p s l, compile_method base login = Some p
    /\ playwright_steps p = s :: l
    /\ navigates_to s = Some base
    /\ (base = base
        \/ exists a, a ∈ actions login /\ type a = "navigate" /\ url a = Some base
                     /\ startsWith base "{{" = false).
Proof.
  destruct (compile_method base login) as [p|] eqn:E.
  - pose proof E as E'. vm_compute in E'. injection E' as <-.
    eexists _, _, _. split; [exact E|]. split; [reflexivity|]. split; [reflexivity|].
    eapply (navigation_targets_are_resolved base login _ _ base E).
    + apply list_elem_of_here.
    + reflexivity.
  - vm_compute in E. discriminate E.
Defined.

Lemma normalizer_table_witness :
  "user" <> "" /\ quote_free "user"
  /\ byToSelector (locator "id" "user") = "#user"
  /\ byToSelector (locator "linkText" "user") = "text=" +:+ DQ +:+ "user" +:+ DQ.
Proof.
  assert (H1 : "user" <> "") by done.
  assert (H2 : quote_free "user") by reflexivity.
  split; [done|]. split; [done|].
  destruct (normalizer_table "user" H1 H2) as (Hid & _ & _ & _ & _ & _ & Hlink).
  by split.
Defined.

Lemma normalizer_fallback_witness :
  count_dq "driver" < 2 /\ byToSelector "driver" = "driver"
  /\ byToSelector (locator "id" "") = locator "id" "".
Proof.
  assert (H : count_dq "driver" < 2) by (vm_compute; lia).
  split; [done|].
  destruct (normalizer_fallback "driver") as [H1 _].
  split; [by apply H1|].
  destruct (normalizer_fallback (locator "id" "")) as [_ H2].
  by apply (H2 "id").
Defined.

Lemma segments_lie_in_the_text_witness :
  Seg.Make "t" "{ }" ∈ splitTestMethods one_method
  /\ exists pre post,
       one_method = pre +:+ "{ }" +:+ post /\ includes pre "@Test" = true.
Proof.
  assert (H : Seg.Make "t" "{ }" ∈ splitTestMethods one_method).
  { assert (E : splitTestMethods one_method = [Seg.Make "t" "{ }"]) by (vm_compute; reflexivity).
    rewrite E. apply list_elem_of_here. }
  split; [done|].
  destruct (segments_lie_in_the_text one_method _ H) as (pre & post & H1 & H2 & _).
  by exists pre, post.
Defined.

Lemma segment_ends_at_raw_balance_witness :
  Seg.Make "t" "{ }" ∈ splitTestMethods one_method
  /\ (raw_depth "{ }" = 0%Z \/ exists pre, one_method = pre +:+ "{ }").
Proof.
  assert (H : Seg.Make "t" "{ }" ∈ splitTestMethods one_method).
  { assert (E : splitTestMethods one_method = [Seg.Make "t" "{ }"]) by (vm_compute; reflexivity).
    rewrite E. apply list_elem_of_here. }
  split; [done|].
  by destruct (segment_ends_at_raw_balance one_method _ H) as [_ H2].
Defined.

Lemma no_annotation_no_methods_witness :
  includes "class A { }" "@Test" = false
  /\ splitTestMethods "class A { }" = [] /\ extractActions "class A { }" = [].
Proof.
  assert (H : includes "class A { }" "@Test" = false) by reflexivity.
  split; [done|]. by apply (no_annotation_no_methods "class A { }").
Defined.

Lemma description_table_witness :
  "user" <> "" /\ quote_free "user"
  /\ selectorToDescription (byToSelector (locator "id" "user"))
     = "element with id=" +:+ DQ +:+ "user" +:+ DQ.
Proof.
  assert (H1 : "user" <> "") by done.
  assert (H2 : quote_free "user") by reflexivity.
  split; [done|]. split; [done|].
  by destruct (description_table "user" H1 H2) as [H _].
Defined.


Lemma extraction_compiles_without_skips_witness :
  splitTestMethods no_method = [] /\ splitTestMethods one_method <> []
  /\ Script.bridge base (extractActions no_method) = Script.Exit 1
  /\ exists plans,
       Script.bridge base (extractActions one_method) = Script.Written plans
       /\ map mp_name plans = ["t"].
Proof.
  assert (H1 : splitTestMethods no_method = []) by reflexivity.
  assert (E : splitTestMethods one_method = [Seg.Make "t" "{ }"]) by (vm_compute; reflexivity).
  assert (H2 : splitTestMethods one_method <> []) by (by rewrite E).
  split; [done|]. split; [done|].
  destruct (extraction_compiles_without_skips base no_method) as [Ha _].
  destruct (extraction_compiles_without_skips base one_method) as [_ Hb].
  split; [by destruct (Ha H1)|].
  destruct (Hb H2) as (plans & Hw & _ & _ & Hn & _).
  exists plans. split; [done|]. by rewrite Hn, E.
Defined.

Lemma checker_skips_string_literal_witness :
  literal_body "}"
  /\ scan (neutral 1) (DQ +:+ "}" +:+ DQ +:+ "}") = scan (neutral 1) "}".
Proof.
  assert (H : literal_body "}") by (apply lb_char; [done | done | apply lb_end]).
  split; [done|]. by apply (checker_skips_string_literal "}" "}" 1).
Defined.

Lemma checker_skips_comments_witness :
  all_chars not_lf " }" = true
  /\ includes ("*" +:+ " } " +:+ "*") "*/" = false
  /\ scan (neutral 1) ("//" +:+ " }" +:+ LF +:+ "}") = scan (neutral 1) "}"
  /\ scan (neutral 1) ("/*" +:+ " } " +:+ "*/" +:+ "}") = scan (neutral 1) "}".
Proof.
  assert (H1 : all_chars not_lf " }" = true) by reflexivity.
  assert (H2 : includes ("*" +:+ " } " +:+ "*") "*/" = false) by reflexivity.
  split; [done|]. split; [done|].
  destruct (checker_skips_comments " }" "}" 1) as (Ha & _).
  destruct (checker_skips_comments " } " "}" 1) as (_ & Hb & _).
  split; [by destruct (Ha H1) | by apply Hb].
Defined.

Lemma checker_counts_plain_braces_witness :
  plain "{ a }" /\ braceDepth "{ a }" = raw_depth "{ a }".
Proof.
  assert (H : plain "{ a }") by reflexivity.
  split; [done|].
  by destruct (checker_counts_plain_braces "{ a }" "" 0 H) as (_ & H2 & _).
Defined.

Lemma plain_segments_are_balanced_witness :
  plain one_method
  /\ Seg.Make "t" "{ }" ∈ splitTestMethods one_method
  /\ braceDepth "{ }" = raw_depth "{ }".
Proof.
  assert (H1 : plain one_method) by reflexivity.
  assert (H2 : Seg.Make "t" "{ }" ∈ splitTestMethods one_method).
  { assert (E : splitTestMethods one_method = [Seg.Make "t" "{ }"]) by (vm_compute; reflexivity).
    rewrite E. apply list_elem_of_here. }
  split; [done|]. split; [done|].
  by destruct (plain_segments_are_balanced one_method _ H1 H2) as [H _].
Defined.

Lemma model_dir_name_of_provider_witness :
  all_chars dot "openrouter:meta-llama" = true /\ clean "llama-4-scout"
  /\ "free" <> "" /\ all_chars not_slash "free" = true
  /\ toModelDirName provider = "llama-4-scout".
Proof.
  assert (H1 : all_chars dot "openrouter:meta-llama" = true) by reflexivity.
  assert (H2 : clean "llama-4-scout") by reflexivity.
  assert (H3 : "free" <> "") by done.
  assert (H4 : all_chars not_slash "free" = true) by reflexivity.
  split; [done|]. split; [done|]. split; [done|]. split; [done|].
  exact (model_dir_name_of_provider "openrouter:meta-llama" "llama-4-scout" "free"
           H1 H2 H3 H4).
Defined.

Lemma java_blocks_are_trimmed_witness :
  "class A {}" ∈ javaBlocks answer
  /\ trim "class A {}" = "class A {}" /\ includes "class A {}" fence = false.
Proof.
  assert (H : "class A {}" ∈ javaBlocks answer).
  { assert (E : javaBlocks answer = ["class A {}"]) by (vm_compute; reflexivity).
    rewrite E. apply list_elem_of_here. }
  split; [done|]. by apply (java_blocks_are_trimmed answer).
Defined.

Lemma no_fence_no_blocks_witness :
  includes "no code" "```java" = false /\ extractJavaBlocks "no code" = None.
Proof.
  assert (H : includes "no code" "```java" = false) by reflexivity.
  split; [done|]. by apply (no_fence_no_blocks "no code").
Defined.

Lemma single_block_is_extracted_witness :
  all_chars (not_char "`") ("Here:" +:+ LF) = true /\ all_chars space LF = true
  /\ "class A {}" <> "" /\ trim "class A {}" = "class A {}"
  /\ all_chars (not_char "`") "class A {}" = true
  /\ all_chars (not_char "`") "" = true
  /\ extractJavaBlocks answer = Some "class A {}".
Proof.
  assert (H1 : all_chars (not_char "`") ("Here:" +:+ LF) = true) by reflexivity.
  assert (H2 : all_chars space LF = true) by reflexivity.
  assert (H3 : "class A {}" <> "") by done.
  assert (H4 : trim "class A {}" = "class A {}") by reflexivity.
  assert (H5 : all_chars (not_char "`") "class A {}" = true) by reflexivity.
  assert (H6 : all_chars (not_char "`") "" = true) by reflexivity.
  split; [done|]. split; [done|]. split; [done|]. split; [done|].
  split; [done|]. split; [done|].
  exact (single_block_is_extracted ("Here:" +:+ LF) LF "class A {}" LF ""
           H1 H2 H3 H4 H5 H2 H6).
Defined.

Lemma rule_checks_pass_iff_witness :
  Forall (fun c => CheckOutput.id c <> "") (cases good_output)
  /\ ruleChecks good_output = None
  /\ NoDup (map CheckOutput.id (cases good_output)).
Proof.
  assert (H : Forall (fun c => CheckOutput.id c <> "") (cases good_output)).
  { apply (bool_decide_unpack _). vm_compute. exact I. }
  assert (E : ruleChecks good_output = None) by (vm_compute; reflexivity).
  split; [done|]. split; [done|].
  destruct (rule_checks_pass_iff good_output H) as [H1 _].
  by destruct (H1 E) as (_ & _ & Hnd & _).
Defined.

Lemma sections_follow_marker_order_witness :
  indexOf two_sections "(A)" = Some 0 /\ indexOf two_sections "(B)" = Some 10
  /\ exists s, extractSections two_sections = Some s
       /\ startsWith (A s) "(A)" = true /\ includes (A s) "(B)" = false.
Proof.
  assert (H1 : indexOf two_sections "(A)" = Some 0) by reflexivity.
  assert (H2 : indexOf two_sections "(B)" = Some 10) by reflexivity.
  split; [done|]. split; [done|].
  destruct (sections_follow_marker_order two_sections 0 10 H1 H2)
    as (s & Hs & Hab & _).
  exists s. split; [done|]. apply Hab. lia.
Defined.

End MoreInstances.
